(** * ps_ripper: identification of PlayStation 2 disc images

    A shallow embedding of [identify_playstation2_games.py] and of the parts
    of [read_udf.py] it relies on, with the properties of the
    natural-language specification stated and settled against it.

    Python [bytes] are lists of [byte]; Python integers are [Z]; an
    exception is a value of [exn] and a call that may raise returns
    [exn + A] ([inl] is the raise). Dictionaries are [gmap]s. *)

From Stdlib Require Import ZArith List Bool Lia.
From Stdlib Require Import Strings.String Strings.Byte.
From stdpp Require Import base countable gmap strings.
Import ListNotations.

Local Open Scope Z_scope.

(** ** Python values *)

Module Py.

#[global] Instance byte_eq_dec : EqDecision byte := Byte.byte_eq_dec.

#[global] Program Instance byte_countable : Countable byte :=
  inj_countable Byte.to_N Byte.of_N _.
Next Obligation. intros x. apply Byte.of_to_N. Qed.

Definition bytes : Type := list byte.

(** [b "SLUS"] is the literal [b'SLUS']. *)
Definition b (s : string) : bytes := String.list_byte_of_string s.

(** The integer value of one byte, [0 .. 255]. *)
Definition ord (c : byte) : Z := Z.of_N (Byte.to_N c).

Definition chr (n : Z) : byte :=
  match Byte.of_N (Z.to_N n) with
  | Some c => c
  | None => x00
  end.

Definition len {A : Type} (l : list A) : Z := Z.of_nat (length l).

(** Exceptions, by class. The message is the text of the source; where the
    source formats numbers into it, the template is kept. *)
Inductive exn : Type :=
| Exception (msg : string)
| NotImplementedError (msg : string)
| AttributeError (msg : string)
| OSError (msg : string)
| struct_error (msg : string).

(** [x in l] for a list of byte strings. *)
Definition bytes_in (x : bytes) (l : list bytes) : bool :=
  existsb (fun y => bool_decide (x = y)) l.

(** [bytes.upper()] and [bytes.lower()]: only ASCII letters change. *)
Definition byte_upper (c : byte) : byte :=
  if (97 <=? ord c) && (ord c <=? 122) then chr (ord c - 32) else c.

Definition byte_lower (c : byte) : byte :=
  if (65 <=? ord c) && (ord c <=? 90) then chr (ord c + 32) else c.

Definition upper (s : bytes) : bytes := map byte_upper s.
Definition lower (s : bytes) : bytes := map byte_lower s.

(** [s.replace(old, new)] where [old] is one byte long, which is every use
    in the source: each occurrence of the byte is replaced, left to right. *)
Fixpoint replace (old : byte) (new : bytes) (s : bytes) : bytes :=
  match s with
  | [] => []
  | c :: t => if bool_decide (c = old) then new ++ replace old new t
              else c :: replace old new t
  end.

(** [s.split(sep)[0]] for a one-byte separator: the text before the first
    separator, or all of [s] when there is none. *)
Fixpoint split_head (sep : byte) (s : bytes) : bytes :=
  match s with
  | [] => []
  | c :: t => if bool_decide (c = sep) then [] else c :: split_head sep t
  end.

(** [s.lstrip(c)] for a one-character set. *)
Fixpoint lstrip (c : byte) (s : bytes) : bytes :=
  match s with
  | [] => []
  | d :: t => if bool_decide (d = c) then lstrip c t else s
  end.

Fixpoint startswith (p s : bytes) : bool :=
  match p, s with
  | [], _ => true
  | _ :: _, [] => false
  | c :: p', d :: s' => bool_decide (c = d) && startswith p' s'
  end.

(** [sub in s] on byte strings: [sub] occurs as a contiguous slice. *)
Fixpoint contains (sub s : bytes) : bool :=
  startswith sub s ||
  match s with
  | [] => false
  | _ :: t => contains sub t
  end.

(** *** Binary files opened for reading *)

Record file : Type := File { f_data : bytes; f_pos : Z }.

Definition open_rb (data : bytes) : file := File data 0.

(** [f.seek(p)]; every caller in the source passes a position [>= 0]. *)
Definition seek (f : file) (p : Z) : file := File (f_data f) p.

Definition tell (f : file) : Z := f_pos f.

(** [f.read(n)]: at most [n] bytes from the current position, fewer at the
    end of the file (none past it); a negative [n] reads to the end. *)
Definition read (f : file) (n : Z) : bytes * file :=
  let rest := skipn (Z.to_nat (f_pos f)) (f_data f) in
  let chunk := if n <? 0 then rest else firstn (Z.to_nat n) rest in
  (chunk, File (f_data f) (f_pos f + len chunk)).

(** [os.path.getsize]. *)
Definition getsize (data : bytes) : Z := len data.

(** [s[lo:hi]] with Python's rules: a negative index counts from the end,
    and both ends are clamped to the sequence. *)
Definition clamp_index (n i : Z) : Z :=
  if i <? 0 then Z.max 0 (i + n) else Z.min i n.

Definition slice {A : Type} (s : list A) (lo hi : Z) : list A :=
  let lo' := clamp_index (len s) lo in
  let hi' := clamp_index (len s) hi in
  firstn (Z.to_nat (hi' - lo')) (skipn (Z.to_nat lo') s).

(** *** Calls that may raise *)

Definition bind {A B : Type} (m : exn + A) (k : A -> exn + B) : exn + B :=
  match m with
  | inl e => inl e
  | inr a => k a
  end.

Definition raise {A : Type} (e : exn) : exn + A := inl e.

Notation "'let!' x ':=' m 'in' k" := (bind m (fun x => k))
  (at level 10, x name, m at level 100, k at level 200,
   format "'[v' 'let!'  x  ':='  m  'in' '/' k ']'").

End Py.

Import Py.

(** ** read_udf.py *)

Module ReadUdf.

(** [struct.Struct('i').size] is 4. *)
Definition MAX_INT : Z := 2 ^ (4 * 8 - 1) - 1.
Definition HEADER_SIZE : Z := 1024 * 32.
Definition SECTOR_SIZE : Z := 1024 * 2.

(** [range(n)]. *)
Definition range (n : nat) : list Z := map Z.of_nat (seq 0 n).

(** [struct.unpack('B', buffer[start : start + 1])[0]]: the slice must be
    exactly one byte long. *)
Definition to_uint8 (buffer : bytes) (start : Z) : exn + Z :=
  match slice buffer start (start + 1) with
  | [c] => inr (ord c)
  | _ => raise (struct_error "unpack requires a buffer of 1 bytes")
  end.

Definition to_uint16 (buffer : bytes) (start : Z) : exn + Z :=
  let! hi := to_uint8 buffer (start + 1) in
  let left := Z.land (Z.shiftl hi 8) 0xFF00 in
  let! lo := to_uint8 buffer (start + 0) in
  let right := Z.land (Z.shiftl lo 0) 0x00FF in
  inr (Z.lor left right).

Definition to_uint32 (buffer : bytes) (start : Z) : exn + Z :=
  let! b3 := to_uint8 buffer (start + 3) in
  let a := Z.land (Z.shiftl b3 24) 0xFF000000 in
  let! b2 := to_uint8 buffer (start + 2) in
  let b := Z.land (Z.shiftl b2 16) 0x00FF0000 in
  let! b1 := to_uint8 buffer (start + 1) in
  let c := Z.land (Z.shiftl b1 8) 0x0000FF00 in
  let! b0 := to_uint8 buffer (start + 0) in
  let d := Z.land (Z.shiftl b0 0) 0x000000FF in
  inr (Z.lor (Z.lor (Z.lor a b) c) d).

(** *** class BaseTag *)

Module BaseTag.

(** [_assert_size], with [self._size] as first argument. *)
Definition _assert_size (_size : Z) (buffer : bytes) (start : Z) : exn + unit :=
  if _size =? 0 then inr tt
  else if len buffer - start <? _size
  then raise (Exception "{0} requires {1} bytes, but buffer only has {2}")
  else inr tt.

(** The [for i in range(16)] loop of [_assert_checksum]. *)
Fixpoint sum_header (indices : list Z) (buffer : bytes) (start checksum : Z)
  : exn + Z :=
  match indices with
  | [] => inr checksum
  | i :: rest =>
    if i =? 4 then sum_header rest buffer start checksum
    else
      let! v := to_uint8 buffer (start + i) in
      sum_header rest buffer start (checksum + v)
  end.

(** [while checksum >= 256: checksum -= 256]; [n] bounds the number of
    turns. *)
Fixpoint truncate_uint8 (n : nat) (checksum : Z) : Z :=
  match n with
  | O => checksum
  | S n' => if checksum >=? 256 then truncate_uint8 n' (checksum - 256)
            else checksum
  end.

(** The loop subtracts 256 exactly [checksum / 256] times. *)
Definition _assert_checksum (buffer : bytes) (start expected_checksum : Z)
  : exn + unit :=
  let! checksum := sum_header (range 16) buffer start 0 in
  let checksum := truncate_uint8 (Z.to_nat (checksum / 256)) checksum in
  if negb (checksum =? expected_checksum)
  then raise (Exception "Checksum was {0}, but {1} was expected")
  else inr tt.

Definition _assert_tag_identifier (tag_identifier expected_tag_identifier : Z)
  : exn + unit :=
  if negb (tag_identifier =? expected_tag_identifier)
  then raise (Exception "Expected Tag Identifier {0}, but was {1}")
  else inr tt.

(** [_assert_reserve_space]: every byte of [buffer[start : start + length]]
    is read on its own with [to_uint8] and must be zero. *)
Definition _assert_reserve_space (buffer : bytes) (start length : Z)
  : exn + unit :=
  let buf_seg := slice buffer start (start + length) in
  if forallb (fun c => ord c =? 0) buf_seg then inr tt
  else raise (Exception "Reserve space at {0} was not zero.").

End BaseTag.

Module TagIdentifier.
Definition unknown : Z := 0.
Definition PrimaryVolumeDescriptor : Z := 1.
Definition AnchorVolumeDescriptorPointer : Z := 2.
Definition VolumeDescriptorPointer : Z := 3.
Definition ImplementationUseVolumeDescriptor : Z := 4.
Definition PartitionDescriptor : Z := 5.
Definition LogicalVolumeDescriptor : Z := 6.
Definition UnallocatedSpaceDescriptor : Z := 7.
Definition TerminatingDescriptor : Z := 8.
Definition LogicalVolumeIntegrityDescriptor : Z := 9.
Definition FileSetDescriptor : Z := 256.
Definition FileIdentifierDescriptor : Z := 257.
Definition FileEntry : Z := 261.
End TagIdentifier.

(** *** class DescriptorTag *)

Module DescriptorTag.

Record t : Type := Make {
  tag_identifier : Z;
  descriptor_version : Z;
  tag_check_sum : Z;
  reserved : Z;
  tag_serial_number : Z;
  descriptor_crc : Z;
  descriptor_crc_length : Z;
  tag_location : Z
}.

Definition __init__ (buffer : bytes) (start : Z) : exn + t :=
  let! _ := BaseTag._assert_size 16 buffer start in
  let! tag_identifier := to_uint16 buffer (start + 0) in
  let! descriptor_version := to_uint16 buffer (start + 2) in
  let! tag_check_sum := to_uint8 buffer (start + 4) in
  let! reserved := to_uint8 buffer (start + 5) in
  let! tag_serial_number := to_uint16 buffer (start + 6) in
  let! descriptor_crc := to_uint16 buffer (start + 8) in
  let! descriptor_crc_length := to_uint16 buffer (start + 10) in
  let! tag_location := to_uint32 buffer (start + 12) in
  if tag_identifier =? TagIdentifier.unknown
  then raise (Exception "Tag Identifier was unknown")
  else
    let! _ := BaseTag._assert_checksum buffer start tag_check_sum in
    let! _ := BaseTag._assert_reserve_space buffer (start + 5) 1 in
    inr (Make tag_identifier descriptor_version tag_check_sum reserved
              tag_serial_number descriptor_crc descriptor_crc_length
              tag_location).

End DescriptorTag.

(** *** class ExtentDescriptor *)

Module ExtentDescriptor.

Record t : Type := Make { extent_length : Z; extent_location : Z }.

Definition __init__ (buffer : bytes) (start : Z) : exn + t :=
  let! _ := BaseTag._assert_size 8 buffer start in
  let! extent_length := to_uint32 buffer start in
  let! extent_location := to_uint32 buffer (start + 4) in
  inr (Make extent_length extent_location).

End ExtentDescriptor.

(** The first statements of every descriptor class that carries a tag
    ([AnchorVolumeDescriptorPointer], [FileSetDescriptor],
    [PrimaryVolumeDescriptor], [PartitionDescriptor],
    [LogicalVolumeDescriptor], [FileEntry], [FileIdentifierDescriptor]):
    the size check of [BaseTag.__init__], the [DescriptorTag] at [start],
    and the check of its identifier. *)
Definition tagged_header (_size expected : Z) (buffer : bytes) (start : Z)
  : exn + DescriptorTag.t :=
  let! _ := BaseTag._assert_size _size buffer start in
  let! descriptor_tag := DescriptorTag.__init__ buffer start in
  let! _ := BaseTag._assert_tag_identifier
              (DescriptorTag.tag_identifier descriptor_tag) expected in
  inr descriptor_tag.

(** *** class AnchorVolumeDescriptorPointer *)

Module AnchorVolumeDescriptorPointer.

Record t : Type := Make {
  descriptor_tag : DescriptorTag.t;
  main_volume_descriptor_sequence_extent : ExtentDescriptor.t;
  reserve_volume_descriptor_sequence_extent : ExtentDescriptor.t;
  reserved : bytes
}.

Definition __init__ (buffer : bytes) (start : Z) : exn + t :=
  let! descriptor_tag :=
    tagged_header 512 TagIdentifier.AnchorVolumeDescriptorPointer
                  buffer start in
  let! main := ExtentDescriptor.__init__ buffer (start + 16) in
  let! reserve := ExtentDescriptor.__init__ buffer (start + 24) in
  let reserved := slice buffer (start + 32) (start + 512) in
  let! _ := BaseTag._assert_reserve_space buffer (start + 32) 480 in
  inr (Make descriptor_tag main reserve reserved).

End AnchorVolumeDescriptorPointer.

(** *** Partitions

    [PhysicalPartition._file] is the one file object of the session; it is
    the [file] that the reading functions below take and give back. *)

Module PhysicalPartition.
Record t : Type := Make { _start : Z; _length : Z }.
End PhysicalPartition.

(** [Type1Partition], the only [LogicalPartition] that can be built;
    [logical_block_size] is that of its volume descriptor. *)
Module LogicalPartition.
Record t : Type := Make {
  physical_partition : PhysicalPartition.t;
  logical_block_size : Z
}.
End LogicalPartition.

Module AllocationType.
Definition short_descriptors : Z := 0.
Definition long_descriptors : Z := 1.
Definition extended_descriptors : Z := 2.
Definition embedded : Z := 3.
End AllocationType.

(** The fields of [ICBTag] and [FileEntry] that the content buffer reads. *)
Module ICBTag.
Record t : Type := Make { file_type : Z; allocation_type : Z; flags : Z }.
End ICBTag.

Module FileEntry.
Record t : Type := Make {
  icb_tag : ICBTag.t;
  information_length : Z;
  allocation_descriptors : bytes
}.
End FileEntry.

Module CookedExtent.
Record t : Type := Make {
  file_content_offset : Z;
  partition : Z;
  start_pos : Z;
  length : Z
}.
End CookedExtent.

(** *** class ShortAllocationDescriptor *)

Module ShortAllocationDescriptor.

Record t : Type := Make {
  extent_location : Z;
  extent_length : Z;
  flags : Z
}.

Definition size : Z := 8.

Definition __init__ (buffer : bytes) (start : Z) : exn + t :=
  let! _ := BaseTag._assert_size size buffer start in
  let! length := to_uint32 buffer start in
  let! extent_location := to_uint32 buffer (start + 4) in
  let extent_length := Z.land length 0x3FFFFFFF in
  let flags := Z.land (Z.shiftr length 30) 0x3 in
  inr (Make extent_location extent_length flags).

End ShortAllocationDescriptor.

(** *** class FileContentBuffer *)

Module FileContentBuffer.

Record t : Type := Make {
  partition : LogicalPartition.t;
  file_entry : FileEntry.t;
  block_size : Z;
  extents : list CookedExtent.t
}.

(** The [while i < len(active_buffer)] loop of [load_extents]; [None] is
    the loop still running after [fuel] turns. *)
Fixpoint load_short (fuel : nat) (active_buffer : bytes) (block_size : Z)
    (file_pos i : Z) (extents : list CookedExtent.t)
  : option (exn + list CookedExtent.t) :=
  match fuel with
  | O => None
  | S fuel' =>
    if i <? len active_buffer then
      match ShortAllocationDescriptor.__init__ active_buffer i with
      | inl e => Some (inl e)
      | inr sad =>
        if ShortAllocationDescriptor.extent_length sad =? 0
        then Some (inr extents)
        else if negb (ShortAllocationDescriptor.flags sad =? 0)
        then Some (raise (NotImplementedError
               "Can't use extents that are not recorded and allocated."))
        else
          let new_extent :=
            CookedExtent.Make file_pos MAX_INT
              (ShortAllocationDescriptor.extent_location sad * block_size)
              (ShortAllocationDescriptor.extent_length sad) in
          load_short fuel' active_buffer block_size
            (file_pos + ShortAllocationDescriptor.extent_length sad)
            (i + ShortAllocationDescriptor.size)
            (extents ++ [new_extent])
      end
    else Some (inr extents)
  end.

(** [load_extents]: every turn of the loop moves [i] forward by 8, so
    [len(active_buffer) + 1] turns are enough. *)
Definition load_extents (file_entry : FileEntry.t) (block_size : Z)
  : option (exn + list CookedExtent.t) :=
  let active_buffer := FileEntry.allocation_descriptors file_entry in
  let alloc_type := ICBTag.allocation_type (FileEntry.icb_tag file_entry) in
  if alloc_type =? AllocationType.short_descriptors then
    load_short (S (List.length active_buffer)) active_buffer block_size 0 0 []
  else if alloc_type =? AllocationType.embedded then
    Some (raise (NotImplementedError EmptyString))
  else if alloc_type =? AllocationType.long_descriptors then
    Some (raise (NotImplementedError EmptyString))
  else
    Some (raise (NotImplementedError
            "FIXME: Add support for allocation type {0}")).

Definition __init__ (partition : LogicalPartition.t)
    (file_entry : FileEntry.t) (block_size : Z) : option (exn + t) :=
  match load_extents file_entry block_size with
  | None => None
  | Some (inl e) => Some (inl e)
  | Some (inr extents) =>
    Some (inr (Make partition file_entry block_size extents))
  end.

Definition capacity (self : t) : Z :=
  FileEntry.information_length (file_entry self).

Fixpoint find_extent_in (extents : list CookedExtent.t) (pos : Z)
  : option CookedExtent.t :=
  match extents with
  | [] => None
  | extent :: rest =>
    if CookedExtent.file_content_offset extent + CookedExtent.length extent
       >? pos
    then Some extent
    else find_extent_in rest pos
  end.

Definition find_extent (self : t) (pos : Z) : option CookedExtent.t :=
  find_extent_in (extents self) pos.

(** The [while total_read < total_to_read] loop of [read_from_extents].
    [buffer] is the variable of that name: each turn assigns the bytes just
    read to it. *)
Fixpoint read_loop (fuel : nat) (self : t) (file : file)
    (pos total_to_read total_read : Z) (buffer : bytes)
  : option ((exn + bytes) * Py.file) :=
  match fuel with
  | O => None
  | S fuel' =>
    if total_read <? total_to_read then
      match find_extent self (pos + total_read) with
      | None =>
        Some (raise (AttributeError
          "'NoneType' object has no attribute 'file_content_offset'"), file)
      | Some extent =>
        let extent_offset :=
          (pos + total_read) - CookedExtent.file_content_offset extent in
        let to_read := Z.min (total_to_read - total_read)
                             (CookedExtent.length extent - extent_offset) in
        if negb (CookedExtent.partition extent =? MAX_INT) then
          Some (raise (AttributeError
            "'FileContentBuffer' object has no attribute 'logical_partitions'"),
                file)
        else
          let part := partition self in
          let new_pos :=
            CookedExtent.start_pos extent + extent_offset
            + PhysicalPartition._start
                (LogicalPartition.physical_partition part) in
          if new_pos <? 0 then
            Some (raise (OSError "[Errno 22] Invalid argument"), file)
          else
            let file := seek file new_pos in
            let (buffer, file) := read file to_read in
            if len buffer =? 0 then Some (inr buffer, file)
            else read_loop fuel' self file pos total_to_read
                           (total_read + len buffer) buffer
      end
    else Some (inr buffer, file)
  end.

(** Every turn that goes on has read at least one byte, so
    [total_to_read + 1] turns are enough. *)
Definition read_from_extents (self : t) (file : file) (pos offset count : Z)
  : option ((exn + bytes) * Py.file) :=
  let total_to_read := Z.min (capacity self - pos) count in
  read_loop (S (Z.to_nat total_to_read)) self file pos total_to_read 0 [].

(** [l[lo:hi] = x] on a list. *)
Definition slice_assign {A : Type} (l : list A) (lo hi : Z) (x : list A)
  : list A :=
  let lo' := clamp_index (len l) lo in
  let hi' := Z.max lo' (clamp_index (len l) hi) in
  firstn (Z.to_nat lo') l ++ x ++ skipn (Z.to_nat hi') l.

(** [read]. The embedded branch returns a list of the bytes copied; it is
    given here as the byte string with the same elements. *)
Definition read (self : t) (file : file) (pos offset count : Z)
  : option ((exn + bytes) * Py.file) :=
  let buffer : bytes := [] in
  if ICBTag.allocation_type (FileEntry.icb_tag (file_entry self))
     =? AllocationType.embedded then
    let src_buffer := FileEntry.allocation_descriptors (file_entry self) in
    if pos >? len src_buffer then Some (inr buffer, file)
    else
      let to_copy := Z.min (len src_buffer - pos) count in
      Some (inr (slice_assign buffer offset (offset + to_copy)
                   (slice src_buffer pos (pos + to_copy))), file)
  else read_from_extents self file pos offset count.

End FileContentBuffer.

(** *** is_valid_udf *)

(** The [while(is_valid)] loop; the result is the three flags when the loop
    is left, by [break] or by [is_valid = False]. *)
Fixpoint scan_recognition (fuel : nat) (file : file)
    (has_bea has_vsd has_tea : bool)
  : option ((exn + (bool * bool * bool)) * Py.file) :=
  match fuel with
  | O => None
  | S fuel' =>
    let (buffer, file) := read file SECTOR_SIZE in
    if len buffer <? SECTOR_SIZE then
      Some (inr (has_bea, has_vsd, has_tea), file)
    else
      match to_uint8 buffer 0 with
      | inl e => Some (inl e, file)
      | inr structure_type =>
        let standard_identifier := slice buffer 1 6 in
        match to_uint8 buffer 6 with
        | inl e => Some (inl e, file)
        | inr structure_version =>
          if bytes_in standard_identifier [b "BEA01"] then
            scan_recognition fuel' file true has_vsd has_tea
          else if bytes_in standard_identifier [b "NSR02"; b "NSR03"] then
            scan_recognition fuel' file has_bea true has_tea
          else if bytes_in standard_identifier [b "TEA01"] then
            scan_recognition fuel' file has_bea has_vsd true
          else if bytes_in standard_identifier
                    [b "BOOT2"; b "CD001"; b "CDW02"] then
            scan_recognition fuel' file has_bea has_vsd has_tea
          else
            Some (inr (has_bea, has_vsd, has_tea), file)
        end
      end
  end.

(** Every turn that goes on has read a whole sector, so one turn per byte
    of the file, and one more, are enough. *)
Definition is_valid_udf (file : file) (file_size : Z)
  : option ((exn + bool) * Py.file) :=
  let file := seek file 0 in
  if file_size <? HEADER_SIZE + SECTOR_SIZE then Some (inr false, file)
  else
    let file := seek file HEADER_SIZE in
    match scan_recognition (S (List.length (f_data file))) file
                           false false false with
    | None => None
    | Some (inl e, file) => Some (inl e, file)
    | Some (inr (has_bea, has_vsd, has_tea), file) =>
      Some (inr (has_bea && has_vsd && has_tea), file)
    end.

(** *** get_sector_size *)

(** The [for size in sizes] loop. *)
Fixpoint probe_sizes (sizes : list Z) (file : file) (file_size : Z)
  : (exn + Z) * Py.file :=
  match sizes with
  | [] => (raise (Exception "Could not get file sector size."), file)
  | size :: rest =>
    if file_size <? 257 * size then probe_sizes rest file file_size
    else
      let file := seek file (256 * size) in
      let (buffer, file) := read file 16 in
      match DescriptorTag.__init__ buffer 0 with
      | inl _ => probe_sizes rest file file_size
      | inr tag =>
        if negb (DescriptorTag.tag_location tag =? 256)
        then probe_sizes rest file file_size
        else if negb (DescriptorTag.tag_identifier tag
                      =? TagIdentifier.AnchorVolumeDescriptorPointer)
        then probe_sizes rest file file_size
        else (inr size, file)
      end
  end.

Definition get_sector_size (file : file) (file_size : Z)
  : (exn + Z) * Py.file :=
  let sizes := [4096; 2048; 1024; 512] in
  probe_sizes sizes file file_size.

End ReadUdf.

(** ** identify_playstation2_games.py *)

Module Identify.

Definition BUFFER_SIZE : Z := 1024 * 1024 * 10.
Definition MAX_PREFIX_LEN : Z := 6.

Definition PREFIXES : list bytes := Eval cbv in map b
  [ "SLPM"; "SLES"; "SCES"; "SLUS"; "SLPS"; "SCUS"; "SCPS"; "SCAJ"; "SLKA";
    "SCKA"; "SLAJ"; "NPJD"; "TCPS"; "KOEI"; "NPUD"; "ALCH"; "PBGP"; "NPED";
    "CPCS"; "FVGK"; "SCED"; "NPJC"; "GN"; "GUST"; "HSN"; "SLED"; "DMP";
    "INCH"; "PBPX"; "KAD"; "SLPN"; "TCES"; "NPUC"; "DESR"; "PAPX"; "PBPS";
    "PCPX"; "ROSE"; "SRPM"; "SCEE"; "HAKU"; "GER"; "HKID"; "MPR"; "GWS";
    "HKHS"; "NS"; "XSPL"; "Sierra"; "ARZE"; "VUGJ"; "VO"; "WFLD" ]%string.

(** Line 217: [sub_entry.upper().replace(b'.', b'').replace(b'_', b'-')]. *)
Definition sanitize (sub_entry : bytes) : bytes :=
  replace "_"%byte (b "-") (replace "."%byte [] (upper sub_entry)).

(** *** The pattern of [_find_in_binary]

    [re.search(prefix + b"[\_|\-][\d|\.]+\;", rom_data)]. Every prefix is
    made of letters, so it stands for itself in the pattern. The two
    bracketed classes also hold the ['|'] written between their members. *)

Definition is_separator (c : byte) : bool :=
  bool_decide (c = "_"%byte) || bool_decide (c = "|"%byte)
  || bool_decide (c = "-"%byte).

Definition is_body (c : byte) : bool :=
  ((48 <=? ord c) && (ord c <=? 57))
  || bool_decide (c = "|"%byte) || bool_decide (c = "."%byte).

(** The rest of [[\d|\.]+\;] after its first byte: as many body bytes as
    there are, then [';']. No body byte is [';'], so giving a byte back
    never helps and the longest run is the only candidate. *)
Fixpoint match_tail (s : bytes) : option bytes :=
  match s with
  | [] => None
  | c :: t =>
    if is_body c then
      match match_tail t with
      | Some m => Some (c :: m)
      | None => None
      end
    else if bool_decide (c = ";"%byte) then Some [c]
    else None
  end.

(** A match that starts at the first byte of [s]; the result is the
    matched text, [m.group()]. *)
Definition match_here (prefix s : bytes) : option bytes :=
  if startswith prefix s then
    match skipn (List.length prefix) s with
    | c :: d :: rest =>
      if is_separator c && is_body d then
        match match_tail rest with
        | Some m => Some (prefix ++ c :: d :: m)
        | None => None
        end
      else None
    | _ => None
    end
  else None.

(** [re.search]: the match at the leftmost position that has one. *)
Fixpoint re_search (prefix s : bytes) : option bytes :=
  match match_here prefix s with
  | Some m => Some m
  | None =>
    match s with
    | [] => None
    | _ :: t => re_search prefix t
    end
  end.

(** The [for prefix in PREFIXES] loop over one buffer. *)
Fixpoint search_prefixes (prefixes : list bytes) (rom_data : bytes)
  : option bytes :=
  match prefixes with
  | [] => None
  | prefix :: rest =>
    match re_search prefix rom_data with
    | Some group =>
      if negb (bool_decide (group = []))
         && negb (contains (b "999.99") group)
      then Some (replace ";"%byte []
                  (replace "_"%byte (b "-")
                    (replace "."%byte [] group)))
      else search_prefixes rest rom_data
    | None => search_prefixes rest rom_data
    end
  end.

Section Scanner.

(** The size of one read; [BUFFER_SIZE] in the source. *)
Variable buffer_size : Z.

(** The [while True] loop; the outer [None] is the loop still running
    after [fuel] turns, [Some None] is [return None]. *)
Fixpoint scan (fuel : nat) (f : file) (file_size : Z)
  : option (option bytes) :=
  match fuel with
  | O => None
  | S fuel' =>
    let (rom_data, f) := read f buffer_size in
    if bool_decide (rom_data = []) then Some None
    else
      let pos := tell f in
      let use_offset := (pos >? MAX_PREFIX_LEN) && (pos <? file_size) in
      match search_prefixes PREFIXES rom_data with
      | Some serial_number => Some (Some serial_number)
      | None =>
        scan fuel' (if use_offset then seek f (pos - MAX_PREFIX_LEN) else f)
             file_size
      end
  end.

(** [_find_in_binary] on a file with the bytes [data]: every turn that
    goes on leaves the position further than it found it, so one turn per
    byte, and one more, are enough. *)
Definition find_in_binary_with (data : bytes) : option (option bytes) :=
  scan (S (List.length data)) (open_rb data) (getsize data).

End Scanner.

Definition _find_in_binary (data : bytes) : option (option bytes) :=
  find_in_binary_with BUFFER_SIZE data.

(** *** get_playstation2_game_info *)

(** What the orchestrator learns from the file named [file_name]:
    - [extension] is [os.path.splitext(file_name)[1]];
    - [udf_identifiers] is the outcome of [read_udf.read_udf_file] and of
      collecting [file_identifier] over [all_entries];
    - [iso_tree] is the outcome of walking [iso9660.ISO9660(file_name).tree()];
    - [content] is the bytes of the file. *)
Record disc_image : Type := DiscImage {
  extension : bytes;
  udf_identifiers : exn + list bytes;
  iso_tree : exn + list bytes;
  content : bytes
}.

Record game_info : Type := GameInfo {
  serial_number : bytes;
  region : string;
  title : string;
  disc_type : string
}.

Section Orchestrator.

(** The six tables read from the JSON files when the module is loaded,
    keyed by bytes. *)
Variables db_playstation2_official_as db_playstation2_official_au
          db_playstation2_official_eu db_playstation2_official_jp
          db_playstation2_official_ko db_playstation2_official_us
  : gmap bytes string.

(** The [if]/[elif] chain: [(title, region)]. *)
Definition look_up (serial_number : bytes) : option string * option string :=
  match db_playstation2_official_as !! serial_number with
  | Some t => (Some t, Some "Asia"%string)
  | None =>
  match db_playstation2_official_au !! serial_number with
  | Some t => (Some t, Some "Australia"%string)
  | None =>
  match db_playstation2_official_eu !! serial_number with
  | Some t => (Some t, Some "Europe"%string)
  | None =>
  match db_playstation2_official_jp !! serial_number with
  | Some t => (Some t, Some "Japan"%string)
  | None =>
  match db_playstation2_official_ko !! serial_number with
  | Some t => (Some t, Some "Korea"%string)
  | None =>
  match db_playstation2_official_us !! serial_number with
  | Some t => (Some t, Some "USA"%string)
  | None => (None, None)
  end end end end end end.

(** Truth value of an optional string: [None] and [''] are false. *)
Definition truthy (v : option string) : bool :=
  match v with
  | Some s => negb (bool_decide (s = EmptyString))
  | None => false
  end.

(** The [for sub_entry in entries] loop and the [raise] after it. An entry
    is [None] when the scanner returned [None]. *)
Fixpoint identify (disc_type : string) (entries : list (option bytes))
  : exn + game_info :=
  match entries with
  | [] => raise (Exception "Failed to find game in database.")
  | None :: _ =>
    raise (AttributeError "'NoneType' object has no attribute 'upper'")
  | Some sub_entry :: rest =>
    let serial_number := sanitize sub_entry in
    if negb (bytes_in (split_head "-"%byte serial_number) PREFIXES)
    then identify disc_type rest
    else
      match look_up serial_number with
      | (Some title, Some region) =>
        if negb (truthy (Some title)) || negb (truthy (Some region))
        then identify disc_type rest
        else inr (GameInfo serial_number region title disc_type)
      | _ => identify disc_type rest
      end
  end.

(** The outer [None] is [_find_in_binary] not returning. *)
Definition get_playstation2_game_info (image : disc_image)
  : option (exn + game_info) :=
  if negb (bytes_in (lower (extension image)) [b ".iso"; b ".bin"])
  then Some (raise (Exception "Not an ISO or BIN file."))
  else
    let disc_type : option string := None in
    let entries : list (option bytes) := [] in
    (* Look at each file in the DVD ISO *)
    let '(disc_type, entries) :=
      match udf_identifiers image with
      | inr identifiers => (Some "DVD"%string, map Some identifiers)
      | inl _ => (disc_type, entries)
      end in
    (* Look at each file in the CD ISO *)
    let '(disc_type, entries) :=
      match disc_type with
      | Some _ => (disc_type, entries)
      | None =>
        match iso_tree image with
        | inr paths =>
          (Some "CD"%string, map (fun p => Some (lstrip "/"%byte p)) paths)
        | inl _ => (disc_type, entries)
        end
      end in
    (* Look at the entire binary *)
    let found :=
      match disc_type with
      | Some _ => Some (disc_type, entries)
      | None =>
        match _find_in_binary (content image) with
        | None => None
        | Some hit => Some (Some "Binary"%string, [hit])
        end
      end in
    match found with
    | None => None
    | Some (None, _) =>
      Some (raise (Exception
                     "Failed to read as a CD ISO, DVD ISO, or Binary."))
    | Some (Some disc_type, entries) => Some (identify disc_type entries)
    end.

End Orchestrator.

End Identify.

(** ** More of the Python model

    Exception classes that the rest of [read_udf.py] can raise besides
    those of [exn], and the two ways the source turns a code point into
    bytes. *)

Module PyExt.

Inductive error : Type :=
| Raised (e : exn)
| ZeroDivisionError (msg : string)
| ValueError (msg : string)
| UnicodeEncodeError (msg : string)
| IndexError (msg : string)
| KeyError (msg : string)
| UnboundLocalError (msg : string).

Definition lift {A : Type} (m : exn + A) : error + A :=
  match m with
  | inl e => inl (Raised e)
  | inr a => inr a
  end.

Definition ebind {A B : Type} (m : error + A) (k : A -> error + B)
  : error + B :=
  match m with
  | inl e => inl e
  | inr a => k a
  end.

Notation "'let*' x ':=' m 'in' k" := (ebind m (fun x => k))
  (at level 10, x name, m at level 100, k at level 200,
   format "'[v' 'let*'  x  ':='  m  'in' '/' k ']'").

(** [bytes(chr(n))] under Python 2: one byte, for [n] below 256. *)
Definition chr_py2 (n : Z) : error + bytes :=
  if (0 <=? n) && (n <? 256) then inr [chr n]
  else inl (ValueError "chr() arg not in range(256)").

(** [bytes(chr(n), 'utf-8')] under Python 3: the UTF-8 encoding of the
    code point [n]; the surrogates cannot be encoded. *)
Definition chr_utf8 (n : Z) : error + bytes :=
  if (n <? 0) || (0x10FFFF <? n)
  then inl (ValueError "chr() arg not in range(0x110000)")
  else if n <? 0x80 then inr [chr n]
  else if n <? 0x800 then inr [chr (0xC0 + n / 64); chr (0x80 + n mod 64)]
  else if (0xD800 <=? n) && (n <=? 0xDFFF)
  then inl (UnicodeEncodeError "surrogates not allowed")
  else if n <? 0x10000
  then inr [chr (0xE0 + n / 4096); chr (0x80 + (n / 64) mod 64);
            chr (0x80 + n mod 64)]
  else inr [chr (0xF0 + n / 262144); chr (0x80 + (n / 4096) mod 64);
            chr (0x80 + (n / 64) mod 64); chr (0x80 + n mod 64)].

(** A list comprehension over calls that may raise: the first raise ends
    it. *)
Fixpoint for_each {A B : Type} (f : A -> error + B) (l : list A)
  : error + list B :=
  match l with
  | [] => inr []
  | x :: rest =>
    let* y := f x in
    let* ys := for_each f rest in
    inr (y :: ys)
  end.

(** [l[i]] on a list, for an index that is not negative. *)
Definition index {A : Type} (l : list A) (i : Z) : error + A :=
  match nth_error l (Z.to_nat i) with
  | Some x => inr x
  | None => inl (IndexError "list index out of range")
  end.

(** Calls that hold a loop: [None] is the loop still running, [Some] what
    the call returns or raises. *)
Definition rbind {A B : Type} (m : option (error + A))
    (k : A -> option (error + B)) : option (error + B) :=
  match m with
  | None => None
  | Some (inl e) => Some (inl e)
  | Some (inr a) => k a
  end.

Definition ok {A : Type} (m : exn + A) : option (error + A) := Some (lift m).

Notation "'let?' x ':=' m 'in' k" := (rbind m (fun x => k))
  (at level 10, x name, m at level 100, k at level 200,
   format "'[v' 'let?'  x  ':='  m  'in' '/' k ']'").

(** Any instance of a class that defines neither [__bool__] nor
    [__len__] is true. *)
Definition object_truth {A : Type} (_ : A) : bool := true.

(** *** Statements that use the open file

    A computation takes the file object and gives it back with what it
    returns or raises; [None] is a loop still running. *)
Module Session.

Definition t (A : Type) : Type := file -> option ((error + A) * file).

Definition ret {A : Type} (a : A) : t A := fun f => Some (inr a, f).

Definition throw {A : Type} (e : error) : t A := fun f => Some (inl e, f).

Definition bind {A B : Type} (m : t A) (k : A -> t B) : t B :=
  fun f =>
    match m f with
    | None => None
    | Some (inl e, f') => Some (inl e, f')
    | Some (inr a, f') => k a f'
    end.

Definition of_exn {A : Type} (m : exn + A) : t A :=
  fun f => Some (lift m, f).

Definition of_error {A : Type} (m : error + A) : t A := fun f => Some (m, f).

Definition of_run {A : Type} (m : option (error + A)) : t A :=
  fun f =>
    match m with
    | None => None
    | Some r => Some (r, f)
    end.

(** [file.seek(p)] and [file.read(n)]. *)
Definition seek (p : Z) : t unit := fun f => Some (inr tt, Py.seek f p).

Definition read (n : Z) : t bytes :=
  fun f => let (buffer, f') := Py.read f n in Some (inr buffer, f').

End Session.

Notation "'let&' x ':=' m 'in' k" := (Session.bind m (fun x => k))
  (at level 10, x name, m at level 100, k at level 200,
   format "'[v' 'let&'  x  ':='  m  'in' '/' k ']'").

End PyExt.

Import PyExt.

(** ** More of read_udf.py *)

Module ReadUdfExt.
Import ReadUdf.

Definition to_uint64 (buffer : bytes) (start : Z) : exn + Z :=
  let! b7 := to_uint8 buffer (start + 7) in
  let a := Z.land (Z.shiftl b7 56) 0xFF00000000000000 in
  let! b6 := to_uint8 buffer (start + 6) in
  let b := Z.land (Z.shiftl b6 48) 0x00FF000000000000 in
  let! b5 := to_uint8 buffer (start + 5) in
  let c := Z.land (Z.shiftl b5 40) 0x0000FF0000000000 in
  let! b4 := to_uint8 buffer (start + 4) in
  let d := Z.land (Z.shiftl b4 32) 0x000000FF00000000 in
  let! b3 := to_uint8 buffer (start + 3) in
  let e := Z.land (Z.shiftl b3 24) 0x00000000FF000000 in
  let! b2 := to_uint8 buffer (start + 2) in
  let f := Z.land (Z.shiftl b2 16) 0x0000000000FF0000 in
  let! b1 := to_uint8 buffer (start + 1) in
  let g := Z.land (Z.shiftl b1 8) 0x000000000000FF00 in
  let! b0 := to_uint8 buffer (start + 0) in
  let h := Z.land (Z.shiftl b0 0) 0x00000000000000FF in
  inr (Z.lor (Z.lor (Z.lor (Z.lor (Z.lor (Z.lor (Z.lor a b) c) d) e) f) g) h).

(** [((value + (unit - 1)) // unit) * unit]; [//] rounds down, as [Z.div]
    does, and raises on a zero divisor. *)
Definition round_up (value unit : Z) : error + Z :=
  if unit =? 0
  then inl (ZeroDivisionError "integer division or modulo by zero")
  else inr (((value + (unit - 1)) / unit) * unit).

(** *** to_dchars and to_dstring *)

(** The [while pos < count] loop of [to_dchars]; the result is the list of
    code points. *)
Fixpoint dchars_loop (fuel : nat) (buffer : bytes) (offset count alg pos : Z)
    (result : list Z) : option (exn + list Z) :=
  match fuel with
  | O => None
  | S fuel' =>
    if pos <? count then
      match to_uint8 [x00] 0 with
      | inl e => Some (inl e)
      | inr ch =>
        match (if alg =? 16 then
                 let! hi := to_uint8 buffer (offset + pos) in
                 inr (Z.shiftl hi 8, pos + 1)
               else inr (ch, pos)) with
        | inl e => Some (inl e)
        | inr (ch, pos) =>
          match (if pos <? count then
                   let! lo := to_uint8 buffer (offset + pos) in
                   inr (Z.lor ch lo, pos + 1)
                 else inr (ch, pos)) with
          | inl e => Some (inl e)
          | inr (ch, pos) =>
            dchars_loop fuel' buffer offset count alg pos (result ++ [ch])
          end
        end
      end
    else Some (inr result)
  end.

Section PythonVersion.

(** [IS_PY2]: whether the interpreter is Python 2. *)
Variable IS_PY2 : bool.

(** Every turn of the loop moves [pos] forward, so [count + 1] turns are
    enough. *)
Definition to_dchars (buffer : bytes) (offset count : Z)
  : option (error + bytes) :=
  if count =? 0 then Some (inr [])
  else
    match to_uint8 buffer offset with
    | inl e => Some (inl (Raised e))
    | inr alg =>
      if negb ((alg =? 8) || (alg =? 16))
      then Some (inl (Raised (Exception "Corrupt compressed unicode string")))
      else
        match dchars_loop (S (Z.to_nat count)) buffer offset count alg 1 []
        with
        | None => None
        | Some (inl e) => Some (inl (Raised e))
        | Some (inr result) =>
          Some (let* result :=
                  for_each (if IS_PY2 then chr_py2 else chr_utf8) result in
                inr (concat result))
        end
    end.

Definition to_dstring (buffer : bytes) (offset count : Z)
  : option (error + bytes) :=
  match to_uint8 buffer (offset + count - 1) with
  | inl e => Some (inl (Raised e))
  | inr byte_len => to_dchars buffer offset byte_len
  end.

End PythonVersion.

(** *** The descriptors without a tag *)

Module LogicalBlockAddress.

Record t : Type := Make {
  logical_block_number : Z;
  partition_reference_number : Z
}.

Definition __init__ (buffer : bytes) (start : Z) : exn + t :=
  let! _ := BaseTag._assert_size 6 buffer start in
  let! logical_block_number := to_uint32 buffer (start + 0) in
  let! partition_reference_number := to_uint16 buffer (start + 4) in
  inr (Make logical_block_number partition_reference_number).

End LogicalBlockAddress.

Module LongAllocationDescriptor.

Record t : Type := Make {
  extent_length : Z;
  extent_location : LogicalBlockAddress.t;
  implementation_use : bytes
}.

Definition __init__ (buffer : bytes) (start : Z) : exn + t :=
  let! _ := BaseTag._assert_size 16 buffer start in
  let! extent_length := to_uint32 buffer (start + 0) in
  let! extent_location := LogicalBlockAddress.__init__ buffer (start + 4) in
  let implementation_use := slice buffer (start + 10) (start + 16) in
  inr (Make extent_length extent_location implementation_use).

End LongAllocationDescriptor.

Module EntityIdType.
Definition unknown : Z := 0.
Definition DomainIdentifier : Z := 1.
Definition UDFIdentifier : Z := 2.
Definition ImplementationIdentifier : Z := 3.
Definition ApplicationIdentifier : Z := 4.
End EntityIdType.

Module EntityID.

Record t : Type := Make {
  entity_id_type : Z;
  flags : Z;
  identifier : bytes;
  identifier_suffix : bytes
}.

Definition __init__ (entity_id_type : Z) (buffer : bytes) (start : Z)
  : exn + t :=
  let! _ := BaseTag._assert_size 32 buffer start in
  let! flags := to_uint8 buffer (start + 0) in
  let identifier := slice buffer (start + 1) (start + 24) in
  let identifier_suffix := slice buffer (start + 24) (start + 32) in
  inr (Make entity_id_type flags identifier identifier_suffix).

End EntityID.

Module Type1PartitionMap.

Record t : Type := Make {
  partition_map_type : Z;
  partition_map_length : Z;
  volume_sequence_number : Z;
  partition_number : Z
}.

Definition size : Z := 6.

Definition __init__ (buffer : bytes) (start : Z) : exn + t :=
  let! _ := BaseTag._assert_size size buffer start in
  let! partition_map_type := to_uint8 buffer (start + 0) in
  let! partition_map_length := to_uint8 buffer (start + 1) in
  let! volume_sequence_number := to_uint16 buffer (start + 2) in
  let! partition_number := to_uint16 buffer (start + 4) in
  if negb (partition_map_type =? 1)
  then raise (Exception "Type 1 Partition Map Type was {0} instead of 1.")
  else if negb (partition_map_length =? size)
  then raise (Exception
                "Type 1 Partition Map Length was {0} instead of {1}.")
  else inr (Make partition_map_type partition_map_length
                 volume_sequence_number partition_number).

End Type1PartitionMap.

(** The [for i in range(self.number_of_partition_maps)] loop of
    [LogicalVolumeDescriptor.get_partition_maps], on the descriptor's
    [_raw_partition_maps]; [turns] is the number of turns left. *)
Fixpoint partition_maps_loop (turns : nat) (buffer : bytes) (part_start : Z)
    (retval : list Type1PartitionMap.t) : exn + list Type1PartitionMap.t :=
  match turns with
  | O => inr retval
  | S turns' =>
    let! partition_type := to_uint8 buffer part_start in
    if partition_type =? 1 then
      let! partition := Type1PartitionMap.__init__ buffer part_start in
      partition_maps_loop turns' buffer (part_start + Type1PartitionMap.size)
                          (retval ++ [partition])
    else raise (Exception "Unexpected partition type {0}")
  end.

Definition get_partition_maps (_raw_partition_maps : bytes)
    (number_of_partition_maps : Z) : exn + list Type1PartitionMap.t :=
  partition_maps_loop (Z.to_nat number_of_partition_maps)
                      _raw_partition_maps 0 [].

(** *** class ICBTag, with every field *)

Module ICBTagDescriptor.

Record t : Type := Make {
  prior_recorded_number_of_direct_entries : Z;
  strategy_type : Z;
  strategy_parameter : bytes;
  maximum_number_of_entries : Z;
  reserved : bytes;
  file_type : Z;
  parent_icb_location : LogicalBlockAddress.t;
  allocation_type : Z;
  flags : Z
}.

Definition __init__ (buffer : bytes) (start : Z) : exn + t :=
  let! _ := BaseTag._assert_size 20 buffer start in
  let! prior := to_uint32 buffer start in
  let! strategy_type := to_uint16 buffer (start + 4) in
  let strategy_parameter := slice buffer (start + 6) (start + 2) in
  let! maximum_number_of_entries := to_uint16 buffer (start + 8) in
  let reserved := slice buffer (start + 10) (start + 11) in
  let! file_type := to_uint8 buffer (start + 11) in
  let! parent_icb_location :=
    LogicalBlockAddress.__init__ buffer (start + 12) in
  let! raw_flags := to_uint16 buffer (start + 18) in
  let allocation_type := Z.land raw_flags 0x3 in
  let flags := Z.land raw_flags 0xFFFC in
  let! _ := BaseTag._assert_reserve_space buffer (start + 10) 1 in
  inr (Make prior strategy_type strategy_parameter maximum_number_of_entries
            reserved file_type parent_icb_location allocation_type flags).

(** The fields that the content buffer reads. *)
Definition icb_tag (self : t) : ICBTag.t :=
  ICBTag.Make (file_type self) (allocation_type self) (flags self).

End ICBTagDescriptor.

Module FileType.
Definition unknown : Z := 0.
Definition directory : Z := 4.
Definition sequence_of_bytes : Z := 5.
End FileType.

(** *** class FileEntry, with every field *)

Module FileEntryDescriptor.

Record t : Type := Make {
  descriptor_tag : DescriptorTag.t;
  icb_tag : ICBTagDescriptor.t;
  uid : Z;
  gid : Z;
  permissions : Z;
  file_link_count : Z;
  record_format : Z;
  record_display_attributes : Z;
  record_length : Z;
  information_length : Z;
  logical_blocks_recorded : Z;
  access_date_and_time : bytes;
  modification_date_and_time : bytes;
  attribute_date_and_time : bytes;
  checkpoint : Z;
  extended_attribute_icb : LongAllocationDescriptor.t;
  implementation_identifier : EntityID.t;
  uinque_id : Z;
  length_of_extended_attributes : Z;
  length_of_allocation_descriptors : Z;
  extended_attributes : bytes;
  allocation_descriptors : bytes
}.

Definition __init__ (buffer : bytes) (start : Z) : exn + t :=
  let! descriptor_tag :=
    tagged_header 300 TagIdentifier.FileEntry buffer start in
  let! icb_tag := ICBTagDescriptor.__init__ buffer (start + 16) in
  let! uid := to_uint32 buffer (start + 36) in
  let! gid := to_uint32 buffer (start + 40) in
  let! permissions := to_uint32 buffer (start + 44) in
  let! file_link_count := to_uint16 buffer (start + 48) in
  let! record_format := to_uint8 buffer (start + 50) in
  let! record_display_attributes := to_uint8 buffer (start + 51) in
  let! record_length := to_uint32 buffer (start + 52) in
  let! information_length := to_uint64 buffer (start + 56) in
  let! logical_blocks_recorded := to_uint64 buffer (start + 64) in
  let access_date_and_time := slice buffer (start + 72) (start + 84) in
  let modification_date_and_time := slice buffer (start + 84) (start + 96) in
  let attribute_date_and_time := slice buffer (start + 96) (start + 108) in
  let! checkpoint := to_uint32 buffer (start + 108) in
  let! extended_attribute_icb :=
    LongAllocationDescriptor.__init__ buffer (start + 112) in
  let! implementation_identifier :=
    EntityID.__init__ EntityIdType.ImplementationIdentifier buffer
                      (start + 128) in
  let! uinque_id := to_uint64 buffer (start + 160) in
  let! length_of_extended_attributes := to_uint32 buffer (start + 168) in
  let! length_of_allocation_descriptors := to_uint32 buffer (start + 173) in
  let extended_attributes :=
    slice buffer (start + 176)
          (start + 176 + length_of_extended_attributes) in
  let allocation_descriptors :=
    slice buffer (start + 176 + length_of_extended_attributes)
          (start + 176 + length_of_extended_attributes
           + length_of_allocation_descriptors) in
  inr (Make descriptor_tag icb_tag uid gid permissions file_link_count
            record_format record_display_attributes record_length
            information_length logical_blocks_recorded access_date_and_time
            modification_date_and_time attribute_date_and_time checkpoint
            extended_attribute_icb implementation_identifier uinque_id
            length_of_extended_attributes length_of_allocation_descriptors
            extended_attributes allocation_descriptors).

(** The fields that the content buffer reads. *)
Definition file_entry (self : t) : FileEntry.t :=
  FileEntry.Make (ICBTagDescriptor.icb_tag (icb_tag self))
                 (information_length self) (allocation_descriptors self).

End FileEntryDescriptor.

Module FileCharacteristic.
Definition existence : Z := 0x01.
Definition directory : Z := 0x02.
Definition deleted : Z := 0x04.
Definition parent : Z := 0x08.
Definition metadata : Z := 0x10.
End FileCharacteristic.

(** *** class FileIdentifierDescriptor and class Directory *)

Module FileIdentifierDescriptor.

Record t : Type := Make {
  descriptor_tag : DescriptorTag.t;
  file_version_number : Z;
  file_characteristics : Z;
  length_of_file_identifier : Z;
  ICB : LongAllocationDescriptor.t;
  length_of_implementation_use : Z;
  implementation_use : bytes;
  file_identifier : bytes;
  rounded_size : Z
}.

Definition __init__ (IS_PY2 : bool) (buffer : bytes) (start : Z)
  : option (error + t) :=
  match
    (let! descriptor_tag :=
       tagged_header 0 TagIdentifier.FileIdentifierDescriptor buffer start in
     let! file_version_number := to_uint16 buffer (start + 16) in
     let! file_characteristics := to_uint8 buffer (start + 18) in
     let! length_of_file_identifier := to_uint8 buffer (start + 19) in
     let! ICB := LongAllocationDescriptor.__init__ buffer (start + 20) in
     let! length_of_implementation_use := to_uint16 buffer (start + 36) in
     inr (descriptor_tag, file_version_number, file_characteristics,
          length_of_file_identifier, ICB, length_of_implementation_use))
  with
  | inl e => Some (inl (Raised e))
  | inr (descriptor_tag, file_version_number, file_characteristics,
         length_of_file_identifier, ICB, length_of_implementation_use) =>
    let implementation_use :=
      slice buffer (start + 38)
            (start + 38 + length_of_implementation_use) in
    let s := start + 38 + length_of_implementation_use in
    let l := length_of_file_identifier in
    match to_dchars IS_PY2 buffer s l with
    | None => None
    | Some (inl e) => Some (inl e)
    | Some (inr file_identifier) =>
      Some (let* rounded_size :=
              round_up (38 + length_of_implementation_use
                        + length_of_file_identifier) 4 in
            inr (Make descriptor_tag file_version_number
                      file_characteristics length_of_file_identifier ICB
                      length_of_implementation_use implementation_use
                      file_identifier rounded_size))
    end
  end.

End FileIdentifierDescriptor.

Module Directory.

(** The [while pos < len(content_bytes)] loop of [Directory.__init__]. *)
Fixpoint parse_entries (IS_PY2 : bool) (fuel : nat) (content_bytes : bytes)
    (pos : Z) (_entries : list FileIdentifierDescriptor.t)
  : option (error + list FileIdentifierDescriptor.t) :=
  match fuel with
  | O => None
  | S fuel' =>
    if pos <? len content_bytes then
      match FileIdentifierDescriptor.__init__ IS_PY2 content_bytes pos with
      | None => None
      | Some (inl e) => Some (inl e)
      | Some (inr id) =>
        let _entries :=
          if Z.land (FileIdentifierDescriptor.file_characteristics id)
                    (Z.lor FileCharacteristic.deleted
                           FileCharacteristic.parent) =? 0
          then _entries ++ [id] else _entries in
        parse_entries IS_PY2 fuel' content_bytes
                      (pos + FileIdentifierDescriptor.rounded_size id)
                      _entries
      end
    else Some (inr _entries)
  end.

(** [Directory.__init__]; the result is [all_entries]. Every descriptor
    read moves [pos] forward by at least 40, so one turn per byte of the
    content, and one more, are enough. *)
Definition __init__ (IS_PY2 : bool) (partition : LogicalPartition.t)
    (file_entry : FileEntry.t) (f : file)
  : option ((error + list FileIdentifierDescriptor.t) * file) :=
  let block_size := LogicalPartition.logical_block_size partition in
  match FileContentBuffer.__init__ partition file_entry block_size with
  | None => None
  | Some (inl e) => Some (inl (Raised e), f)
  | Some (inr file_content) =>
    if FileContentBuffer.capacity file_content >? MAX_INT
    then Some (inl (Raised (NotImplementedError "Directory too big")), f)
    else
      match FileContentBuffer.read file_content f 0 0
                                   (FileContentBuffer.capacity file_content)
      with
      | None => None
      | Some (inl e, f) => Some (inl (Raised e), f)
      | Some (inr content_bytes, f) =>
        match parse_entries IS_PY2 (S (List.length content_bytes))
                            content_bytes 0 [] with
        | None => None
        | Some r => Some (r, f)
        end
      end
  end.

End Directory.

(** *** read_extent and File.from_descriptor *)

(** [UdfContext.logical_partitions]; the file of the context is the [file]
    that the functions take and give back. *)
Definition read_extent (logical_partitions : list LogicalPartition.t)
    (f : file) (extent : LongAllocationDescriptor.t)
  : (error + bytes) * file :=
  match index logical_partitions
          (LogicalBlockAddress.partition_reference_number
             (LongAllocationDescriptor.extent_location extent)) with
  | inl e => (inl e, f)
  | inr partition =>
    let offset :=
      PhysicalPartition._start
        (LogicalPartition.physical_partition partition) in
    let pos :=
      LogicalBlockAddress.logical_block_number
        (LongAllocationDescriptor.extent_location extent)
      * LogicalPartition.logical_block_size partition in
    let length := LongAllocationDescriptor.extent_length extent in
    let f := seek f (offset + pos) in
    let (retval, f) := read f length in
    (inr retval, f)
  end.

(** [File.from_descriptor]; the result is [all_entries] of the directory
    built. *)
Definition from_descriptor (IS_PY2 : bool)
    (logical_partitions : list LogicalPartition.t) (f : file)
    (icb : LongAllocationDescriptor.t)
  : option ((error + list FileIdentifierDescriptor.t) * file) :=
  match index logical_partitions
          (LogicalBlockAddress.partition_reference_number
             (LongAllocationDescriptor.extent_location icb)) with
  | inl e => Some (inl e, f)
  | inr partition =>
    match read_extent logical_partitions f icb with
    | (inl e, f) => Some (inl e, f)
    | (inr root_data_dir, f) =>
      match DescriptorTag.__init__ root_data_dir 0 with
      | inl e => Some (inl (Raised e), f)
      | inr dt =>
        if DescriptorTag.tag_identifier dt =? TagIdentifier.FileEntry then
          match FileEntryDescriptor.__init__ root_data_dir 0 with
          | inl e => Some (inl (Raised e), f)
          | inr file_entry =>
            if ICBTagDescriptor.file_type
                 (FileEntryDescriptor.icb_tag file_entry)
               =? FileType.directory
            then Directory.__init__ IS_PY2 partition
                   (FileEntryDescriptor.file_entry file_entry) f
            else Some (inl (Raised (NotImplementedError
                   "FIXME: Expected a directory not a FileType of {0}")), f)
          end
        else Some (inl (Raised (NotImplementedError
               "FIXME: Add the code for handling Tag Identifier {0}")), f)
      end
    end
  end.

(** *** The descriptors of the volume descriptor sequence *)

Module PrimaryVolumeDescriptor.

Record t : Type := Make {
  descriptor_tag : DescriptorTag.t;
  volume_descriptor_sequence_number : Z;
  primary_volume_descriptor_number : Z;
  volume_identifier : bytes;
  volume_sequence_number : Z;
  maximum_volume_sequence_number : Z;
  interchange_level : Z;
  maximum_interchange_level : Z;
  character_set_list : Z;
  maximum_character_set_list : Z;
  volume_set_identifier : bytes;
  descriptor_character_set : bytes;
  expalnatory_character_set : bytes;
  volume_abstract : ExtentDescriptor.t;
  volume_copyright_notice : ExtentDescriptor.t;
  application_identifier : EntityID.t;
  recording_date_and_time : bytes;
  implementation_identifier : EntityID.t;
  implementation_use : bytes;
  predecessor_volume_descriptor_sequence_location : Z;
  flags : Z;
  reserved : bytes
}.

Definition __init__ (IS_PY2 : bool) (buffer : bytes) (start : Z)
  : option (error + t) :=
  let? descriptor_tag :=
    ok (tagged_header 512 TagIdentifier.PrimaryVolumeDescriptor
                      buffer start) in
  let? volume_descriptor_sequence_number :=
    ok (to_uint32 buffer (start + 16)) in
  let? primary_volume_descriptor_number :=
    ok (to_uint32 buffer (start + 20)) in
  let? volume_identifier := to_dstring IS_PY2 buffer (start + 24) 32 in
  let? volume_sequence_number := ok (to_uint16 buffer (start + 56)) in
  let? maximum_volume_sequence_number :=
    ok (to_uint16 buffer (start + 58)) in
  let? interchange_level := ok (to_uint16 buffer (start + 60)) in
  let? maximum_interchange_level := ok (to_uint16 buffer (start + 62)) in
  let? character_set_list := ok (to_uint32 buffer (start + 64)) in
  let? maximum_character_set_list := ok (to_uint32 buffer (start + 68)) in
  let? volume_set_identifier := to_dstring IS_PY2 buffer (start + 72) 128 in
  let descriptor_character_set := slice buffer (start + 200) (start + 264) in
  let expalnatory_character_set :=
    slice buffer (start + 264) (start + 328) in
  let? volume_abstract :=
    ok (ExtentDescriptor.__init__ buffer (start + 328)) in
  let? volume_copyright_notice :=
    ok (ExtentDescriptor.__init__ buffer (start + 336)) in
  let? application_identifier :=
    ok (EntityID.__init__ EntityIdType.ApplicationIdentifier buffer
                          (start + 344)) in
  let recording_date_and_time := slice buffer (start + 376) (start + 388) in
  let? implementation_identifier :=
    ok (EntityID.__init__ EntityIdType.ImplementationIdentifier buffer
                          (start + 388)) in
  let implementation_use := slice buffer (start + 420) (start + 484) in
  let? predecessor_volume_descriptor_sequence_location :=
    ok (to_uint32 buffer (start + 484)) in
  let? flags := ok (to_uint16 buffer (start + 488)) in
  let reserved := slice buffer (start + 490) (start + 512) in
  let? _ := ok (BaseTag._assert_reserve_space buffer (start + 490) 22) in
  Some (inr (Make descriptor_tag volume_descriptor_sequence_number
                  primary_volume_descriptor_number volume_identifier
                  volume_sequence_number maximum_volume_sequence_number
                  interchange_level maximum_interchange_level
                  character_set_list maximum_character_set_list
                  volume_set_identifier descriptor_character_set
                  expalnatory_character_set volume_abstract
                  volume_copyright_notice application_identifier
                  recording_date_and_time implementation_identifier
                  implementation_use
                  predecessor_volume_descriptor_sequence_location
                  flags reserved)).

End PrimaryVolumeDescriptor.

Module PartitionDescriptor.

Record t : Type := Make {
  descriptor_tag : DescriptorTag.t;
  volume_descriptor_sequence_number : Z;
  partition_flags : Z;
  partition_number : Z;
  partition_contents : EntityID.t;
  partition_contents_use : bytes;
  access_type : Z;
  partition_starting_location : Z;
  partition_length : Z;
  implementation_identifier : EntityID.t;
  implementation_use : bytes;
  reserved : bytes
}.

Definition __init__ (buffer : bytes) (start : Z) : exn + t :=
  let! descriptor_tag :=
    tagged_header 512 TagIdentifier.PartitionDescriptor buffer start in
  let! volume_descriptor_sequence_number :=
    to_uint32 buffer (start + 16) in
  let! partition_flags := to_uint16 buffer (start + 20) in
  let! partition_number := to_uint16 buffer (start + 22) in
  let! partition_contents :=
    EntityID.__init__ EntityIdType.UDFIdentifier buffer (start + 24) in
  let partition_contents_use := slice buffer (start + 56) (start + 184) in
  let! access_type := to_uint32 buffer (start + 184) in
  let! partition_starting_location := to_uint32 buffer (start + 188) in
  let! partition_length := to_uint32 buffer (start + 192) in
  let! implementation_identifier :=
    EntityID.__init__ EntityIdType.ImplementationIdentifier buffer
                      (start + 196) in
  let implementation_use := slice buffer (start + 228) (start + 356) in
  let reserved := slice buffer (start + 356) (start + 512) in
  let! _ := BaseTag._assert_reserve_space buffer (start + 356) 156 in
  inr (Make descriptor_tag volume_descriptor_sequence_number partition_flags
            partition_number partition_contents partition_contents_use
            access_type partition_starting_location partition_length
            implementation_identifier implementation_use reserved).

End PartitionDescriptor.

Module LogicalVolumeDescriptor.

Record t : Type := Make {
  descriptor_tag : DescriptorTag.t;
  volume_descriptor_sequence_number : Z;
  descriptor_character_set : bytes;
  logical_volume_identifier : bytes;
  logical_block_size : Z;
  domain_identifier : EntityID.t;
  logical_volume_contents_use : bytes;
  map_table_length : Z;
  number_of_partition_maps : Z;
  implementation_identifier : EntityID.t;
  implementation_use : bytes;
  integrity_sequence_extent : ExtentDescriptor.t;
  _raw_partition_maps : bytes
}.

Definition __init__ (IS_PY2 : bool) (buffer : bytes) (start : Z)
  : option (error + t) :=
  let? descriptor_tag :=
    ok (tagged_header 512 TagIdentifier.LogicalVolumeDescriptor
                      buffer start) in
  let? volume_descriptor_sequence_number :=
    ok (to_uint32 buffer (start + 16)) in
  let descriptor_character_set := slice buffer (start + 20) (start + 84) in
  let? logical_volume_identifier :=
    to_dstring IS_PY2 buffer (start + 84) 128 in
  let? logical_block_size := ok (to_uint32 buffer (start + 212)) in
  let? domain_identifier :=
    ok (EntityID.__init__ EntityIdType.DomainIdentifier buffer
                          (start + 216)) in
  let logical_volume_contents_use :=
    slice buffer (start + 248) (start + 264) in
  let? map_table_length := ok (to_uint32 buffer (start + 264)) in
  let? number_of_partition_maps := ok (to_uint32 buffer (start + 268)) in
  let? implementation_identifier :=
    ok (EntityID.__init__ EntityIdType.ImplementationIdentifier buffer
                          (start + 272)) in
  let implementation_use := slice buffer (start + 304) (start + 432) in
  let? integrity_sequence_extent :=
    ok (ExtentDescriptor.__init__ buffer (start + 432)) in
  let _raw_partition_maps := slice buffer (start + 440) (start + 512) in
  if negb (contains (b "*OSTA UDF Compliant")
                    (EntityID.identifier domain_identifier))
  then Some (inl (Raised (Exception "Logical Volume is not OSTA compliant")))
  else
    Some (inr (Make descriptor_tag volume_descriptor_sequence_number
                    descriptor_character_set logical_volume_identifier
                    logical_block_size domain_identifier
                    logical_volume_contents_use map_table_length
                    number_of_partition_maps implementation_identifier
                    implementation_use integrity_sequence_extent
                    _raw_partition_maps)).

(** The property [partition_maps]. *)
Definition partition_maps (self : t) : exn + list Type1PartitionMap.t :=
  get_partition_maps (_raw_partition_maps self)
                     (number_of_partition_maps self).

(** The property [file_set_descriptor_location]. *)
Definition file_set_descriptor_location (self : t)
  : exn + LongAllocationDescriptor.t :=
  LongAllocationDescriptor.__init__ (logical_volume_contents_use self) 0.

End LogicalVolumeDescriptor.

Module TerminatingDescriptor.

Record t : Type := Make { }.

Definition __init__ (buffer : bytes) (start : Z) : exn + t :=
  let! _ := BaseTag._assert_size 512 buffer start in
  inr Make.

End TerminatingDescriptor.

Module FileSetDescriptor.

Record t : Type := Make {
  descriptor_tag : DescriptorTag.t;
  recording_date_and_time : bytes;
  interchange_level : Z;
  maximum_interchange_level : Z;
  character_set_list : Z;
  maximum_character_set_list : Z;
  file_set_number : Z;
  file_set_descriptor_number : Z;
  logical_volume_identifier_character_set : bytes;
  logical_volume_identifier : bytes;
  file_set_character_set : bytes;
  file_set_identifier : bytes;
  copyright_file_identifier : bytes;
  abstract_file_identifier : bytes;
  root_directory_icb : LongAllocationDescriptor.t;
  domain_identifier : EntityID.t;
  next_extent : LongAllocationDescriptor.t;
  system_stream_directory_icb : LongAllocationDescriptor.t;
  reserved : bytes
}.

Definition __init__ (IS_PY2 : bool) (buffer : bytes) (start : Z)
  : option (error + t) :=
  let? descriptor_tag :=
    ok (tagged_header 512 TagIdentifier.FileSetDescriptor buffer start) in
  let recording_date_and_time := slice buffer (start + 16) (start + 28) in
  let? interchange_level := ok (to_uint16 buffer (start + 28)) in
  let? maximum_interchange_level := ok (to_uint16 buffer (start + 30)) in
  let? character_set_list := ok (to_uint32 buffer (start + 32)) in
  let? maximum_character_set_list := ok (to_uint32 buffer (start + 36)) in
  let? file_set_number := ok (to_uint32 buffer (start + 40)) in
  let? file_set_descriptor_number := ok (to_uint32 buffer (start + 44)) in
  let logical_volume_identifier_character_set :=
    slice buffer (start + 48) (start + 112) in
  let? logical_volume_identifier :=
    to_dstring IS_PY2 buffer (start + 112) 128 in
  let file_set_character_set := slice buffer (start + 240) (start + 274) in
  let? file_set_identifier := to_dstring IS_PY2 buffer (start + 304) 32 in
  let? copyright_file_identifier :=
    to_dstring IS_PY2 buffer (start + 336) 32 in
  let? abstract_file_identifier :=
    to_dstring IS_PY2 buffer (start + 368) 32 in
  let? root_directory_icb :=
    ok (LongAllocationDescriptor.__init__ buffer (start + 400)) in
  let? domain_identifier :=
    ok (EntityID.__init__ EntityIdType.DomainIdentifier buffer
                          (start + 416)) in
  let? next_extent :=
    ok (LongAllocationDescriptor.__init__ buffer (start + 448)) in
  let? system_stream_directory_icb :=
    ok (LongAllocationDescriptor.__init__ buffer (start + 464)) in
  let reserved := slice buffer (start + 480) (start + 512) in
  let? _ := ok (BaseTag._assert_reserve_space buffer (start + 480) 32) in
  Some (inr (Make descriptor_tag recording_date_and_time interchange_level
                  maximum_interchange_level character_set_list
                  maximum_character_set_list file_set_number
                  file_set_descriptor_number
                  logical_volume_identifier_character_set
                  logical_volume_identifier file_set_character_set
                  file_set_identifier copyright_file_identifier
                  abstract_file_identifier root_directory_icb
                  domain_identifier next_extent
                  system_stream_directory_icb reserved)).

End FileSetDescriptor.

(** *** read_udf_file *)

(** [range(lo, hi)]. *)
Definition range_from (lo hi : Z) : list Z :=
  map (fun i => lo + Z.of_nat i) (seq 0 (Z.to_nat (hi - lo))).

(** The local variables of [read_udf_file] that the loop over the sectors
    assigns, and [context.physical_partitions]. [partition_descriptor] has
    no value before the loop: [None] is that name still unbound. *)
Record volume_state : Type := VolumeState {
  logical_volume_descriptor : option LogicalVolumeDescriptor.t;
  partition_descriptor : option PartitionDescriptor.t;
  terminating_descriptor : option TerminatingDescriptor.t;
  physical_partitions : gmap Z PhysicalPartition.t
}.

(** [UnboundLocalError], with the text it has up to Python 3.10. *)
Definition partition_descriptor_unbound : error :=
  UnboundLocalError
    "local variable 'partition_descriptor' referenced before assignment".

(** One turn of [for sector in range(pvd_sector, 257)]; the boolean is
    true when the turn ends in [break]. *)
Definition visit_sector (IS_PY2 : bool) (sector_size sector : Z)
    (st : volume_state) : Session.t (volume_state * bool) :=
  let& _ := Session.seek (sector * sector_size) in
  let& buffer := Session.read 16 in
  match DescriptorTag.__init__ buffer 0 with
  | inl _ => Session.ret (st, false)
  | inr tag =>
    let& _ := Session.seek (sector * sector_size) in
    let& buffer := Session.read 512 in
    let tag_identifier := DescriptorTag.tag_identifier tag in
    let& st :=
      if tag_identifier =? TagIdentifier.PrimaryVolumeDescriptor then
        let& desc :=
          Session.of_run (PrimaryVolumeDescriptor.__init__ IS_PY2 buffer 0) in
        Session.ret st
      else if tag_identifier =? TagIdentifier.AnchorVolumeDescriptorPointer
      then
        let& anchor :=
          Session.of_exn (AnchorVolumeDescriptorPointer.__init__ buffer 0) in
        Session.ret st
      else if tag_identifier =? TagIdentifier.VolumeDescriptorPointer then
        Session.ret st
      else if tag_identifier
              =? TagIdentifier.ImplementationUseVolumeDescriptor then
        Session.ret st
      else if tag_identifier =? TagIdentifier.PartitionDescriptor then
        let& partition_descriptor :=
          Session.of_exn (PartitionDescriptor.__init__ buffer 0) in
        let start :=
          PartitionDescriptor.partition_starting_location
            partition_descriptor * sector_size in
        let length :=
          PartitionDescriptor.partition_length partition_descriptor
          * sector_size in
        let physical_partition := PhysicalPartition.Make start length in
        Session.ret
          (VolumeState (logical_volume_descriptor st)
             (Some partition_descriptor) (terminating_descriptor st)
             (<[PartitionDescriptor.partition_number partition_descriptor
                := physical_partition]> (physical_partitions st)))
      else if tag_identifier =? TagIdentifier.LogicalVolumeDescriptor then
        let& logical_volume_descriptor :=
          Session.of_run (LogicalVolumeDescriptor.__init__ IS_PY2 buffer 0) in
        Session.ret
          (VolumeState (Some logical_volume_descriptor)
             (partition_descriptor st) (terminating_descriptor st)
             (physical_partitions st))
      else if tag_identifier =? TagIdentifier.UnallocatedSpaceDescriptor then
        Session.ret st
      else if tag_identifier =? TagIdentifier.TerminatingDescriptor then
        let& terminating_descriptor :=
          Session.of_exn (TerminatingDescriptor.__init__ buffer 0) in
        Session.ret
          (VolumeState (logical_volume_descriptor st)
             (partition_descriptor st) (Some terminating_descriptor)
             (physical_partitions st))
      else if tag_identifier
              =? TagIdentifier.LogicalVolumeIntegrityDescriptor then
        Session.ret st
      else if negb (tag_identifier =? 0) then
        Session.throw
          (Raised (NotImplementedError "Unexpected Descriptor Tag :{0}"))
      else Session.ret st in
    (* if logical_volume_descriptor and partition_descriptor
          and terminating_descriptor: break *)
    match logical_volume_descriptor st with
    | None => Session.ret (st, false)
    | Some lvd =>
      if negb (object_truth lvd) then Session.ret (st, false)
      else
        match partition_descriptor st with
        | None => Session.throw partition_descriptor_unbound
        | Some pd =>
          if negb (object_truth pd) then Session.ret (st, false)
          else
            match terminating_descriptor st with
            | None => Session.ret (st, false)
            | Some td => Session.ret (st, object_truth td)
            end
        end
    end
  end.

Fixpoint visit_sectors (IS_PY2 : bool) (sector_size : Z) (sectors : list Z)
    (st : volume_state) : Session.t volume_state :=
  match sectors with
  | [] => Session.ret st
  | sector :: rest =>
    let& turn := visit_sector IS_PY2 sector_size sector st in
    if snd turn then Session.ret (fst turn)
    else visit_sectors IS_PY2 sector_size rest (fst turn)
  end.

(** [LogicalPartition.from_descriptor] for the map at one index, which is
    a [Type1PartitionMap]: the [Type1Partition] of the physical partition
    with the number of the map. *)
Definition logical_partition_from_descriptor
    (physical_partitions : gmap Z PhysicalPartition.t)
    (volume_descriptor : LogicalVolumeDescriptor.t)
    (map : Type1PartitionMap.t) : error + LogicalPartition.t :=
  match physical_partitions !! Type1PartitionMap.partition_number map with
  | None => inl (KeyError "{0}")
  | Some physical_partition =>
    inr (LogicalPartition.Make
           physical_partition
           (LogicalVolumeDescriptor.logical_block_size volume_descriptor))
  end.

(** [read_udf_file] from the assignment of [pvd_sector] on. The property
    [partition_maps] builds the same list every time it is read, so it is
    read once here. *)
Definition read_volume (IS_PY2 : bool) (sector_size : Z)
    (avdp : AnchorVolumeDescriptorPointer.t)
  : Session.t (list FileIdentifierDescriptor.t) :=
  let pvd_sector :=
    ExtentDescriptor.extent_location
      (AnchorVolumeDescriptorPointer.main_volume_descriptor_sequence_extent
         avdp) in
  let& st :=
    visit_sectors IS_PY2 sector_size (range_from pvd_sector 257)
                 (VolumeState None None None ∅) in
  match logical_volume_descriptor st with
  | None =>
    Session.throw (Raised (Exception
      "File is missing a Logical Volume Descriptor sector."))
  | Some logical_volume_descriptor =>
    if negb (object_truth logical_volume_descriptor) then
      Session.throw (Raised (Exception
        "File is missing a Logical Volume Descriptor sector."))
    else
    match partition_descriptor st with
    | None => Session.throw partition_descriptor_unbound
    | Some partition_descriptor =>
      if negb (object_truth partition_descriptor) then
        Session.throw (Raised (Exception
          "File is missing a Partition Descriptor sector."))
      else
      match terminating_descriptor st with
      | None =>
        Session.throw (Raised (Exception
          "File is missing a Terminating Descriptor sector."))
      | Some terminating_descriptor =>
        if negb (object_truth terminating_descriptor) then
          Session.throw (Raised (Exception
            "File is missing a Terminating Descriptor sector."))
        else
        let& partition_maps :=
          Session.of_exn
            (LogicalVolumeDescriptor.partition_maps
               logical_volume_descriptor) in
        let& logical_partitions :=
          Session.of_error
            (for_each (logical_partition_from_descriptor
                         (physical_partitions st) logical_volume_descriptor)
                      partition_maps) in
        let& location :=
          Session.of_exn
            (LogicalVolumeDescriptor.file_set_descriptor_location
               logical_volume_descriptor) in
        let& fsd_buffer :=
          (fun f => Some (read_extent logical_partitions f location)) in
        match DescriptorTag.__init__ fsd_buffer 0 with
        | inl _ =>
          Session.throw (Raised (Exception
            "Failed to get Descriptor Tag from Partition Extent."))
        | inr tag =>
          let& file_set_descriptor :=
            Session.of_run (FileSetDescriptor.__init__ IS_PY2 fsd_buffer 0) in
          fun f =>
            from_descriptor IS_PY2 logical_partitions f
              (FileSetDescriptor.root_directory_icb file_set_descriptor)
        end
      end
    end
  end.

(** [read_udf_file]; [found] is the content of the file named
    [file_name], [None] when there is no such regular file. The result is
    [all_entries] of the root directory. *)
Definition read_udf_file (IS_PY2 : bool) (found : option bytes)
  : option (error + list FileIdentifierDescriptor.t) :=
  match found with
  | None => Some (inl (Raised (Exception "No such file '{0}'")))
  | Some data =>
    let file_size := getsize data in
    let file := open_rb data in
    option_map fst
      ((let& valid :=
          (fun f =>
             match is_valid_udf f file_size with
             | None => None
             | Some (r, f') => Some (lift r, f')
             end) in
        if negb valid then
          Session.throw (Raised (Exception "Is not a valid UDF file '{0}'"))
        else
          let& sector_size :=
            (fun f =>
               let (r, f') := get_sector_size f file_size in
               Some (lift r, f')) in
          if file_size <? 257 * sector_size then
            Session.throw (Raised (Exception
              "File is too small to hold all sectors '{0}'"))
          else
            let sector := 256 in
            let& _ := Session.seek (sector * sector_size) in
            let& buffer := Session.read 512 in
            let& tag :=
              Session.of_exn (DescriptorTag.__init__ (slice buffer 0 16) 0) in
            if negb (DescriptorTag.tag_identifier tag
                     =? TagIdentifier.AnchorVolumeDescriptorPointer)
            then
              Session.throw (Raised (Exception
                "The last sector was supposed to be an Archive Volume Descriptor, but was not."))
            else
              let& avdp :=
                Session.of_exn
                  (AnchorVolumeDescriptorPointer.__init__ buffer 0) in
              read_volume IS_PY2 sector_size avdp) file)
  end.

End ReadUdfExt.

(** ** Properties of the Python model *)

Module PyFacts.

Lemma ord_range (c : byte) : 0 <= ord c < 256.
Proof.
  unfold ord. pose proof (Byte.to_N_bounded c) as H.
  change 256 with (Z.of_N 256). lia.
Qed.

Lemma len_nonneg {A : Type} (l : list A) : 0 <= len l.
Proof. unfold len. lia. Qed.

Lemma len_app {A : Type} (l1 l2 : list A) : len (l1 ++ l2) = len l1 + len l2.
Proof. unfold len. rewrite length_app. lia. Qed.

(** Inside the sequence and with a non-negative start, [s[i:i+1]] is the
    one element at [i]; from the end on it is empty. *)
Lemma slice_one {A : Type} (s : list A) (i : Z) :
  0 <= i ->
  slice s i (i + 1) =
  match nth_error s (Z.to_nat i) with
  | Some x => [x]
  | None => []
  end.
Proof.
  intros Hi. unfold slice, clamp_index, len.
  destruct (Z.ltb_spec i 0); [lia|].
  destruct (Z.ltb_spec (i + 1) 0); [lia|].
  destruct (nth_error s (Z.to_nat i)) as [x|] eqn:Hn.
  - assert (Hlt : (Z.to_nat i < length s)%nat)
      by (apply nth_error_Some; congruence).
    replace (Z.min (i + 1) (Z.of_nat (length s))
             - Z.min i (Z.of_nat (length s))) with 1 by lia.
    replace (Z.min i (Z.of_nat (length s))) with i by lia.
    apply nth_error_split in Hn as (l1 & l2 & -> & Hl).
    rewrite <- Hl, skipn_app, skipn_all, Nat.sub_diag. reflexivity.
  - apply nth_error_None in Hn.
    replace (Z.to_nat (Z.min i (Z.of_nat (length s)))) with (length s) by lia.
    rewrite skipn_all. now rewrite firstn_nil.
Qed.

Lemma bytes_in_true (x : bytes) (l : list bytes) :
  bytes_in x l = true <-> In x l.
Proof.
  unfold bytes_in. rewrite existsb_exists. split.
  - intros (y & Hy & Hd). apply bool_decide_eq_true in Hd. now subst.
  - intros H. exists x. split; [exact H|]. now apply bool_decide_eq_true.
Qed.

End PyFacts.

(** ** Properties of read_udf.py *)

Module ReadUdfFacts.
Import ReadUdf PyFacts.

(** Undo one [let!] in a hypothesis that says a computation returned:
    the bound computation returned too, which [E] records. *)
Tactic Notation "bind_inv" hyp(H) "as" ident(E) :=
  match type of H with
  | bind ?m _ = inr _ =>
    destruct m eqn:E; [discriminate H|]; cbn [bind] in H
  end.

Tactic Notation "bind_inv" hyp(H) :=
  let E := fresh "E" in bind_inv H as E.

Lemma to_uint8_spec (buffer : bytes) (start : Z) :
  0 <= start ->
  to_uint8 buffer start =
  match nth_error buffer (Z.to_nat start) with
  | Some c => inr (ord c)
  | None => raise (struct_error "unpack requires a buffer of 1 bytes")
  end.
Proof.
  intros H. unfold to_uint8. rewrite slice_one by exact H.
  destruct (nth_error buffer (Z.to_nat start)); reflexivity.
Qed.

(** The byte of the header that starts at [start], [i] bytes in. *)
Definition header_byte (buffer : bytes) (start i : Z) : Z :=
  ord (nth (Z.to_nat (start + i)) buffer x00).

Lemma to_uint8_inv (buffer : bytes) (start i v : Z) :
  0 <= start -> 0 <= i ->
  to_uint8 buffer (start + i) = inr v ->
  start + i < len buffer /\ v = header_byte buffer start i.
Proof.
  intros Hs Hi. rewrite to_uint8_spec by lia. unfold header_byte.
  destruct (nth_error buffer (Z.to_nat (start + i))) as [c|] eqn:Hn;
    [|discriminate].
  intros [= <-]. split.
  - assert ((Z.to_nat (start + i) < length buffer)%nat)
      by (apply nth_error_Some; congruence).
    unfold len. lia.
  - now rewrite (nth_error_nth _ _ _ Hn).
Qed.

(** [sum(bytes 0..15, excluding byte 4)] of the header at [start]. *)
Definition header_sum (buffer : bytes) (start : Z) : Z :=
  fold_right Z.add 0
    (map (header_byte buffer start)
         [0; 1; 2; 3; 5; 6; 7; 8; 9; 10; 11; 12; 13; 14; 15]).

(** The stored checksum is right for the header at [start]. *)
Definition checksum_holds (buffer : bytes) (start : Z) : Prop :=
  header_sum buffer start mod 256 = header_byte buffer start 4.

Lemma header_byte_range (buffer : bytes) (start i : Z) :
  0 <= header_byte buffer start i < 256.
Proof. apply ord_range. Qed.

Lemma sum_header_inv (buffer : bytes) (start : Z) (indices : list Z) :
  0 <= start -> Forall (fun i => 0 <= i) indices ->
  forall acc s,
    BaseTag.sum_header indices buffer start acc = inr s ->
    s = acc + fold_right Z.add 0
                (map (header_byte buffer start)
                     (List.filter (fun i => negb (i =? 4)) indices)).
Proof.
  intros Hs Hall. induction Hall as [|i rest Hi _ IH]; intros acc s H.
  - cbn in H |- *. injection H as <-. lia.
  - cbn [BaseTag.sum_header] in H. cbn [List.filter].
    destruct (i =? 4); cbn [negb]; [now apply IH|].
    bind_inv H. apply to_uint8_inv in E as [_ ->]; try assumption.
    apply IH in H. cbn [map fold_right]. lia.
Qed.

Lemma truncate_uint8_mod (n : nat) :
  forall checksum, 0 <= checksum -> checksum / 256 = Z.of_nat n ->
    BaseTag.truncate_uint8 n checksum = checksum mod 256.
Proof.
  induction n as [|n IH]; intros c Hc Hq; cbn [BaseTag.truncate_uint8].
  - symmetry. apply Z.mod_small. split; [exact Hc|].
    apply Z.div_small_iff in Hq; lia.
  - pose proof (Z.div_mod c 256 ltac:(lia)) as Hdm.
    pose proof (Z.mod_pos_bound c 256 ltac:(lia)) as Hb.
    destruct (Z.geb_spec c 256); [|lia].
    rewrite IH.
    + replace c with (c - 256 + 1 * 256) at 2 by lia.
      now rewrite Z.mod_add by lia.
    + lia.
    + replace c with (c - 256 + 1 * 256) in Hq by lia.
      rewrite Z.div_add in Hq by lia. lia.
Qed.

Lemma header_sum_nonneg (buffer : bytes) (start : Z) :
  0 <= header_sum buffer start.
Proof.
  unfold header_sum. cbn [map fold_right].
  repeat match goal with
  | |- context [header_byte buffer start ?i] =>
    lazymatch goal with
    | _ : 0 <= header_byte buffer start i < 256 |- _ => fail
    | _ => pose proof (header_byte_range buffer start i)
    end
  end.
  lia.
Qed.

Lemma range16_nonneg : Forall (fun i => 0 <= i) (range 16).
Proof. unfold range. cbn [seq map]. repeat constructor; lia. Qed.

Lemma header_sum_unfold (buffer : bytes) (start : Z) :
  0 + fold_right Z.add 0
        (map (header_byte buffer start)
             (List.filter (fun i => negb (i =? 4)) (range 16)))
  = header_sum buffer start.
Proof. reflexivity. Qed.

Lemma sum_header_16 (buffer : bytes) (start s : Z) :
  0 <= start ->
  BaseTag.sum_header (range 16) buffer start 0 = inr s ->
  s = header_sum buffer start.
Proof.
  intros Hs H.
  apply sum_header_inv in H; [|exact Hs|exact range16_nonneg].
  rewrite H. apply header_sum_unfold.
Qed.

Lemma assert_checksum_inv (buffer : bytes) (start expected : Z) :
  0 <= start ->
  BaseTag._assert_checksum buffer start expected = inr tt ->
  header_sum buffer start mod 256 = expected.
Proof.
  intros Hs H. unfold BaseTag._assert_checksum in H. bind_inv H.
  apply sum_header_16 in E; [|exact Hs]. subst z.
  rewrite truncate_uint8_mod in H.
  - destruct (Z.eqb_spec (header_sum buffer start mod 256) expected);
      [assumption|discriminate].
  - apply header_sum_nonneg.
  - rewrite Z2Nat.id; [reflexivity|].
    apply Z.div_pos; [apply header_sum_nonneg|lia].
Qed.

Lemma assert_size_inv (size : Z) (buffer : bytes) (start : Z) :
  size <> 0 ->
  BaseTag._assert_size size buffer start = inr tt ->
  start + size <= len buffer.
Proof.
  intros Hz. unfold BaseTag._assert_size.
  destruct (Z.eqb_spec size 0); [contradiction|].
  destruct (Z.ltb_spec (len buffer - start) size); [discriminate|lia].
Qed.

(** What a constructed tag says about the bytes it was read from. *)
Lemma descriptor_tag_inv (buffer : bytes) (start : Z) (tag : DescriptorTag.t) :
  0 <= start ->
  DescriptorTag.__init__ buffer start = inr tag ->
  start + 16 <= len buffer
  /\ DescriptorTag.tag_check_sum tag = header_byte buffer start 4
  /\ DescriptorTag.tag_identifier tag <> TagIdentifier.unknown
  /\ checksum_holds buffer start.
Proof.
  intros Hs H. unfold DescriptorTag.__init__ in H.
  bind_inv H as Hsize.
  match type of Hsize with _ = inr ?u => destruct u end.
  apply assert_size_inv in Hsize; [|lia].
  bind_inv H as Hid. bind_inv H as Hver. bind_inv H as Hcs.
  apply to_uint8_inv in Hcs as [_ Hcs]; [|lia..].
  do 5 bind_inv H.
  match type of H with
  | (if ?c then _ else _) = _ => destruct c eqn:Hunknown; [discriminate|]
  end.
  bind_inv H as Hsum.
  match type of Hsum with _ = inr ?u => destruct u end.
  apply assert_checksum_inv in Hsum; [|exact Hs].
  bind_inv H as Hres. injection H as <-. cbn.
  unfold checksum_holds. apply Z.eqb_neq in Hunknown.
  repeat split; congruence.
Qed.

(** C7: every [DescriptorTag] that is constructed passes the tag
    checksum: the sum of bytes 0..15 of its header without byte 4, modulo
    256, is the stored [tag_check_sum] (byte 4); when that equation fails
    the constructor raises. Every descriptor class with a tag builds its
    [DescriptorTag] first ([tagged_header]), so the same holds for each of
    them, here for the common header and for the anchor pointer. *)
Theorem descriptor_tag_checksum (buffer : bytes) (start : Z) :
  0 <= start ->
  (forall tag, DescriptorTag.__init__ buffer start = inr tag ->
     start + 16 <= len buffer
     /\ DescriptorTag.tag_check_sum tag = header_byte buffer start 4
     /\ header_sum buffer start mod 256 = DescriptorTag.tag_check_sum tag)
  /\ (header_sum buffer start mod 256 <> header_byte buffer start 4 ->
      exists e, DescriptorTag.__init__ buffer start = inl e)
  /\ (forall size expected tag,
        tagged_header size expected buffer start = inr tag ->
        header_sum buffer start mod 256 = DescriptorTag.tag_check_sum tag)
  /\ (forall avdp,
        AnchorVolumeDescriptorPointer.__init__ buffer start = inr avdp ->
        header_sum buffer start mod 256 =
        DescriptorTag.tag_check_sum
          (AnchorVolumeDescriptorPointer.descriptor_tag avdp)).
Proof.
  intros Hs.
  assert (Htag : forall tag, DescriptorTag.__init__ buffer start = inr tag ->
            start + 16 <= len buffer
            /\ DescriptorTag.tag_check_sum tag = header_byte buffer start 4
            /\ header_sum buffer start mod 256
               = DescriptorTag.tag_check_sum tag).
  { intros tag H.
    destruct (descriptor_tag_inv buffer start tag Hs H) as (Hl & Hc & _ & Hk).
    unfold checksum_holds in Hk. repeat split; congruence. }
  assert (Hhdr : forall size expected tag,
            tagged_header size expected buffer start = inr tag ->
            header_sum buffer start mod 256
            = DescriptorTag.tag_check_sum tag).
  { intros size expected tag H. unfold tagged_header in H.
    bind_inv H as Hsize. bind_inv H as Hd. bind_inv H as Hi.
    injection H as <-. now apply Htag. }
  split; [exact Htag|]. split; [|split; [exact Hhdr|]].
  - intros Hne. destruct (DescriptorTag.__init__ buffer start) as [e|tag] eqn:H.
    + now exists e.
    + destruct (Htag tag eq_refl) as (_ & Hc & Hk). congruence.
  - intros avdp H. unfold AnchorVolumeDescriptorPointer.__init__ in H.
    bind_inv H as Hd. apply Hhdr in Hd. do 3 bind_inv H.
    injection H as <-. exact Hd.
Qed.

(** A well-formed anchor tag: identifier 2, version 2, checksum 5,
    location 256. *)
Definition sample_tag : bytes :=
  [x02; x00; x02; x00; x05; x00; x00; x00;
   x00; x00; x00; x00; x00; x01; x00; x00].

Lemma descriptor_tag_checksum_witness :
  exists tag, DescriptorTag.__init__ sample_tag 0 = inr tag
              /\ header_sum sample_tag 0 mod 256
                 = DescriptorTag.tag_check_sum tag.
Proof.
  eexists. split; [reflexivity|].
  apply (descriptor_tag_checksum sample_tag 0); [lia|reflexivity].
Defined.

(** *** get_sector_size *)

(** The 16 bytes that [file.seek(256 * size); file.read(16)] gives. *)
Definition tag_bytes_at (data : bytes) (size : Z) : bytes :=
  firstn 16 (skipn (Z.to_nat (256 * size)) data).

(** The four conditions on one candidate size, as the specification words
    them. *)
Definition qualifies (data : bytes) (file_size size : Z) : bool :=
  (257 * size <=? file_size)
  && match DescriptorTag.__init__ (tag_bytes_at data size) 0 with
     | inr tag =>
       (DescriptorTag.tag_location tag =? 256)
       && (DescriptorTag.tag_identifier tag
           =? TagIdentifier.AnchorVolumeDescriptorPointer)
     | inl _ => false
     end.

Lemma read_data (f : file) (n : Z) : f_data (snd (read f n)) = f_data f.
Proof. reflexivity. Qed.

Lemma probe_sizes_find (file_size : Z) (sizes : list Z) :
  forall f,
    fst (probe_sizes sizes f file_size) =
    match find (qualifies (f_data f) file_size) sizes with
    | Some size => inr size
    | None => raise (Exception "Could not get file sector size.")
    end
    /\ f_data (snd (probe_sizes sizes f file_size)) = f_data f.
Proof.
  induction sizes as [|size rest IH]; intros f; [split; reflexivity|].
  cbn [probe_sizes find]. unfold qualifies at 1.
  destruct (Z.ltb_spec file_size (257 * size)) as [Hlt|Hge].
  - destruct (Z.leb_spec (257 * size) file_size); [lia|]. cbn [andb].
    apply IH.
  - destruct (Z.leb_spec (257 * size) file_size); [|lia]. cbn [andb].
    unfold read, seek. cbn [f_data f_pos].
    destruct (Z.ltb_spec 16 0); [lia|].
    change (Z.to_nat 16) with 16%nat.
    fold (tag_bytes_at (f_data f) size).
    set (f' := File (f_data f) _).
    destruct (DescriptorTag.__init__ (tag_bytes_at (f_data f) size) 0)
      as [e|tag]; [apply (IH f')|].
    destruct (DescriptorTag.tag_location tag =? 256); cbn [negb andb];
      [|apply (IH f')].
    destruct (DescriptorTag.tag_identifier tag
              =? TagIdentifier.AnchorVolumeDescriptorPointer);
      cbn [negb]; [split; reflexivity|apply (IH f')].
Qed.

(** C5: [get_sector_size] tries 4096, 2048, 1024, 512 in that order and
    returns the first size that qualifies (the file holds 257 sectors, the
    16 bytes at [256 * size] parse as a Descriptor Tag, its [tag_location]
    is 256 and its identifier is AnchorVolumeDescriptorPointer); when none
    qualifies it raises. *)
Theorem get_sector_size_first_qualifying (f : file) (file_size : Z) :
  fst (get_sector_size f file_size) =
  if qualifies (f_data f) file_size 4096 then inr 4096
  else if qualifies (f_data f) file_size 2048 then inr 2048
  else if qualifies (f_data f) file_size 1024 then inr 1024
  else if qualifies (f_data f) file_size 512 then inr 512
  else raise (Exception "Could not get file sector size.").
Proof.
  unfold get_sector_size.
  rewrite (proj1 (probe_sizes_find file_size [4096; 2048; 1024; 512] f)).
  cbn [find].
  repeat match goal with
  | |- context [qualifies ?d ?s ?z] => destruct (qualifies d s z)
  end; reflexivity.
Qed.

(** *** is_valid_udf *)

(** The sector read at byte position [p], and its bytes 1..5. *)
Definition sector_at (data : bytes) (p : Z) : bytes :=
  firstn (Z.to_nat SECTOR_SIZE) (skipn (Z.to_nat p) data).

Definition standard_identifier (sector : bytes) : bytes := slice sector 1 6.

Definition is_bea (id : bytes) : bool := bytes_in id [b "BEA01"].
Definition is_nsr (id : bytes) : bool := bytes_in id [b "NSR02"; b "NSR03"].
Definition is_tea (id : bytes) : bool := bytes_in id [b "TEA01"].
Definition is_ignored (id : bytes) : bool :=
  bytes_in id [b "BOOT2"; b "CD001"; b "CDW02"].

(** A sector that keeps the scan going: whole, with one of the seven
    identifiers. *)
Definition scannable (sector : bytes) : Prop :=
  len sector = SECTOR_SIZE
  /\ (let id := standard_identifier sector in
      is_bea id || is_nsr id || is_tea id || is_ignored id) = true.

Lemma to_uint8_whole (buffer : bytes) (i : Z) :
  0 <= i < len buffer -> exists v, to_uint8 buffer i = inr v.
Proof.
  intros [Hi Hl]. rewrite to_uint8_spec by exact Hi.
  destruct (nth_error buffer (Z.to_nat i)) as [c|] eqn:Hn; [eauto|].
  apply nth_error_None in Hn. unfold len in Hl. lia.
Qed.

Lemma read_sector (data : bytes) (p : Z) :
  read (File data p) SECTOR_SIZE
  = (sector_at data p, File data (p + len (sector_at data p))).
Proof. reflexivity. Qed.

(** One turn of the loop on a whole sector. *)
Lemma scan_recognition_step (fuel : nat) (data : bytes) (p : Z)
    (a v t : bool) :
  len (sector_at data p) = SECTOR_SIZE ->
  scan_recognition (S fuel) (File data p) a v t =
  let id := standard_identifier (sector_at data p) in
  if is_bea id || is_nsr id || is_tea id || is_ignored id then
    scan_recognition fuel (File data (p + SECTOR_SIZE))
                     (a || is_bea id) (v || is_nsr id) (t || is_tea id)
  else Some (inr (a, v, t), File data (p + SECTOR_SIZE)).
Proof.
  intros Hw. cbn [scan_recognition]. rewrite read_sector.
  rewrite Hw, Z.ltb_irrefl.
  destruct (to_uint8_whole (sector_at data p) 0) as [x0 ->];
    [rewrite Hw; unfold SECTOR_SIZE; lia|].
  destruct (to_uint8_whole (sector_at data p) 6) as [x6 ->];
    [rewrite Hw; unfold SECTOR_SIZE; lia|].
  unfold standard_identifier.
  generalize (slice (sector_at data p) 1 6). intros id.
  cbv zeta. 
   change (bytes_in id [b "BEA01"]) with (is_bea id).
   change (bytes_in id [b "NSR02"; b "NSR03"]) with (is_nsr id).
   change (bytes_in id [b "TEA01"]) with (is_tea id).
   change (bytes_in id [b "BOOT2"; b "CD001"; b "CDW02"]) with (is_ignored id).
  destruct (is_bea id) eqn:Hbea.
  { apply bytes_in_true in Hbea as [<-|[]].
    change (is_nsr (b "BEA01")) with false.
    change (is_tea (b "BEA01")) with false.
    now rewrite ?orb_true_r, ?orb_false_r, ?orb_true_l. }
  destruct (is_nsr id) eqn:Hnsr.
  { apply bytes_in_true in Hnsr as [<-|[<-|[]]].
    - change (is_tea (b "NSR02")) with false.
      now rewrite ?orb_true_r, ?orb_false_r, ?orb_false_l.
    - change (is_tea (b "NSR03")) with false.
      now rewrite ?orb_true_r, ?orb_false_r, ?orb_false_l. }
  destruct (is_tea id) eqn:Htea.
  { now rewrite ?orb_true_r, ?orb_false_r, ?orb_false_l. }
  destruct (is_ignored id); now rewrite ?orb_false_r.
Qed.

Lemma sector_at_whole (data : bytes) (p : Z) :
  0 <= p -> len (sector_at data p) = SECTOR_SIZE ->
  (Z.to_nat SECTOR_SIZE <= length data - Z.to_nat p)%nat.
Proof.
  unfold sector_at, len. rewrite length_firstn, length_skipn.
  unfold SECTOR_SIZE. lia.
Qed.

(** The loop from position [p] on: it stops after some number [n] of
    scannable sectors, at the first sector that is not, with the flags set
    for the identifiers seen in those [n]. *)
Lemma scan_recognition_spec (data : bytes) (fuel : nat) :
  forall p a v t,
    0 <= p -> (length data - Z.to_nat p < fuel)%nat ->
    exists (n : nat) a' v' t' f',
      scan_recognition fuel (File data p) a v t
      = Some (inr (a', v', t'), f')
      /\ (forall k, (k < n)%nat ->
            scannable (sector_at data (p + SECTOR_SIZE * Z.of_nat k)))
      /\ ~ scannable (sector_at data (p + SECTOR_SIZE * Z.of_nat n))
      /\ (a' = true <-> a = true \/ exists k, (k < n)%nat /\
            is_bea (standard_identifier
                      (sector_at data (p + SECTOR_SIZE * Z.of_nat k))) = true)
      /\ (v' = true <-> v = true \/ exists k, (k < n)%nat /\
            is_nsr (standard_identifier
                      (sector_at data (p + SECTOR_SIZE * Z.of_nat k))) = true)
      /\ (t' = true <-> t = true \/ exists k, (k < n)%nat /\
            is_tea (standard_identifier
                      (sector_at data (p + SECTOR_SIZE * Z.of_nat k))) = true).
Proof.
  induction fuel as [|fuel IH]; intros p a v t Hp Hfuel; [lia|].
  destruct (Z.eq_dec (len (sector_at data p)) SECTOR_SIZE) as [Hw|Hw].
  - rewrite scan_recognition_step by exact Hw. cbv zeta.
    pose proof (sector_at_whole data p Hp Hw) as Hroom.
    set (id := standard_identifier (sector_at data p)).
    destruct (is_bea id || is_nsr id || is_tea id || is_ignored id) eqn:Hk.
    + destruct (IH (p + SECTOR_SIZE) (a || is_bea id) (v || is_nsr id)
                   (t || is_tea id))
        as (n & a' & v' & t' & f' & Hrun & Hall & Hstop & Ha & Hv & Ht).
      { unfold SECTOR_SIZE. lia. }
      { unfold SECTOR_SIZE in *. lia. }
      assert (Hshift : forall k, p + SECTOR_SIZE + SECTOR_SIZE * Z.of_nat k
                                 = p + SECTOR_SIZE * Z.of_nat (S k))
        by (intros; lia).
      assert (Hflag : forall (x x' : bool) (is_x : bytes -> bool),
        (x' = true <-> (x || is_x id) = true \/ exists k, (k < n)%nat /\
           is_x (standard_identifier
                   (sector_at data (p + SECTOR_SIZE + SECTOR_SIZE * Z.of_nat k)))
           = true) ->
        (x' = true <-> x = true \/ exists k, (k < S n)%nat /\
           is_x (standard_identifier
                   (sector_at data (p + SECTOR_SIZE * Z.of_nat k))) = true)).
      { intros x x' is_x Hx. rewrite Hx, orb_true_iff. split.
        - intros [[Hx0|Hid]|(k & Hlt & Hk')].
          + now left.
          + right. exists 0%nat. split; [lia|].
            now rewrite Z.mul_0_r, Z.add_0_r.
          + right. exists (S k). split; [lia|]. now rewrite <- Hshift.
        - intros [Hx0|(k & Hlt & Hk')]; [now left; left|].
          destruct k as [|k].
          + left; right. now rewrite Z.mul_0_r, Z.add_0_r in Hk'.
          + right. exists k. split; [lia|]. now rewrite Hshift. }
      exists (S n), a', v', t', f'. split; [exact Hrun|].
      split; [|split; [now rewrite <- Hshift|]].
      * intros [|k] Hlt.
        -- rewrite Z.mul_0_r, Z.add_0_r. split; assumption.
        -- rewrite <- Hshift. apply Hall. lia.
      * split; [|split]; apply Hflag; assumption.
    + exists 0%nat, a, v, t, (File data (p + SECTOR_SIZE)).
      split; [reflexivity|]. split; [intros k Hlt; lia|].
      rewrite Z.mul_0_r, Z.add_0_r.
      split; [intros [_ Hgood]; fold id in Hgood; cbv zeta in Hgood; congruence|].
      repeat split; try (intros; now left);
        intros [H|(k & Hlt & _)]; try assumption; lia.
  - exists 0%nat, a, v, t, (File data (p + len (sector_at data p))).
    split.
    { cbn [scan_recognition]. rewrite read_sector.
      destruct (Z.ltb_spec (len (sector_at data p)) SECTOR_SIZE);
        [reflexivity|].
      exfalso. apply Hw. unfold sector_at, len in *.
      rewrite length_firstn in *. unfold SECTOR_SIZE in *. lia. }
    split; [intros k Hlt; lia|].
    rewrite Z.mul_0_r, Z.add_0_r.
    split; [intros [Hlen _]; contradiction|].
    repeat split; try (intros; now left);
      intros [H|(k & Hlt & _)]; try assumption; lia.
Qed.

(** The volume recognition sequence as the specification words it: some
    number [n] of sectors from 32 KiB on are all whole and carry one of the
    seven identifiers, and among them are a BEA01, an NSR02 or NSR03, and a
    TEA01. *)
Definition recognition_sequence (data : bytes) : Prop :=
  let id k :=
    standard_identifier
      (sector_at data (HEADER_SIZE + SECTOR_SIZE * Z.of_nat k)) in
  exists n : nat,
    (forall k, (k < n)%nat ->
       len (sector_at data (HEADER_SIZE + SECTOR_SIZE * Z.of_nat k))
       = SECTOR_SIZE
       /\ In (id k) [b "BEA01"; b "NSR02"; b "NSR03"; b "TEA01";
                     b "BOOT2"; b "CD001"; b "CDW02"])
    /\ (exists i, (i < n)%nat /\ id i = b "BEA01")
    /\ (exists j, (j < n)%nat /\ (id j = b "NSR02" \/ id j = b "NSR03"))
    /\ (exists k, (k < n)%nat /\ id k = b "TEA01").

Lemma scannable_iff (sector : bytes) :
  scannable sector <->
  len sector = SECTOR_SIZE
  /\ In (standard_identifier sector)
        [b "BEA01"; b "NSR02"; b "NSR03"; b "TEA01";
         b "BOOT2"; b "CD001"; b "CDW02"].
Proof.
  unfold scannable, is_bea, is_nsr, is_tea, is_ignored. cbv zeta.
  rewrite !orb_true_iff, !bytes_in_true. cbn [In]. tauto.
Qed.

Lemma is_valid_udf_unfold (f : file) (file_size : Z) :
  is_valid_udf f file_size =
  if file_size <? HEADER_SIZE + SECTOR_SIZE then Some (inr false, File (f_data f) 0)
  else
    match scan_recognition (S (List.length (f_data f))) (File (f_data f) HEADER_SIZE)
                           false false false with
    | None => None
    | Some (inl e, file) => Some (inl e, file)
    | Some (inr (has_bea, has_vsd, has_tea), file) =>
      Some (inr (has_bea && has_vsd && has_tea), file)
    end.
Proof. reflexivity. Qed.


Lemma is_bea_true (id : bytes) : is_bea id = true <-> id = b "BEA01".
Proof. unfold is_bea. rewrite bytes_in_true. cbn [In]. intuition congruence. Qed.
Lemma is_nsr_true (id : bytes) :
  is_nsr id = true <-> id = b "NSR02" \/ id = b "NSR03".
Proof. unfold is_nsr. rewrite bytes_in_true. cbn [In]. intuition congruence. Qed.
Lemma is_tea_true (id : bytes) : is_tea id = true <-> id = b "TEA01".
Proof. unfold is_tea. rewrite bytes_in_true. cbn [In]. intuition congruence. Qed.

Lemma flags_iff (data : bytes) (n : nat) (a v t : bool) :
  (forall k, (k < n)%nat ->
     scannable (sector_at data (HEADER_SIZE + SECTOR_SIZE * Z.of_nat k))) ->
  ~ scannable (sector_at data (HEADER_SIZE + SECTOR_SIZE * Z.of_nat n)) ->
  (a = true <-> false = true \/ exists k, (k < n)%nat /\
     is_bea (standard_identifier
               (sector_at data (HEADER_SIZE + SECTOR_SIZE * Z.of_nat k))) = true) ->
  (v = true <-> false = true \/ exists k, (k < n)%nat /\
     is_nsr (standard_identifier
               (sector_at data (HEADER_SIZE + SECTOR_SIZE * Z.of_nat k))) = true) ->
  (t = true <-> false = true \/ exists k, (k < n)%nat /\
     is_tea (standard_identifier
               (sector_at data (HEADER_SIZE + SECTOR_SIZE * Z.of_nat k))) = true) ->
  (a && v && t = true <-> recognition_sequence data).
Proof.
  intros Hall Hstop Ha Hv Ht.
  rewrite !andb_true_iff, Ha, Hv, Ht. unfold recognition_sequence. split.
  - intros [[[?|(i & Hi & Hbea)] [?|(j & Hj & Hnsr)]] [?|(k & Hk & Htea)]];
      try discriminate.
    exists n. split; [|split; [|split]].
    + intros m Hm. now apply scannable_iff, Hall.
    + exists i. split; [exact Hi|]. now apply is_bea_true.
    + exists j. split; [exact Hj|]. now apply is_nsr_true.
    + exists k. split; [exact Hk|]. now apply is_tea_true.
  - intros (m & Hgood & (i & Hi & Hbea) & (j & Hj & Hnsr)
              & (k & Hk & Htea)).
    assert (Hmn : (m <= n)%nat).
    { destruct (Nat.le_gt_cases m n) as [|Hlt]; [assumption|].
      exfalso. apply Hstop. now apply scannable_iff, Hgood. }
    split; [split|]; right.
    + exists i. split; [lia|]. now apply is_bea_true.
    + exists j. split; [lia|]. now apply is_nsr_true.
    + exists k. split; [lia|]. now apply is_tea_true.
Qed.

(** C6: [is_valid_udf] returns, never raises, and its answer is [True]
    exactly when the file size is at least 32 KiB plus one sector and,
    reading 2048-byte sectors from 32 KiB on, a BEA01, an NSR02 or NSR03 and
    a TEA01 sector all come before the first sector that is cut short or
    carries none of the seven identifiers. *)
Theorem is_valid_udf_spec (f : file) (file_size : Z) :
  exists (answer : bool) (f' : file),
    is_valid_udf f file_size = Some (inr answer, f')
    /\ (answer = true <->
        HEADER_SIZE + SECTOR_SIZE <= file_size
        /\ recognition_sequence (f_data f)).
Proof.
  rewrite is_valid_udf_unfold.
  destruct (Z.ltb_spec file_size (HEADER_SIZE + SECTOR_SIZE)) as [Hsmall|Hbig].
  { exists false, (File (f_data f) 0). split; [reflexivity|].
    split; [discriminate|]. intros [Hle _]. lia. }
  destruct (scan_recognition_spec (f_data f) (S (length (f_data f)))
              HEADER_SIZE false false false)
    as (n & a & v & t & f' & Hrun & Hall & Hstop & Ha & Hv & Ht).
  { unfold HEADER_SIZE. lia. }
  { generalize (Z.to_nat HEADER_SIZE). intros m. lia. }
  rewrite Hrun. exists (a && v && t), f'. split; [reflexivity|].
  rewrite (flags_iff (f_data f) n a v t Hall Hstop Ha Hv Ht). tauto.
Qed.

(** *** FileContentBuffer *)

Lemma slice_assign_nil {A : Type} (lo hi : Z) (x : list A) :
  FileContentBuffer.slice_assign [] lo hi x = x.
Proof.
  unfold FileContentBuffer.slice_assign.
  rewrite firstn_nil, skipn_nil. apply app_nil_r.
Qed.

Lemma slice_inside {A : Type} (s : list A) (lo n : Z) :
  0 <= lo -> 0 <= n -> lo + n <= len s ->
  slice s lo (lo + n) = firstn (Z.to_nat n) (skipn (Z.to_nat lo) s).
Proof.
  intros Hlo Hn Hle. unfold slice, clamp_index.
  destruct (Z.ltb_spec lo 0); [lia|].
  destruct (Z.ltb_spec (lo + n) 0); [lia|].
  rewrite !Z.min_l by lia. f_equal. lia.
Qed.

(** The loops of the content buffer return: the fuel their callers give
    them is never used up. *)
Lemma load_short_returns (active_buffer : bytes) (block_size : Z) :
  forall fuel file_pos i extents,
    0 <= i -> (length active_buffer - Z.to_nat i < fuel)%nat ->
    exists r,
      FileContentBuffer.load_short fuel active_buffer block_size
                                   file_pos i extents = Some r.
Proof.
  induction fuel as [|fuel IH]; intros file_pos i extents Hi Hfuel; [lia|].
  cbn [FileContentBuffer.load_short].
  destruct (Z.ltb_spec i (len active_buffer)) as [Hin|_]; [|eauto].
  destruct (ShortAllocationDescriptor.__init__ active_buffer i) as [e|sad];
    [eauto|].
  destruct (ShortAllocationDescriptor.extent_length sad =? 0); [eauto|].
  destruct (negb (ShortAllocationDescriptor.flags sad =? 0)); [eauto|].
  apply IH; unfold ShortAllocationDescriptor.size, len in *; lia.
Qed.

Lemma load_extents_returns (file_entry : FileEntry.t) (block_size : Z) :
  exists r, FileContentBuffer.load_extents file_entry block_size = Some r.
Proof.
  unfold FileContentBuffer.load_extents.
  destruct (_ =? AllocationType.short_descriptors).
  - apply load_short_returns; [lia|].
    change (Z.to_nat 0) with 0%nat. lia.
  - destruct (_ =? AllocationType.embedded); [eauto|].
    destruct (_ =? AllocationType.long_descriptors); eauto.
Qed.

Lemma read_loop_returns (self : FileContentBuffer.t) (pos total_to_read : Z) :
  forall fuel f total_read buffer,
    (Z.to_nat (total_to_read - total_read) < fuel)%nat ->
    exists r,
      FileContentBuffer.read_loop fuel self f pos total_to_read
                                  total_read buffer = Some r.
Proof.
  induction fuel as [|fuel IH]; intros f total_read buffer Hfuel; [lia|].
  cbn [FileContentBuffer.read_loop].
  destruct (Z.ltb_spec total_read total_to_read) as [Hmore|_]; [|eauto].
  destruct (FileContentBuffer.find_extent self (pos + total_read))
    as [extent|]; [|eauto].
  destruct (negb (CookedExtent.partition extent =? MAX_INT)); [eauto|].
  match goal with |- context [if ?c then _ else _] => destruct c end;
    [eauto|].
  destruct (read _ _) as [chunk f'].
  destruct (Z.eqb_spec (len chunk) 0) as [|Hread]; [eauto|].
  apply IH. pose proof (len_nonneg chunk). lia.
Qed.

Lemma read_returns (self : FileContentBuffer.t) (f : file)
    (pos offset count : Z) :
  exists r, FileContentBuffer.read self f pos offset count = Some r.
Proof.
  unfold FileContentBuffer.read, FileContentBuffer.read_from_extents.
  destruct (_ =? AllocationType.embedded).
  - destruct (_ >? _); eauto.
  - apply read_loop_returns. rewrite Z.sub_0_r. lia.
Qed.

Definition sample_partition : LogicalPartition.t :=
  LogicalPartition.Make (PhysicalPartition.Make 0 4096) 2048.

(** A file entry of a directory (file type 4) with four bytes of inline
    content. *)
Definition embedded_entry : FileEntry.t :=
  FileEntry.Make (ICBTag.Make 4 AllocationType.embedded 0) 4 (b "root").

(** C3, as stated, fails: for this embedded file entry the construction of
    the File Content Buffer does not succeed. *)
Lemma embedded_buffer_not_built :
  ~ exists self,
      FileContentBuffer.__init__ sample_partition embedded_entry 2048
      = Some (inr self).
Proof. intros [self H]. discriminate H. Qed.

(** C3, amended: for an embedded file entry the constructor raises
    [NotImplementedError], so no buffer is built through it; the embedded
    branch of [read], on a buffer object that holds such an entry, returns
    the [min(n, length - pos)] bytes of the allocation-descriptor region
    that start at [pos]. *)
Theorem embedded_buffer_unsupported (partition : LogicalPartition.t)
    (file_entry : FileEntry.t) (block_size : Z) :
  ICBTag.allocation_type (FileEntry.icb_tag file_entry)
  = AllocationType.embedded ->
  FileContentBuffer.__init__ partition file_entry block_size
  = Some (raise (NotImplementedError EmptyString))
  /\ forall extents f pos offset n,
       0 <= pos <= len (FileEntry.allocation_descriptors file_entry) ->
       0 <= n ->
       FileContentBuffer.read
         (FileContentBuffer.Make partition file_entry block_size extents)
         f pos offset n
       = Some (inr (firstn
                      (Z.to_nat
                         (Z.min n
                            (len (FileEntry.allocation_descriptors file_entry)
                             - pos)))
                      (skipn (Z.to_nat pos)
                             (FileEntry.allocation_descriptors file_entry))),
               f).
Proof.
  intros Hemb. split.
  - unfold FileContentBuffer.__init__, FileContentBuffer.load_extents.
    rewrite Hemb. reflexivity.
  - intros extents f pos offset n Hpos Hn.
    unfold FileContentBuffer.read. cbn [FileContentBuffer.file_entry].
    rewrite Hemb, Z.eqb_refl.
    destruct (Z.gtb_spec pos
                (len (FileEntry.allocation_descriptors file_entry)));
      [lia|].
    rewrite slice_assign_nil, slice_inside by lia.
    now rewrite Z.min_comm.
Qed.

Lemma embedded_buffer_unsupported_witness :
  FileContentBuffer.__init__ sample_partition embedded_entry 2048
  = Some (raise (NotImplementedError EmptyString))
  /\ FileContentBuffer.read
       (FileContentBuffer.Make sample_partition embedded_entry 2048 [])
       (open_rb []) 1 0 2
     = Some (inr (b "oo"), open_rb []).
Proof.
  destruct (embedded_buffer_unsupported sample_partition embedded_entry 2048
              eq_refl) as [Hinit Hread].
  split; [exact Hinit|].
  apply (Hread [] (open_rb []) 1 0 2);
    change (len (FileEntry.allocation_descriptors embedded_entry)) with 4;
    lia.
Defined.

(** A directory of 4096 bytes in two extents of one 2048-byte block each,
    block 0 and block 1 of its partition; the partition starts at byte 0 of
    the image, whose first block is all ['A'] and second all ['B']. *)
Definition two_extent_entry : FileEntry.t :=
  FileEntry.Make (ICBTag.Make 4 AllocationType.short_descriptors 0) 4096
    [x00; x08; x00; x00; x00; x00; x00; x00;
     x00; x08; x00; x00; x01; x00; x00; x00].

Definition two_block_image : bytes :=
  repeat "A"%byte 2048 ++ repeat "B"%byte 2048.

(** C4 on that directory: the buffer is built with both extents, and the
    read of all 4096 bytes returns the 2048 bytes of the second extent
    only; the bytes of the first extent are gone. *)
Theorem read_two_extents_keeps_last :
  exists self f',
    FileContentBuffer.__init__ sample_partition two_extent_entry 2048
    = Some (inr self)
    /\ FileContentBuffer.extents self
       = [CookedExtent.Make 0 MAX_INT 0 2048;
          CookedExtent.Make 2048 MAX_INT 2048 2048]
    /\ FileContentBuffer.read self (open_rb two_block_image) 0 0 4096
       = Some (inr (repeat "B"%byte 2048), f')
    /\ repeat "B"%byte 2048 <> two_block_image.
Proof.
  eexists. eexists. split; [vm_compute; reflexivity|].
  split; [reflexivity|]. split; [vm_compute; reflexivity|].
  intros H. apply (f_equal (@List.length byte)) in H.
  unfold two_block_image in H.
  rewrite length_app, !repeat_length in H. discriminate H.
Qed.

End ReadUdfFacts.

(** ** Properties of identify_playstation2_games.py *)

Module IdentifyFacts.
Import Identify PyFacts.

Lemma byte_upper_idem (c : byte) : byte_upper (byte_upper c) = byte_upper c.
Proof. destruct c; reflexivity. Qed.

Lemma byte_upper_dot (c : byte) : byte_upper c = "."%byte -> c = "."%byte.
Proof. destruct c; vm_compute; congruence. Qed.

Lemma byte_upper_underscore (c : byte) : byte_upper c = "_"%byte -> c = "_"%byte.
Proof. destruct c; vm_compute; congruence. Qed.

(** After sanitizing, no ['.'] and no ['_'] is left, and every byte is
    its own upper case. *)
Definition clean (c : byte) : Prop :=
  c <> "."%byte /\ c <> "_"%byte /\ byte_upper c = c.

Lemma sanitize_clean (s : bytes) : Forall clean (sanitize s).
Proof.
  unfold sanitize, upper.
  induction s as [|c t IH]; simpl; [constructor|].
  destruct (decide (byte_upper c = "."%byte)) as [Hd|Hd].
  - rewrite bool_decide_eq_true_2 by exact Hd. simpl. exact IH.
  - rewrite bool_decide_eq_false_2 by exact Hd. simpl.
    destruct (decide (byte_upper c = "_"%byte)) as [Hu|Hu].
    + rewrite bool_decide_eq_true_2 by exact Hu. simpl.
      constructor; [|exact IH]. repeat split; try discriminate.
    + rewrite bool_decide_eq_false_2 by exact Hu.
      constructor; [|exact IH].
      repeat split; auto using byte_upper_idem.
Qed.

Lemma sanitize_fixes_clean (s : bytes) : Forall clean s -> sanitize s = s.
Proof.
  unfold sanitize, upper.
  induction 1 as [|c t (Hd & Hu & Hup) _ IH]; simpl; [reflexivity|].
  rewrite Hup.
  rewrite (bool_decide_eq_false_2 _ Hd). simpl.
  rewrite (bool_decide_eq_false_2 _ Hu). now rewrite IH.
Qed.

(** C9: the orchestrator's normalization of a candidate (upper case, drop
    ['.'], replace ['_'] by ['-']) is idempotent on every byte string. *)
Theorem sanitize_idempotent (s : bytes) : sanitize (sanitize s) = sanitize s.
Proof. apply sanitize_fixes_clean, sanitize_clean. Qed.

(** *** The scanner *)

Section ScannerFacts.

Variable buffer_size : Z.
Hypothesis buffer_size_nonneg : 0 <= buffer_size.

(** The bytes of one read at position [pos]. *)
Definition chunk_at (data : bytes) (pos : Z) : bytes :=
  firstn (Z.to_nat buffer_size) (skipn (Z.to_nat pos) data).

(** One turn of the loop. *)
Lemma scan_turn (fuel : nat) (data : bytes) (pos file_size : Z) :
  scan buffer_size (S fuel) (File data pos) file_size =
  let rom_data := chunk_at data pos in
  let pos' := pos + len rom_data in
  if bool_decide (rom_data = []) then Some None
  else
    match search_prefixes PREFIXES rom_data with
    | Some serial_number => Some (Some serial_number)
    | None =>
      scan buffer_size fuel
           (File data (if (pos' >? MAX_PREFIX_LEN) && (pos' <? file_size)
                       then pos' - MAX_PREFIX_LEN else pos'))
           file_size
    end.
Proof.
  cbn [scan]. unfold read, tell, seek, chunk_at. cbn [f_data f_pos].
  destruct (Z.ltb_spec buffer_size 0); [lia|].
  cbv zeta.
  destruct (bool_decide _); [reflexivity|].
  destruct (search_prefixes PREFIXES _); [reflexivity|].
  destruct (_ && _); reflexivity.
Qed.

Lemma len_chunk_at (data : bytes) (pos : Z) :
  0 <= pos ->
  len (chunk_at data pos) = Z.min buffer_size (Z.max 0 (len data - pos)).
Proof.
  intros Hpos. unfold chunk_at, len. rewrite length_firstn, length_skipn.
  destruct (Nat.min_spec (Z.to_nat buffer_size)
              (length data - Z.to_nat pos)) as [[? ->]|[? ->]]; lia.
Qed.

Lemma chunk_at_short (data : bytes) (pos : Z) :
  0 <= pos -> len (chunk_at data pos) < buffer_size ->
  pos + len (chunk_at data pos) >= len data.
Proof. intros Hpos. rewrite len_chunk_at by exact Hpos. lia. Qed.

Lemma chunk_at_bound (data : bytes) (pos : Z) :
  0 <= pos -> chunk_at data pos <> [] ->
  pos < len data /\ 0 < len (chunk_at data pos) <= buffer_size.
Proof.
  intros Hpos Hne.
  assert (0 < len (chunk_at data pos)).
  { destruct (chunk_at data pos); [contradiction|]. unfold len. cbn. lia. }
  revert H. rewrite len_chunk_at by exact Hpos. lia.
Qed.

(** With a buffer longer than the rewind, every turn that goes on leaves
    the position further than it found it; the loop returns. *)
Lemma scan_returns (data : bytes) :
  MAX_PREFIX_LEN < buffer_size ->
  forall fuel pos,
    0 <= pos -> (length data - Z.to_nat pos < fuel)%nat ->
    exists r, scan buffer_size fuel (File data pos) (getsize data) = Some r.
Proof.
  intros Hbig. induction fuel as [|fuel IH]; intros pos Hpos Hfuel; [lia|].
  rewrite scan_turn. cbv zeta.
  destruct (bool_decide (chunk_at data pos = [])) eqn:Hempty; [eauto|].
  apply bool_decide_eq_false in Hempty.
  destruct (search_prefixes PREFIXES (chunk_at data pos)); [eauto|].
  destruct (chunk_at_bound data pos Hpos Hempty) as (Hin & Hlen).
  unfold getsize. unfold len in Hin. unfold MAX_PREFIX_LEN in *.
  destruct (Z.gtb_spec (pos + len (chunk_at data pos)) 6);
    destruct (Z.ltb_spec (pos + len (chunk_at data pos)) (len data));
    cbn [andb]; try (apply IH; lia).
  destruct (Z.eq_dec (len (chunk_at data pos)) buffer_size) as [Hfull|Hcut].
  - apply IH; lia.
  - pose proof (chunk_at_short data pos Hpos ltac:(lia)) as Hend. lia.
Qed.

(** A file that fits in one buffer is searched once, as a whole. *)
Lemma find_in_binary_one_buffer (data : bytes) :
  len data <= buffer_size ->
  find_in_binary_with buffer_size data
  = Some (search_prefixes PREFIXES data).
Proof.
  intros Hfit. unfold find_in_binary_with, open_rb, getsize.
  assert (Hall : chunk_at data 0 = data).
  { unfold chunk_at. cbn [Z.to_nat skipn]. apply firstn_all2.
    unfold len in Hfit. lia. }
  destruct (decide (data = [])) as [->|Hne];
    [now rewrite scan_turn, Hall|].
  rewrite scan_turn, Hall. cbv zeta.
  rewrite bool_decide_eq_false_2 by exact Hne.
  destruct (search_prefixes PREFIXES data); [reflexivity|].
  rewrite Z.ltb_irrefl, andb_false_r, Z.add_0_l.
  assert (Hend : chunk_at data (len data) = []).
  { unfold chunk_at, len. rewrite Nat2Z.id, skipn_all. apply firstn_nil. }
  destruct (length data) as [|fuel] eqn:Hl.
  { destruct data; [contradiction|discriminate]. }
  now rewrite scan_turn, Hend.
Qed.

(** No prefix starts with a zero byte, so zero bytes in front of a buffer
    do not change what the search finds. *)
Definition nonzero_head (p : bytes) : Prop :=
  match p with
  | c :: _ => c <> x00
  | [] => False
  end.

Lemma prefixes_nonzero_head : Forall nonzero_head PREFIXES.
Proof. unfold PREFIXES. repeat constructor; discriminate. Qed.

Lemma re_search_zero (p s : bytes) :
  nonzero_head p -> re_search p (x00 :: s) = re_search p s.
Proof.
  destruct p as [|c p]; [contradiction|]. intros Hc.
  cbn [re_search]. unfold match_here at 1. cbn [startswith].
  rewrite bool_decide_eq_false_2 by exact Hc. reflexivity.
Qed.

Lemma search_prefixes_zero (prefixes : list bytes) (s : bytes) :
  Forall nonzero_head prefixes ->
  search_prefixes prefixes (x00 :: s) = search_prefixes prefixes s.
Proof.
  induction 1 as [|p rest Hp _ IH]; [reflexivity|].
  cbn [search_prefixes]. now rewrite re_search_zero, IH.
Qed.

Lemma search_prefixes_zeros (n : nat) (s : bytes) :
  search_prefixes PREFIXES (repeat x00 n ++ s) = search_prefixes PREFIXES s.
Proof.
  induction n as [|n IH]; [reflexivity|]. cbn [repeat app].
  rewrite search_prefixes_zero by exact prefixes_nonzero_head. exact IH.
Qed.

Lemma search_cut_serial : search_prefixes PREFIXES (b "SLUS_201") = None.
Proof. vm_compute. reflexivity. Qed.

Lemma search_beheaded_serial :
  search_prefixes PREFIXES (b "US_201.01;") = None.
Proof. vm_compute. reflexivity. Qed.

Lemma search_whole_serial :
  search_prefixes PREFIXES (b "SLUS_201.01;") = Some (b "SLUS-20101").
Proof. vm_compute. reflexivity. Qed.

(** A serial that starts eight bytes before the end of the first buffer:
    the first read ends inside it, the second starts six bytes back, inside
    its prefix, and neither buffer holds a match. *)
Lemma straddling_serial_missed (n : nat) :
  buffer_size = Z.of_nat n + 8 -> (2 <= n)%nat ->
  find_in_binary_with buffer_size (repeat x00 n ++ b "SLUS_201.01;")
  = Some None.
Proof.
  intros Hsize Hn. unfold find_in_binary_with, open_rb, getsize.
  set (data := repeat x00 n ++ b "SLUS_201.01;").
  assert (Hlen : length data = (n + 12)%nat).
  { unfold data. rewrite length_app, repeat_length. reflexivity. }
  assert (Hfirst : chunk_at data 0 = repeat x00 n ++ b "SLUS_201").
  { unfold chunk_at, data. change (Z.to_nat 0) with 0%nat. rewrite skipn_O.
    replace (Z.to_nat buffer_size) with (n + 8)%nat by lia.
    rewrite firstn_app, repeat_length.
    rewrite firstn_all2 by (rewrite repeat_length; lia).
    replace (n + 8 - n)%nat with 8%nat by lia. reflexivity. }
  assert (Hsecond :
            chunk_at data (0 + buffer_size - MAX_PREFIX_LEN) = b "US_201.01;").
  { unfold chunk_at, data, MAX_PREFIX_LEN.
    replace (Z.to_nat (0 + buffer_size - 6)) with (n + 2)%nat by lia.
    rewrite skipn_app, repeat_length.
    rewrite skipn_all2 by (rewrite repeat_length; lia).
    replace (n + 2 - n)%nat with 2%nat by lia.
    change ([] ++ skipn 2 (b "SLUS_201.01;")) with (b "US_201.01;").
    apply firstn_all2. change (length (b "US_201.01;")) with 10%nat. lia. }
  assert (Hthird : chunk_at data (0 + buffer_size - MAX_PREFIX_LEN + 10) = []).
  { unfold chunk_at, MAX_PREFIX_LEN.
    rewrite skipn_all2 by (rewrite Hlen; lia). apply firstn_nil. }
  replace (S (length data)) with (S (S (S (n + 10)))) by (rewrite Hlen; lia).
  (* first buffer *)
  rewrite scan_turn, Hfirst. cbv zeta.
  rewrite bool_decide_eq_false_2
    by (destruct n; [lia|discriminate]).
  rewrite search_prefixes_zeros, search_cut_serial.
  assert (Hl1 : len (repeat x00 n ++ b "SLUS_201") = buffer_size).
  { unfold len. rewrite length_app, repeat_length.
    change (length (b "SLUS_201")) with 8%nat. lia. }
  rewrite Hl1.
  destruct (Z.gtb_spec (0 + buffer_size) MAX_PREFIX_LEN) as [_|Hc];
    [|unfold MAX_PREFIX_LEN in Hc; lia].
  destruct (Z.ltb_spec (0 + buffer_size) (len data)) as [_|Hc];
    [|unfold len in Hc; lia].
  cbn [andb].
  (* second buffer, six bytes back *)
  rewrite scan_turn, Hsecond. cbv zeta.
  rewrite bool_decide_eq_false_2 by discriminate.
  rewrite search_beheaded_serial.
  change (len (b "US_201.01;")) with 10.
  destruct (Z.ltb_spec (0 + buffer_size - MAX_PREFIX_LEN + 10) (len data))
    as [Hc|_]; [unfold len, MAX_PREFIX_LEN in Hc; lia|].
  rewrite andb_false_r.
  (* end of the file *)
  now rewrite scan_turn, Hthird.
Qed.

End ScannerFacts.

(** [_find_in_binary] returns on every file. *)
Lemma find_in_binary_returns (data : bytes) :
  exists r, _find_in_binary data = Some r.
Proof.
  unfold _find_in_binary, find_in_binary_with, open_rb.
  apply scan_returns; unfold BUFFER_SIZE, MAX_PREFIX_LEN; lia.
Qed.

(** A file of 10 MiB + 4 bytes: zero bytes, then the serial
    [SLUS_201.01;] from byte [BUFFER_SIZE - 8] on, across the end of the
    first buffer. *)
Definition straddling_file : bytes :=
  repeat x00 (Z.to_nat (BUFFER_SIZE - 8)) ++ b "SLUS_201.01;".

(** C8 on that file: the serial matches the pattern, begins before the
    10 MiB boundary and ends after it, and a search of the whole file finds
    it; [_find_in_binary] returns [None]. *)
Theorem straddling_serial_not_found :
  match_here (b "SLUS") (b "SLUS_201.01;") = Some (b "SLUS_201.01;")
  /\ len (repeat x00 (Z.to_nat (BUFFER_SIZE - 8))) < BUFFER_SIZE
     < len straddling_file
  /\ search_prefixes PREFIXES straddling_file = Some (b "SLUS-20101")
  /\ _find_in_binary straddling_file = Some None.
Proof.
  split; [reflexivity|]. split; [|split].
  - unfold straddling_file, len.
    rewrite length_app, repeat_length.
    change (length (b "SLUS_201.01;")) with 12%nat.
    unfold BUFFER_SIZE. lia.
  - unfold straddling_file.
    now rewrite search_prefixes_zeros, search_whole_serial.
  - unfold _find_in_binary, straddling_file.
    apply straddling_serial_missed; unfold BUFFER_SIZE; lia.
Qed.

(** *** The orchestrator *)

Lemma replace_app (old : byte) (new x y : bytes) :
  replace old new (x ++ y) = replace old new x ++ replace old new y.
Proof.
  induction x as [|c x IH]; [reflexivity|]. cbn [replace app].
  destruct (bool_decide (c = old)); rewrite IH;
    [now rewrite app_assoc|reflexivity].
Qed.

Lemma sanitize_app (x y : bytes) :
  sanitize (x ++ y) = sanitize x ++ sanitize y.
Proof. unfold sanitize, upper. now rewrite map_app, !replace_app. Qed.

Lemma split_head_app (sep : byte) (x y : bytes) :
  Forall (fun c => c <> sep) x -> split_head sep (x ++ sep :: y) = x.
Proof.
  induction 1 as [|c x Hc _ IH]; cbn [app split_head].
  - now rewrite bool_decide_eq_true_2.
  - rewrite bool_decide_eq_false_2 by exact Hc. now rewrite IH.
Qed.

(** The on-disc form [<PREFIX>_<d.d.d>;<n>] of a serial. *)
Definition is_upper_letter (c : byte) : Prop := 65 <= ord c <= 90.
Definition is_digit (c : byte) : Prop := 48 <= ord c <= 57.


(** The digits of the body, without the dots. *)
Definition drop_dots (body : bytes) : bytes :=
  List.filter (fun c => negb (bool_decide (c = "."%byte))) body.

Lemma upper_letter_clean (c : byte) : is_upper_letter c -> clean c.
Proof.
  unfold is_upper_letter, clean, byte_upper. intros H.
  split; [|split]; try (intros ->; vm_compute in H; intuition congruence).
  destruct (Z.leb_spec 97 (ord c)); [lia|reflexivity].
Qed.

Lemma digit_clean (c : byte) : is_digit c -> clean c.
Proof.
  unfold is_digit, clean, byte_upper. intros H.
  split; [|split]; try (intros ->; vm_compute in H; intuition congruence).
  destruct (Z.leb_spec 97 (ord c)); [lia|reflexivity].
Qed.

Lemma upper_letter_not_dash (c : byte) : is_upper_letter c -> c <> "-"%byte.
Proof. intros H ->. vm_compute in H. intuition congruence. Qed.



Section OrchestratorFacts.

Variables db_as db_au db_eu db_jp db_ko db_us : gmap bytes string.

Abbreviation identify := (identify db_as db_au db_eu db_jp db_ko db_us).
Abbreviation look_up := (look_up db_as db_au db_eu db_jp db_ko db_us).
Abbreviation get_playstation2_game_info :=
  (get_playstation2_game_info db_as db_au db_eu db_jp db_ko db_us).

Definition not_found : exn := Exception "Failed to find game in database.".

(** What one candidate contributes: nothing when its first segment is not
    a known prefix or the tables have no (non-empty) title for it,
    otherwise the record returned. *)
Definition resolve (disc_type : string) (sub_entry : bytes)
  : option game_info :=
  let serial_number := sanitize sub_entry in
  if bytes_in (split_head "-"%byte serial_number) PREFIXES then
    match look_up serial_number with
    | (Some title, Some region) =>
      if bool_decide (title = EmptyString) then None
      else Some (GameInfo serial_number region title disc_type)
    | _ => None
    end
  else None.

Lemma identify_cons (disc_type : string) (sub_entry : bytes)
    (rest : list (option bytes)) :
  identify disc_type (Some sub_entry :: rest) =
  match resolve disc_type sub_entry with
  | Some info => inr info
  | None => identify disc_type rest
  end.
Proof.
  cbn [Identify.identify]. unfold resolve.
  destruct (bytes_in _ PREFIXES); cbn [negb]; [|reflexivity].
  destruct (look_up (sanitize sub_entry)) as [[title|] [region|]] eqn:Hl;
    try reflexivity.
  unfold truthy. destruct (bool_decide (title = EmptyString)); cbn [negb orb].
  - reflexivity.
  - destruct (bool_decide (region = EmptyString)) eqn:Hr; [|reflexivity].
    (* the region is one of the six names, never empty *)
    exfalso. apply bool_decide_eq_true in Hr. subst region.
    unfold Identify.look_up in Hl.
    repeat match type of Hl with
    | context [match ?m !! ?k with _ => _ end] => destruct (m !! k)
    end; congruence.
Qed.


(** On a DVD image the candidates are the file identifiers, in order. *)
Lemma orchestrator_dvd (image : disc_image) (identifiers : list bytes) :
  bytes_in (lower (extension image)) [b ".iso"; b ".bin"] = true ->
  udf_identifiers image = inr identifiers ->
  get_playstation2_game_info image
  = Some (identify "DVD" (map Some identifiers)).
Proof.
  intros Hext Hudf. unfold Identify.get_playstation2_game_info.
  now rewrite Hext, Hudf.
Qed.

(** When neither reader succeeds the one candidate is what the scanner
    returned, [None] included. *)
Lemma orchestrator_binary (image : disc_image) (e1 e2 : exn)
    (hit : option bytes) :
  bytes_in (lower (extension image)) [b ".iso"; b ".bin"] = true ->
  udf_identifiers image = inl e1 ->
  iso_tree image = inl e2 ->
  _find_in_binary (content image) = Some hit ->
  get_playstation2_game_info image = Some (identify "Binary" [hit]).
Proof.
  intros Hext Hudf Hiso Hscan. unfold Identify.get_playstation2_game_info.
  now rewrite Hext, Hudf, Hiso, Hscan.
Qed.


(** C2 on a file that is neither UDF nor ISO 9660 and holds the
    placeholder serial only: the scanner returns [None], and the
    orchestrator raises [AttributeError], not the error of a game that is
    not in the tables. *)
Theorem placeholder_only_raises_attribute_error (e1 e2 : exn) :
  _find_in_binary (b "SLUS_999.99;1") = Some None
  /\ get_playstation2_game_info
       (DiscImage (b ".bin") (inl e1) (inl e2) (b "SLUS_999.99;1"))
     = Some (raise (AttributeError
                      "'NoneType' object has no attribute 'upper'")).
Proof.
  assert (Hscan : _find_in_binary (b "SLUS_999.99;1") = Some None).
  { unfold _find_in_binary.
    rewrite find_in_binary_one_buffer.
    - vm_compute. reflexivity.
    - unfold BUFFER_SIZE. lia.
    - change (len (b "SLUS_999.99;1")) with 13. unfold BUFFER_SIZE. lia. }
  split; [exact Hscan|].
  apply (orchestrator_binary
           (DiscImage (b ".bin") (inl e1) (inl e2) (b "SLUS_999.99;1"))
           e1 e2 None); [reflexivity..|exact Hscan].
Qed.

(** C10: a candidate that starts with [Sierra] and a separator is never
    identified. Upper-cased, its first segment is [SIERRA], which is not in
    [PREFIXES] ([Sierra] is, and is the only entry that upper-casing
    changes); the loop passes over it whatever the tables hold, also when
    it is the hit of the binary scanner. *)
Theorem sierra_never_identified (sep : byte) (tail : bytes) :
  sep = "_"%byte \/ sep = "-"%byte ->
  let candidate := b "Sierra" ++ sep :: tail in
  In (b "Sierra") PREFIXES
  /\ Forall (fun p => upper p = p \/ p = b "Sierra") PREFIXES
  /\ split_head "-"%byte (sanitize candidate) = b "SIERRA"
  /\ bytes_in (b "SIERRA") PREFIXES = false
  /\ (forall disc_type rest,
        identify disc_type (Some candidate :: rest)
        = identify disc_type rest)
  /\ (forall image e1 e2,
        bytes_in (lower (extension image)) [b ".iso"; b ".bin"] = true ->
        udf_identifiers image = inl e1 ->
        iso_tree image = inl e2 ->
        _find_in_binary (content image) = Some (Some candidate) ->
        get_playstation2_game_info image = Some (raise not_found)).
Proof.
  intros Hsep candidate.
  assert (Hhead : split_head "-"%byte (sanitize candidate) = b "SIERRA").
  { unfold candidate. change (sep :: tail) with ([sep] ++ tail).
    rewrite !sanitize_app.
    replace (sanitize [sep]) with (b "-")
      by (destruct Hsep as [-> | ->]; reflexivity).
    change (sanitize (b "Sierra")) with (b "SIERRA").
    apply (split_head_app "-"%byte (b "SIERRA")).
    repeat constructor; discriminate. }
  assert (Hskip : forall disc_type rest,
            identify disc_type (Some candidate :: rest)
            = identify disc_type rest).
  { intros disc_type rest. rewrite identify_cons. unfold resolve.
    now rewrite Hhead. }
  split; [apply bytes_in_true; reflexivity|].
  split; [unfold PREFIXES;
          repeat constructor; (left; reflexivity) || (right; reflexivity)|].
  split; [exact Hhead|]. split; [reflexivity|]. split; [exact Hskip|].
  intros image e1 e2 Hext Hudf Hiso Hscan.
  rewrite (orchestrator_binary image e1 e2 _ Hext Hudf Hiso Hscan).
  now rewrite Hskip.
Qed.

(** The orchestrator returns or raises on every file: the scan it may run
    comes to an end. *)
Lemma orchestrator_returns (image : disc_image) :
  exists r, get_playstation2_game_info image = Some r.
Proof.
  unfold Identify.get_playstation2_game_info.
  destruct (negb _); [eauto|].
  destruct (udf_identifiers image); [|eauto].
  destruct (iso_tree image); [|eauto].
  destruct (find_in_binary_returns (content image)) as [hit ->]. eauto.
Qed.

End OrchestratorFacts.

(** *** Instances *)

(** What the two readers raise on a file that is not theirs. *)
Definition udf_failure : exn := Exception "Is not a valid UDF file '{0}'".
Definition iso_failure : exn := Exception "Not an ISO 9660 image".

(** The table of the United States with the one game of the
    specification's first scenario, under its canonical serial. *)
Definition us_table : gmap bytes string :=
  {[ b "SLUS-20101" := "Game"%string ]}.





(** A raw image that holds one [Sierra] serial: the scanner finds it and
    returns it with its lower-case letters. *)
Definition sierra_image : disc_image :=
  DiscImage (b ".bin") (inl udf_failure) (inl iso_failure)
            (b "Sierra_123.45;").

Lemma sierra_scanned :
  _find_in_binary (content sierra_image) = Some (Some (b "Sierra-12345")).
Proof.
  unfold _find_in_binary. rewrite find_in_binary_one_buffer.
  - vm_compute. reflexivity.
  - unfold BUFFER_SIZE. lia.
  - change (len (content sierra_image)) with 14. unfold BUFFER_SIZE. lia.
Qed.

Lemma sierra_never_identified_witness :
  get_playstation2_game_info ∅ ∅ ∅ ∅ ∅
    {[ b "SIERRA-12345" := "Game"%string ]} sierra_image
  = Some (raise not_found).
Proof.
  destruct (sierra_never_identified ∅ ∅ ∅ ∅ ∅
              {[ b "SIERRA-12345" := "Game"%string ]} "-"%byte (b "12345")
              (or_intror eq_refl))
    as (_ & _ & _ & _ & _ & Hscanner).
  apply (Hscanner sierra_image udf_failure iso_failure);
    [reflexivity..|exact sierra_scanned].
Defined.


End IdentifyFacts.

(** ** Properties of the rest of read_udf.py *)

Module ReadUdfExtFacts.
Import ReadUdf ReadUdfExt PyFacts ReadUdfFacts.

(** *** Integers are read little-endian *)

(** The value of a byte string read as a little-endian number. *)
Fixpoint le_value (cs : bytes) : Z :=
  match cs with
  | [] => 0
  | c :: rest => ord c + 256 * le_value rest
  end.

Lemma le_value_range (cs : bytes) :
  0 <= le_value cs < 256 ^ len cs.
Proof.
  induction cs as [|c rest IH].
  - change (0 <= 0 < 1). lia.
  - cbn [le_value]. unfold len in *. cbn [length].
    rewrite Nat2Z.inj_succ, Z.pow_succ_r by lia.
    pose proof (ord_range c). lia.
Qed.

Lemma land_disjoint (a lo k : Z) :
  0 <= k -> a mod 2 ^ k = 0 -> 0 <= lo < 2 ^ k -> Z.land a lo = 0.
Proof.
  intros Hk Ha Hlo. apply Z.bits_inj'. intros i Hi.
  rewrite Z.land_spec, Z.bits_0.
  destruct (Z.lt_ge_cases i k) as [Hlt|Hge].
  - rewrite <- (Z.mod_pow2_bits_low a k i) by lia.
    now rewrite Ha, Z.bits_0.
  - rewrite <- (Z.mod_small lo (2 ^ k)) by lia.
    rewrite Z.mod_pow2_bits_high by lia. apply andb_false_r.
Qed.

Lemma lor_disjoint (a lo k : Z) :
  0 <= k -> a mod 2 ^ k = 0 -> 0 <= lo < 2 ^ k -> Z.lor a lo = a + lo.
Proof.
  intros Hk Ha Hlo. pose proof (Z.add_lor_land a lo) as H.
  rewrite (land_disjoint a lo k Hk Ha Hlo) in H. lia.
Qed.

(** [(v << k) & (0xFF << k)] for a byte value [v]. *)
Lemma masked_shift (v k : Z) :
  0 <= k -> 0 <= v < 256 ->
  Z.land (Z.shiftl v k) (Z.shiftl 255 k) = v * 2 ^ k.
Proof.
  intros Hk Hv. rewrite <- Z.shiftl_land. change 255 with (Z.ones 8).
  rewrite Z.land_ones by lia. rewrite Z.mod_small by lia.
  now apply Z.shiftl_mul_pow2.
Qed.

(** The byte at [start + i] of a buffer, when there is one. *)
Lemma to_uint8_present (buffer : bytes) (p : Z) :
  0 <= p < len buffer ->
  to_uint8 buffer p = inr (ord (nth (Z.to_nat p) buffer x00)).
Proof.
  intros [Hp Hl]. rewrite to_uint8_spec by exact Hp.
  destruct (nth_error buffer (Z.to_nat p)) as [c|] eqn:Hn.
  - now rewrite (nth_error_nth _ _ _ Hn).
  - apply nth_error_None in Hn. unfold len in Hl. lia.
Qed.

Lemma to_uint8_absent (buffer : bytes) (p : Z) :
  len buffer <= p ->
  to_uint8 buffer p
  = raise (struct_error "unpack requires a buffer of 1 bytes").
Proof.
  intros Hl. pose proof (len_nonneg buffer).
  rewrite to_uint8_spec by lia.
  destruct (nth_error buffer (Z.to_nat p)) as [c|] eqn:Hn; [|reflexivity].
  assert ((Z.to_nat p < length buffer)%nat)
    by (apply nth_error_Some; congruence).
  unfold len in Hl. lia.
Qed.

Lemma skipn_nth_error {A : Type} (l : list A) (n : nat) (x : A) :
  nth_error l n = Some x -> skipn n l = x :: skipn (S n) l.
Proof.
  revert l. induction n as [|n IH]; intros [|y l] H; try discriminate.
  - now injection H as ->.
  - cbn [nth_error] in H. cbn [skipn] in *. now apply IH.
Qed.

(** The bytes [buffer[start : start + n]] when all of them are there. *)
Lemma slice_cons (buffer : bytes) (start n : Z) :
  0 <= start -> 0 <= n -> start + n + 1 <= len buffer ->
  slice buffer start (start + (n + 1))
  = nth (Z.to_nat start) buffer x00
    :: slice buffer (start + 1) (start + 1 + n).
Proof.
  intros Hs Hn Hl. rewrite !slice_inside by lia.
  replace (Z.to_nat (n + 1)) with (S (Z.to_nat n)) by lia.
  replace (Z.to_nat (start + 1)) with (S (Z.to_nat start)) by lia.
  assert (Hlt : (Z.to_nat start < length buffer)%nat)
    by (unfold len in Hl; lia).
  destruct (nth_error buffer (Z.to_nat start)) as [c|] eqn:Hc;
    [|apply nth_error_None in Hc; lia].
  rewrite (nth_error_nth _ _ _ Hc), (skipn_nth_error _ _ _ Hc).
  reflexivity.
Qed.

Lemma slice_empty (buffer : bytes) (start : Z) :
  0 <= start -> slice buffer start (start + 0) = [].
Proof.
  intros Hs. unfold slice, clamp_index. rewrite Z.add_0_r.
  destruct (start <? 0); rewrite Z.sub_diag; apply firstn_O.
Qed.

(** The value of the byte at position [p]. *)
Definition byte_at (buffer : bytes) (p : Z) : Z :=
  ord (nth (Z.to_nat p) buffer x00).

Lemma byte_at_range (buffer : bytes) (p : Z) : 0 <= byte_at buffer p < 256.
Proof. apply ord_range. Qed.

Lemma to_uint8_byte_at (buffer : bytes) (p : Z) :
  0 <= p < len buffer -> to_uint8 buffer p = inr (byte_at buffer p).
Proof. apply to_uint8_present. Qed.

Lemma to_uint16_value (buffer : bytes) (start : Z) :
  0 <= start -> start + 2 <= len buffer ->
  to_uint16 buffer start
  = inr (byte_at buffer start + 256 * byte_at buffer (start + 1)).
Proof.
  intros Hs Hl. unfold to_uint16. rewrite Z.add_0_r.
  rewrite !to_uint8_byte_at by lia. cbn [bind]. f_equal.
  pose proof (byte_at_range buffer start).
  pose proof (byte_at_range buffer (start + 1)).
  change 65280 with (Z.shiftl 255 8). change 255 with (Z.shiftl 255 0) at 2.
  rewrite !masked_shift by lia.
  rewrite (lor_disjoint _ _ 8) by (try apply Z.mod_mul; lia). lia.
Qed.

Lemma to_uint32_value (buffer : bytes) (start : Z) :
  0 <= start -> start + 4 <= len buffer ->
  to_uint32 buffer start
  = inr (byte_at buffer start + 256 * byte_at buffer (start + 1)
         + 65536 * byte_at buffer (start + 2)
         + 16777216 * byte_at buffer (start + 3)).
Proof.
  intros Hs Hl. unfold to_uint32. rewrite Z.add_0_r.
  rewrite !to_uint8_byte_at by lia. cbn [bind]. f_equal.
  pose proof (byte_at_range buffer start).
  pose proof (byte_at_range buffer (start + 1)).
  pose proof (byte_at_range buffer (start + 2)).
  pose proof (byte_at_range buffer (start + 3)).
  change 4278190080 with (Z.shiftl 255 24).
  change 16711680 with (Z.shiftl 255 16).
  change 65280 with (Z.shiftl 255 8). change 255 with (Z.shiftl 255 0) at 4.
  rewrite !masked_shift by lia.
  set (b0 := byte_at buffer start) in *.
  set (b1 := byte_at buffer (start + 1)) in *.
  set (b2 := byte_at buffer (start + 2)) in *.
  set (b3 := byte_at buffer (start + 3)) in *.
  rewrite (lor_disjoint (b3 * 2 ^ 24) _ 24)
    by (try apply Z.mod_mul; lia).
  replace (b3 * 2 ^ 24 + b2 * 2 ^ 16)
    with ((b3 * 256 + b2) * 2 ^ 16) by lia.
  rewrite (lor_disjoint ((b3 * 256 + b2) * 2 ^ 16) _ 16)
    by (try apply Z.mod_mul; lia).
  replace ((b3 * 256 + b2) * 2 ^ 16 + b1 * 2 ^ 8)
    with (((b3 * 256 + b2) * 256 + b1) * 2 ^ 8) by lia.
  rewrite (lor_disjoint (((b3 * 256 + b2) * 256 + b1) * 2 ^ 8) _ 8)
    by (try apply Z.mod_mul; lia).
  lia.
Qed.

Lemma to_uint64_value (buffer : bytes) (start : Z) :
  0 <= start -> start + 8 <= len buffer ->
  to_uint64 buffer start
  = inr (byte_at buffer start + 256 * byte_at buffer (start + 1)
         + 2 ^ 16 * byte_at buffer (start + 2)
         + 2 ^ 24 * byte_at buffer (start + 3)
         + 2 ^ 32 * byte_at buffer (start + 4)
         + 2 ^ 40 * byte_at buffer (start + 5)
         + 2 ^ 48 * byte_at buffer (start + 6)
         + 2 ^ 56 * byte_at buffer (start + 7)).
Proof.
  intros Hs Hl. unfold to_uint64. rewrite Z.add_0_r.
  rewrite !to_uint8_byte_at by lia. cbn [bind]. f_equal.
  pose proof (byte_at_range buffer start).
  pose proof (byte_at_range buffer (start + 1)).
  pose proof (byte_at_range buffer (start + 2)).
  pose proof (byte_at_range buffer (start + 3)).
  pose proof (byte_at_range buffer (start + 4)).
  pose proof (byte_at_range buffer (start + 5)).
  pose proof (byte_at_range buffer (start + 6)).
  pose proof (byte_at_range buffer (start + 7)).
  change 18374686479671623680 with (Z.shiftl 255 56).
  change 71776119061217280 with (Z.shiftl 255 48).
  change 280375465082880 with (Z.shiftl 255 40).
  change 1095216660480 with (Z.shiftl 255 32).
  change 4278190080 with (Z.shiftl 255 24).
  change 16711680 with (Z.shiftl 255 16).
  change 65280 with (Z.shiftl 255 8). change 255 with (Z.shiftl 255 0) at 8.
  rewrite !masked_shift by lia.
  set (b0 := byte_at buffer start) in *.
  set (b1 := byte_at buffer (start + 1)) in *.
  set (b2 := byte_at buffer (start + 2)) in *.
  set (b3 := byte_at buffer (start + 3)) in *.
  set (b4 := byte_at buffer (start + 4)) in *.
  set (b5 := byte_at buffer (start + 5)) in *.
  set (b6 := byte_at buffer (start + 6)) in *.
  set (b7 := byte_at buffer (start + 7)) in *.
  rewrite (lor_disjoint (b7 * 2 ^ 56) _ 56)
    by (try apply Z.mod_mul; lia).
  replace (b7 * 2 ^ 56 + b6 * 2 ^ 48)
    with ((b7 * 256 + b6) * 2 ^ 48) by lia.
  rewrite (lor_disjoint ((b7 * 256 + b6) * 2 ^ 48) _ 48)
    by (try apply Z.mod_mul; lia).
  replace ((b7 * 256 + b6) * 2 ^ 48 + b5 * 2 ^ 40)
    with (((b7 * 256 + b6) * 256 + b5) * 2 ^ 40) by lia.
  rewrite (lor_disjoint (((b7 * 256 + b6) * 256 + b5) * 2 ^ 40) _ 40)
    by (try apply Z.mod_mul; lia).
  replace (((b7 * 256 + b6) * 256 + b5) * 2 ^ 40 + b4 * 2 ^ 32)
    with ((((b7 * 256 + b6) * 256 + b5) * 256 + b4) * 2 ^ 32) by lia.
  rewrite (lor_disjoint ((((b7 * 256 + b6) * 256 + b5) * 256 + b4) * 2 ^ 32) _ 32)
    by (try apply Z.mod_mul; lia).
  replace ((((b7 * 256 + b6) * 256 + b5) * 256 + b4) * 2 ^ 32 + b3 * 2 ^ 24)
    with (((((b7 * 256 + b6) * 256 + b5) * 256 + b4) * 256 + b3) * 2 ^ 24) by lia.
  rewrite (lor_disjoint (((((b7 * 256 + b6) * 256 + b5) * 256 + b4) * 256 + b3) * 2 ^ 24) _ 24)
    by (try apply Z.mod_mul; lia).
  replace (((((b7 * 256 + b6) * 256 + b5) * 256 + b4) * 256 + b3) * 2 ^ 24 + b2 * 2 ^ 16)
    with ((((((b7 * 256 + b6) * 256 + b5) * 256 + b4) * 256 + b3) * 256 + b2) * 2 ^ 16) by lia.
  rewrite (lor_disjoint ((((((b7 * 256 + b6) * 256 + b5) * 256 + b4) * 256 + b3) * 256 + b2) * 2 ^ 16) _ 16)
    by (try apply Z.mod_mul; lia).
  replace ((((((b7 * 256 + b6) * 256 + b5) * 256 + b4) * 256 + b3) * 256 + b2) * 2 ^ 16 + b1 * 2 ^ 8)
    with (((((((b7 * 256 + b6) * 256 + b5) * 256 + b4) * 256 + b3) * 256 + b2) * 256 + b1) * 2 ^ 8) by lia.
  rewrite (lor_disjoint (((((((b7 * 256 + b6) * 256 + b5) * 256 + b4) * 256 + b3) * 256 + b2) * 256 + b1) * 2 ^ 8) _ 8)
    by (try apply Z.mod_mul; lia).
  lia.
Qed.

(** Add up the numerals of a sum of offsets. *)
Ltac add_numerals :=
  repeat match goal with
  | |- context [Z.pos ?p + Z.pos ?q] =>
    let r := eval cbv in (Z.pos p + Z.pos q) in
    change (Z.pos p + Z.pos q) with r
  end.

(** The little-endian value of the [n] bytes from [start] on. *)
Fixpoint le_at (buffer : bytes) (start : Z) (n : nat) : Z :=
  match n with
  | O => 0
  | S n' => byte_at buffer start + 256 * le_at buffer (start + 1) n'
  end.

Lemma le_value_slice (buffer : bytes) (n : nat) :
  forall start,
    0 <= start -> start + Z.of_nat n <= len buffer ->
    le_value (slice buffer start (start + Z.of_nat n)) = le_at buffer start n.
Proof.
  induction n as [|n IH]; intros start Hs Hl.
  - change (Z.of_nat 0) with 0. now rewrite slice_empty.
  - rewrite Nat2Z.inj_succ, <- Z.add_1_r.
    rewrite slice_cons by lia. cbn [le_value le_at].
    rewrite IH by lia. reflexivity.
Qed.

Lemma len_slice_inside (buffer : bytes) (start n : Z) :
  0 <= start -> 0 <= n -> start + n <= len buffer ->
  len (slice buffer start (start + n)) = n.
Proof.
  intros Hs Hn Hl. rewrite slice_inside by lia.
  unfold len in *. rewrite length_firstn, length_skipn. lia.
Qed.

Lemma le_slice_range (buffer : bytes) (start : Z) (n : nat) :
  0 <= start -> start + Z.of_nat n <= len buffer ->
  0 <= le_value (slice buffer start (start + Z.of_nat n))
  < 256 ^ Z.of_nat n.
Proof.
  intros Hs Hl.
  pose proof (le_value_range (slice buffer start (start + Z.of_nat n))) as H.
  now rewrite len_slice_inside in H by lia.
Qed.

(** X1: [to_uint16] reads two bytes little-endian: with both bytes in the
    buffer it returns their value, which is below [2^16]; with fewer it
    raises [struct.error]. *)
Theorem to_uint16_little_endian (buffer : bytes) (start : Z) :
  0 <= start ->
  (start + 2 <= len buffer ->
   to_uint16 buffer start
   = inr (le_value (slice buffer start (start + 2)))
   /\ 0 <= le_value (slice buffer start (start + 2)) < 2 ^ 16)
  /\ (len buffer < start + 2 ->
      to_uint16 buffer start
      = raise (struct_error "unpack requires a buffer of 1 bytes")).
Proof.
  intros Hs. split; intros Hl.
  - split; [|apply (le_slice_range buffer start 2); assumption].
    rewrite (le_value_slice buffer 2) by assumption.
    rewrite to_uint16_value by assumption. cbn [le_at]. f_equal. lia.
  - unfold to_uint16. now rewrite to_uint8_absent by lia.
Qed.

Lemma to_uint16_little_endian_witness :
  to_uint16 [x34; x12] 0 = inr 0x1234.
Proof.
  destruct (to_uint16_little_endian [x34; x12] 0 ltac:(lia)) as [H _].
  destruct (H ltac:(unfold len; cbn [length]; lia)) as [Hv _]. exact Hv.
Defined.

(** X2: [to_uint32] reads four bytes little-endian: with all four in the
    buffer it returns their value, which is below [2^32]; with fewer it
    raises [struct.error]. *)
Theorem to_uint32_little_endian (buffer : bytes) (start : Z) :
  0 <= start ->
  (start + 4 <= len buffer ->
   to_uint32 buffer start
   = inr (le_value (slice buffer start (start + 4)))
   /\ 0 <= le_value (slice buffer start (start + 4)) < 2 ^ 32)
  /\ (len buffer < start + 4 ->
      to_uint32 buffer start
      = raise (struct_error "unpack requires a buffer of 1 bytes")).
Proof.
  intros Hs. split; intros Hl.
  - split; [|apply (le_slice_range buffer start 4); assumption].
    rewrite (le_value_slice buffer 4) by assumption.
    rewrite to_uint32_value by assumption. cbn [le_at]. f_equal.
    rewrite <- !Z.add_assoc. add_numerals. lia.
  - unfold to_uint32. now rewrite to_uint8_absent by lia.
Qed.

Lemma to_uint32_little_endian_witness :
  to_uint32 [x78; x56; x34; x12] 0 = inr 0x12345678.
Proof.
  destruct (to_uint32_little_endian [x78; x56; x34; x12] 0 ltac:(lia))
    as [H _].
  destruct (H ltac:(unfold len; cbn [length]; lia)) as [Hv _]. exact Hv.
Defined.

(** X3: [to_uint64] reads eight bytes little-endian: with all eight in the
    buffer it returns their value, which is below [2^64]; with fewer it
    raises [struct.error]. *)
Theorem to_uint64_little_endian (buffer : bytes) (start : Z) :
  0 <= start ->
  (start + 8 <= len buffer ->
   to_uint64 buffer start
   = inr (le_value (slice buffer start (start + 8)))
   /\ 0 <= le_value (slice buffer start (start + 8)) < 2 ^ 64)
  /\ (len buffer < start + 8 ->
      to_uint64 buffer start
      = raise (struct_error "unpack requires a buffer of 1 bytes")).
Proof.
  intros Hs. split; intros Hl.
  - split; [|apply (le_slice_range buffer start 8); assumption].
    rewrite (le_value_slice buffer 8) by assumption.
    rewrite to_uint64_value by assumption. cbn [le_at]. f_equal.
    rewrite <- !Z.add_assoc. add_numerals. lia.
  - unfold to_uint64. now rewrite to_uint8_absent by lia.
Qed.

Lemma to_uint64_little_endian_witness :
  to_uint64 [x00; x10; x00; x00; x00; x00; x00; x00] 0 = inr 4096.
Proof.
  destruct (to_uint64_little_endian
              [x00; x10; x00; x00; x00; x00; x00; x00] 0 ltac:(lia))
    as [H _].
  destruct (H ltac:(unfold len; cbn [length]; lia)) as [Hv _]. exact Hv.
Defined.

(** *** round_up *)

(** X4: for a positive unit [round_up] returns the least multiple of the
    unit that is not below the value; for a zero unit it raises
    [ZeroDivisionError]. *)
Theorem round_up_least_multiple (value unit : Z) :
  (0 < unit ->
   exists r, round_up value unit = inr r
             /\ r mod unit = 0 /\ value <= r < value + unit)
  /\ (unit = 0 -> exists msg, round_up value unit
                              = inl (ZeroDivisionError msg)).
Proof.
  split.
  - intros Hu. unfold round_up.
    destruct (Z.eqb_spec unit 0) as [|_]; [lia|].
    eexists. split; [reflexivity|].
    pose proof (Z.div_mod (value + (unit - 1)) unit ltac:(lia)) as Hdm.
    pose proof (Z.mod_pos_bound (value + (unit - 1)) unit Hu) as Hm.
    split; [apply Z.mod_mul; lia|]. lia.
  - intros ->. unfold round_up. cbn. eauto.
Qed.

Lemma round_up_least_multiple_witness :
  exists r, round_up 41 4 = inr r /\ r mod 4 = 0 /\ 41 <= r < 41 + 4.
Proof.
  destruct (round_up_least_multiple 41 4) as [H _]. apply H. lia.
Defined.

(** *** The check of reserved bytes *)

Lemma slice_nonneg {A : Type} (s : list A) (lo hi : Z) :
  0 <= lo <= hi ->
  slice s lo hi = firstn (Z.to_nat (hi - lo)) (skipn (Z.to_nat lo) s).
Proof.
  intros [Hlo Hhi]. unfold slice, clamp_index.
  destruct (Z.ltb_spec lo 0); [lia|]. destruct (Z.ltb_spec hi 0); [lia|].
  destruct (Z.le_gt_cases (len s) lo) as [Hout|Hin].
  - rewrite (Z.min_r lo) by lia.
    unfold len. rewrite Nat2Z.id, skipn_all, firstn_nil.
    rewrite skipn_all2 by (unfold len in Hout; lia).
    now rewrite firstn_nil.
  - rewrite (Z.min_l lo) by lia.
    destruct (Z.le_gt_cases hi (len s)) as [Hh|Hh].
    + now rewrite Z.min_l by lia.
    + rewrite Z.min_r by lia.
      rewrite !firstn_all2; [reflexivity| |];
        rewrite length_skipn; unfold len in *; lia.
Qed.

Lemma forallb_firstn {A : Type} (f : A -> bool) (d : A) (l : list A) :
  forall n,
    forallb f (firstn n l) = true <->
    (forall i, (i < n)%nat -> (i < length l)%nat -> f (nth i l d) = true).
Proof.
  induction l as [|x t IH]; intros n.
  - rewrite firstn_nil. cbn. split; [intros _ i _ Hi; lia|reflexivity].
  - destruct n as [|n]; cbn [firstn forallb].
    + split; [intros _ i Hi; lia|reflexivity].
    + rewrite andb_true_iff, IH. split.
      * intros [Hx Ht] [|i] Hn Hl; [exact Hx|].
        cbn [nth]. apply Ht; cbn [length] in Hl; lia.
      * intros H. split.
        -- apply (H 0%nat); cbn [length]; lia.
        -- intros i Hn Hl. apply (H (S i)); cbn [length]; lia.
Qed.

(** X5: [_assert_reserve_space] passes exactly when every byte of the
    buffer that lies in the reserved range is zero; bytes of the range that
    lie past the end of the buffer are not looked at. *)
Theorem assert_reserve_space_zero_bytes (buffer : bytes) (start length : Z) :
  0 <= start -> 0 <= length ->
  BaseTag._assert_reserve_space buffer start length = inr tt <->
  (forall p, start <= p < start + length -> p < len buffer ->
             byte_at buffer p = 0).
Proof.
  intros Hs Hn. unfold BaseTag._assert_reserve_space.
  rewrite slice_nonneg by lia.
  replace (start + length - start) with length by lia.
  destruct (forallb _ _) eqn:Hall.
  - split; [|reflexivity]. intros _ p Hp Hl.
    pose proof (proj1 (forallb_firstn _ x00 _ _) Hall) as Hzero.
    clear Hall. rename Hzero into Hall.
    specialize (Hall (Z.to_nat (p - start))).
    rewrite length_skipn, nth_skipn in Hall.
    replace (Z.to_nat start + Z.to_nat (p - start))%nat
      with (Z.to_nat p) in Hall by lia.
    apply Z.eqb_eq. apply Hall; unfold len in Hl; lia.
  - split; [discriminate|]. intros H. exfalso.
    apply not_true_iff_false in Hall. apply Hall.
    apply (proj2 (forallb_firstn _ x00 _ _)). intros i Hi Hl.
    rewrite length_skipn in Hl. rewrite nth_skipn. apply Z.eqb_eq.
    replace (Z.to_nat start + i)%nat
      with (Z.to_nat (start + Z.of_nat i)) by lia.
    apply (H (start + Z.of_nat i)); unfold len; lia.
Qed.

Lemma assert_reserve_space_zero_bytes_witness :
  BaseTag._assert_reserve_space [x01; x00; x00] 1 480 = inr tt.
Proof.
  apply (assert_reserve_space_zero_bytes [x01; x00; x00] 1 480);
    [lia|lia|].
  intros p Hp Hl. change (len [x01; x00; x00]) with 3 in Hl.
  assert (Hcase : p = 1 \/ p = 2) by lia.
  destruct Hcase as [-> | ->]; reflexivity.
Defined.

(** *** What DescriptorTag accepts *)

Lemma to_uint16_le_at (buffer : bytes) (p : Z) :
  0 <= p -> p + 2 <= len buffer ->
  to_uint16 buffer p = inr (le_at buffer p 2).
Proof.
  intros Hp Hl. rewrite to_uint16_value by assumption.
  cbn [le_at]. f_equal. lia.
Qed.

Lemma to_uint32_le_at (buffer : bytes) (p : Z) :
  0 <= p -> p + 4 <= len buffer ->
  to_uint32 buffer p = inr (le_at buffer p 4).
Proof.
  intros Hp Hl. rewrite to_uint32_value by assumption.
  cbn [le_at]. f_equal. rewrite <- !Z.add_assoc. add_numerals. lia.
Qed.

Lemma to_uint64_le_at (buffer : bytes) (p : Z) :
  0 <= p -> p + 8 <= len buffer ->
  to_uint64 buffer p = inr (le_at buffer p 8).
Proof.
  intros Hp Hl. rewrite to_uint64_value by assumption.
  cbn [le_at]. f_equal. rewrite <- !Z.add_assoc. add_numerals. lia.
Qed.

Lemma le_at_range (buffer : bytes) (n : nat) :
  forall p, 0 <= le_at buffer p n < 256 ^ Z.of_nat n.
Proof.
  induction n as [|n IH]; intros p.
  - change (0 <= 0 < 1). lia.
  - cbn [le_at]. rewrite Nat2Z.inj_succ, Z.pow_succ_r by lia.
    pose proof (byte_at_range buffer p). specialize (IH (p + 1)). lia.
Qed.

Lemma sum_header_eval (buffer : bytes) (start : Z) (indices : list Z) :
  0 <= start -> Forall (fun i => 0 <= i /\ start + i < len buffer) indices ->
  forall acc,
    BaseTag.sum_header indices buffer start acc
    = inr (acc + fold_right Z.add 0
                   (map (header_byte buffer start)
                        (List.filter (fun i => negb (i =? 4)) indices))).
Proof.
  intros Hs Hall. induction Hall as [|i rest [Hi Hl] _ IH]; intros acc.
  - cbn. f_equal. lia.
  - cbn [BaseTag.sum_header List.filter].
    destruct (i =? 4); cbn [negb]; [apply IH|].
    rewrite to_uint8_byte_at by lia. cbn [bind]. rewrite IH.
    cbn [map fold_right]. f_equal. unfold header_byte, byte_at. lia.
Qed.

Lemma assert_checksum_eval (buffer : bytes) (start expected : Z) :
  0 <= start -> start + 16 <= len buffer ->
  BaseTag._assert_checksum buffer start expected
  = if header_sum buffer start mod 256 =? expected then inr tt
    else raise (Exception "Checksum was {0}, but {1} was expected").
Proof.
  intros Hs Hl. unfold BaseTag._assert_checksum.
  rewrite sum_header_eval; [|exact Hs|].
  - rewrite header_sum_unfold. cbn [bind].
    rewrite truncate_uint8_mod.
    + now destruct (_ =? _).
    + apply header_sum_nonneg.
    + rewrite Z2Nat.id; [reflexivity|].
      apply Z.div_pos; [apply header_sum_nonneg|lia].
  - unfold range. cbn [seq map]. repeat constructor; lia.
Qed.

Lemma assert_reserve_one (buffer : bytes) (p : Z) :
  0 <= p -> p + 1 <= len buffer ->
  BaseTag._assert_reserve_space buffer p 1
  = if byte_at buffer p =? 0 then inr tt
    else raise (Exception "Reserve space at {0} was not zero.").
Proof.
  intros Hp Hl. unfold BaseTag._assert_reserve_space.
  replace (p + 1) with (p + (0 + 1)) by lia. rewrite slice_cons by lia.
  rewrite slice_empty by lia. cbn [forallb].
  rewrite andb_true_r. reflexivity.
Qed.

(** The constructor, with the bit operations and loops worked out. *)
Lemma descriptor_tag_eval (buffer : bytes) (start : Z) :
  0 <= start ->
  DescriptorTag.__init__ buffer start =
  if len buffer - start <? 16
  then raise (Exception "{0} requires {1} bytes, but buffer only has {2}")
  else if le_at buffer start 2 =? TagIdentifier.unknown
  then raise (Exception "Tag Identifier was unknown")
  else if negb (header_sum buffer start mod 256 =? byte_at buffer (start + 4))
  then raise (Exception "Checksum was {0}, but {1} was expected")
  else if negb (byte_at buffer (start + 5) =? 0)
  then raise (Exception "Reserve space at {0} was not zero.")
  else inr (DescriptorTag.Make
              (le_at buffer start 2) (le_at buffer (start + 2) 2)
              (byte_at buffer (start + 4)) (byte_at buffer (start + 5))
              (le_at buffer (start + 6) 2) (le_at buffer (start + 8) 2)
              (le_at buffer (start + 10) 2) (le_at buffer (start + 12) 4)).
Proof.
  intros Hs. unfold DescriptorTag.__init__, BaseTag._assert_size.
  change (16 =? 0) with false. cbv iota.
  destruct (Z.ltb_spec (len buffer - start) 16) as [|Hl]; [reflexivity|].
  cbn [bind]. rewrite Z.add_0_r.
  rewrite !to_uint16_le_at, to_uint32_le_at, !to_uint8_byte_at by lia.
  cbn [bind].
  destruct (le_at buffer start 2 =? TagIdentifier.unknown); [reflexivity|].
  rewrite assert_checksum_eval by lia.
  destruct (header_sum buffer start mod 256 =? byte_at buffer (start + 4));
    cbn [negb bind]; [|reflexivity].
  rewrite assert_reserve_one by lia.
  destruct (byte_at buffer (start + 5) =? 0); reflexivity.
Qed.

(** X6: a [DescriptorTag] is constructed exactly when 16 bytes are there,
    the identifier is not 0, the checksum byte is right and byte 5 is zero;
    its fields are then the little-endian values of the header bytes. *)
Theorem descriptor_tag_accepts (buffer : bytes) (start : Z) :
  0 <= start ->
  ((exists tag, DescriptorTag.__init__ buffer start = inr tag) <->
   start + 16 <= len buffer
   /\ le_at buffer start 2 <> 0
   /\ header_sum buffer start mod 256 = byte_at buffer (start + 4)
   /\ byte_at buffer (start + 5) = 0)
  /\ (forall tag, DescriptorTag.__init__ buffer start = inr tag ->
        tag = DescriptorTag.Make
                (le_at buffer start 2) (le_at buffer (start + 2) 2)
                (byte_at buffer (start + 4)) 0
                (le_at buffer (start + 6) 2) (le_at buffer (start + 8) 2)
                (le_at buffer (start + 10) 2) (le_at buffer (start + 12) 4)).
Proof.
  intros Hs. rewrite descriptor_tag_eval by exact Hs.
  unfold TagIdentifier.unknown.
  destruct (Z.ltb_spec (len buffer - start) 16) as [Hshort|Hlong].
  { split; [|discriminate]. split; [intros [? H]; discriminate|lia]. }
  destruct (Z.eqb_spec (le_at buffer start 2) 0) as [Hid|Hid].
  { split; [|discriminate].
    split; [intros [? H]; discriminate|tauto]. }
  destruct (Z.eqb_spec (header_sum buffer start mod 256)
              (byte_at buffer (start + 4))) as [Hsum|Hsum]; cbn [negb].
  2: { split; [|discriminate].
       split; [intros [? H]; discriminate|tauto]. }
  destruct (Z.eqb_spec (byte_at buffer (start + 5)) 0) as [Hres|Hres];
    cbn [negb].
  2: { split; [|discriminate].
       split; [intros [? H]; discriminate|tauto]. }
  split.
  - split; [intros _|eauto]. repeat split; try assumption. lia.
  - intros tag [= <-]. now rewrite Hres.
Qed.

(** An anchor tag: identifier 2, version 3, serial 1, location 256. *)
Definition anchor_tag_bytes : bytes :=
  [x02; x00; x03; x00; x07; x00; x01; x00;
   x00; x00; x00; x00; x00; x01; x00; x00].

Lemma descriptor_tag_accepts_witness :
  DescriptorTag.__init__ anchor_tag_bytes 0
  = inr (DescriptorTag.Make 2 3 7 0 1 0 0 256).
Proof.
  destruct (descriptor_tag_accepts anchor_tag_bytes 0 ltac:(lia))
    as [[_ Hbuilt] Hfields].
  destruct Hbuilt as [tag Htag].
  - change (len anchor_tag_bytes) with 16.
    repeat split; try reflexivity; try lia; discriminate.
  - rewrite Htag. f_equal. exact (Hfields tag Htag).
Defined.

(** *** Short allocation descriptors and the extents made of them *)

Lemma short_descriptor_parse (buffer : bytes) (start : Z) :
  0 <= start ->
  (start + 8 <= len buffer ->
   exists sad,
     ShortAllocationDescriptor.__init__ buffer start = inr sad
     /\ ShortAllocationDescriptor.flags sad * 2 ^ 30
        + ShortAllocationDescriptor.extent_length sad
        = le_at buffer start 4
     /\ 0 <= ShortAllocationDescriptor.extent_length sad < 2 ^ 30
     /\ 0 <= ShortAllocationDescriptor.flags sad < 4
     /\ ShortAllocationDescriptor.extent_location sad
        = le_at buffer (start + 4) 4)
  /\ (len buffer < start + 8 ->
      exists e, ShortAllocationDescriptor.__init__ buffer start = inl e).
Proof.
  intros Hs. unfold ShortAllocationDescriptor.__init__, BaseTag._assert_size,
    ShortAllocationDescriptor.size.
  change (8 =? 0) with false. cbv iota. split; intros Hl.
  - destruct (Z.ltb_spec (len buffer - start) 8); [lia|]. cbn [bind].
    rewrite !to_uint32_le_at by lia. cbn [bind].
    eexists. split; [reflexivity|].
    cbn [ShortAllocationDescriptor.flags
         ShortAllocationDescriptor.extent_length
         ShortAllocationDescriptor.extent_location].
    pose proof (le_at_range buffer 4 start) as Hr.
    change (256 ^ Z.of_nat 4) with (2 ^ 32) in Hr.
    set (w := le_at buffer start 4) in *.
    change 1073741823 with (Z.ones 30). change 3 with (Z.ones 2).
    rewrite !Z.land_ones, Z.shiftr_div_pow2 by lia.
    pose proof (Z.div_mod w (2 ^ 30) ltac:(lia)) as Hdm.
    pose proof (Z.mod_pos_bound w (2 ^ 30) ltac:(lia)) as Hm.
    assert (Hq : 0 <= w / 2 ^ 30 < 4).
    { split; [apply Z.div_pos; lia|].
      apply Z.div_lt_upper_bound; lia. }
    rewrite (Z.mod_small (w / 2 ^ 30)) by (change (2 ^ 2) with 4; lia).
    repeat split; try lia.
  - destruct (Z.ltb_spec (len buffer - start) 8); [eauto|lia].
Qed.

(** X7: a [ShortAllocationDescriptor] is built from any eight bytes; its
    flags and its extent length are the top two and the low thirty bits of
    the first 32-bit word, its location is the second word; with fewer than
    eight bytes the constructor raises. *)
Theorem short_allocation_descriptor_fields (buffer : bytes) (start : Z) :
  0 <= start ->
  (start + 8 <= len buffer ->
   exists sad,
     ShortAllocationDescriptor.__init__ buffer start = inr sad
     /\ ShortAllocationDescriptor.flags sad * 2 ^ 30
        + ShortAllocationDescriptor.extent_length sad
        = le_at buffer start 4
     /\ 0 <= ShortAllocationDescriptor.extent_length sad < 2 ^ 30
     /\ 0 <= ShortAllocationDescriptor.flags sad < 4
     /\ ShortAllocationDescriptor.extent_location sad
        = le_at buffer (start + 4) 4)
  /\ (len buffer < start + 8 ->
      exists e, ShortAllocationDescriptor.__init__ buffer start = inl e).
Proof. apply short_descriptor_parse. Qed.

Lemma short_allocation_descriptor_fields_witness :
  exists sad,
    ShortAllocationDescriptor.__init__
      [x00; x08; x00; x40; x01; x00; x00; x00] 0 = inr sad
    /\ ShortAllocationDescriptor.flags sad = 1
    /\ ShortAllocationDescriptor.extent_length sad = 2048.
Proof.
  destruct (short_allocation_descriptor_fields
              [x00; x08; x00; x40; x01; x00; x00; x00] 0 ltac:(lia))
    as [H _].
  destruct (H ltac:(unfold len; cbn [length]; lia))
    as (sad & Hsad & Hword & Hlen & Hflags & _).
  exists sad. split; [exact Hsad|].
  change (le_at [x00; x08; x00; x40; x01; x00; x00; x00] 0 4)
    with (1 * 2 ^ 30 + 2048) in Hword.
  lia.
Defined.

(** Extents that follow one another from [offset] on without gap or
    overlap, none of them empty, all in the partition of the file. *)
Fixpoint tiled (offset : Z) (extents : list CookedExtent.t) : Prop :=
  match extents with
  | [] => True
  | extent :: rest =>
    CookedExtent.file_content_offset extent = offset
    /\ 0 < CookedExtent.length extent < 2 ^ 30
    /\ CookedExtent.partition extent = MAX_INT
    /\ tiled (offset + CookedExtent.length extent) rest
  end.

(** The bytes that the extents cover. *)
Fixpoint covered (extents : list CookedExtent.t) : Z :=
  match extents with
  | [] => 0
  | extent :: rest => CookedExtent.length extent + covered rest
  end.

Lemma tiled_app (extents : list CookedExtent.t) (extent : CookedExtent.t) :
  forall offset,
    tiled offset extents ->
    CookedExtent.file_content_offset extent = offset + covered extents ->
    0 < CookedExtent.length extent < 2 ^ 30 ->
    CookedExtent.partition extent = MAX_INT ->
    tiled offset (extents ++ [extent]).
Proof.
  induction extents as [|e rest IH]; intros offset Ht Ho Hl Hp.
  - cbn in *. repeat split; lia.
  - cbn [tiled covered app] in *.
    destruct Ht as (He & Hel & Hep & Hrest).
    repeat split; try assumption; try lia.
    apply IH; try assumption. lia.
Qed.

Lemma covered_app (l1 l2 : list CookedExtent.t) :
  covered (l1 ++ l2) = covered l1 + covered l2.
Proof.
  induction l1 as [|e l1 IH]; cbn [covered app]; lia.
Qed.

Lemma load_short_tiled (active_buffer : bytes) (block_size : Z) :
  forall fuel file_pos i extents result,
    0 <= i -> tiled 0 extents -> file_pos = covered extents ->
    FileContentBuffer.load_short fuel active_buffer block_size file_pos i
                                 extents = Some (inr result) ->
    tiled 0 result.
Proof.
  induction fuel as [|fuel IH];
    intros file_pos i extents result Hi Ht Hpos H; [discriminate|].
  cbn [FileContentBuffer.load_short] in H.
  destruct (Z.ltb_spec i (len active_buffer)) as [Hin|_];
    [|now injection H as <-].
  destruct (short_descriptor_parse active_buffer i Hi) as [Hok Hshort].
  destruct (Z.le_gt_cases (i + 8) (len active_buffer)) as [Hroom|Hcut].
  - destruct (Hok Hroom) as (sad & Hsad & _ & Hlen & _).
    rewrite Hsad in H.
    destruct (Z.eqb_spec (ShortAllocationDescriptor.extent_length sad) 0);
      [now injection H as <-|].
    destruct (negb _); [discriminate|].
    apply IH in H; [exact H| | |].
    + unfold ShortAllocationDescriptor.size. lia.
    + apply tiled_app; cbn; try assumption; lia.
    + rewrite covered_app. cbn. lia.
  - destruct (Hshort Hcut) as [e He]. rewrite He in H. discriminate.
Qed.

(** X8: the extents that [load_extents] builds from short descriptors tile
    the file content: the first starts at 0, each next one starts where the
    one before ends, none is empty or 1 GiB long, and all carry the marker
    of the file's own partition. *)
Theorem load_extents_tiled (file_entry : FileEntry.t) (block_size : Z)
    (extents : list CookedExtent.t) :
  FileContentBuffer.load_extents file_entry block_size
  = Some (inr extents) ->
  ICBTag.allocation_type (FileEntry.icb_tag file_entry)
  = AllocationType.short_descriptors
  /\ tiled 0 extents.
Proof.
  unfold FileContentBuffer.load_extents. intros H.
  destruct (Z.eqb_spec (ICBTag.allocation_type (FileEntry.icb_tag file_entry))
              AllocationType.short_descriptors) as [Hshort|_].
  - split; [exact Hshort|].
    apply load_short_tiled in H; [exact H|lia|exact I|reflexivity].
  - destruct (_ =? AllocationType.embedded); [discriminate|].
    destruct (_ =? AllocationType.long_descriptors); discriminate.
Qed.

(** A directory of 420 bytes in one extent at block 3, then a second
    extent of 2048 bytes at block 9. *)
Definition sample_entry : FileEntry.t :=
  FileEntry.Make (ICBTag.Make 4 AllocationType.short_descriptors 0) 2468
    [xa4; x01; x00; x00; x03; x00; x00; x00;
     x00; x08; x00; x00; x09; x00; x00; x00].

Definition sample_extents : list CookedExtent.t :=
  [CookedExtent.Make 0 MAX_INT 6144 420;
   CookedExtent.Make 420 MAX_INT 18432 2048].

Lemma sample_extents_loaded :
  FileContentBuffer.load_extents sample_entry 2048
  = Some (inr sample_extents).
Proof. vm_compute. reflexivity. Qed.

Lemma load_extents_tiled_witness : tiled 0 sample_extents.
Proof.
  apply (load_extents_tiled sample_entry 2048 sample_extents
           sample_extents_loaded).
Defined.

(** *** Finding an extent and reading inside it *)

Lemma tiled_offset_ge (extents : list CookedExtent.t) :
  forall offset extent,
    tiled offset extents -> In extent extents ->
    offset <= CookedExtent.file_content_offset extent
    /\ CookedExtent.file_content_offset extent + CookedExtent.length extent
       <= offset + covered extents
    /\ 0 < CookedExtent.length extent
    /\ CookedExtent.partition extent = MAX_INT.
Proof.
  induction extents as [|e rest IH]; intros offset extent Ht Hin; [easy|].
  cbn [tiled covered] in *. destruct Ht as (He & Hel & Hep & Hrest).
  assert (Hcov : 0 <= covered rest).
  { clear -Hrest. revert Hrest. generalize (offset + CookedExtent.length e).
    induction rest as [|r rest IHr]; intros o Ht; cbn [covered tiled] in *;
      [lia|]. destruct Ht as (_ & Hl & _ & Hr). specialize (IHr _ Hr). lia. }
  destruct Hin as [<-|Hin].
  - repeat split; try assumption; lia.
  - destruct (IH _ _ Hrest Hin) as (H1 & H2 & H3 & H4).
    repeat split; try assumption; lia.
Qed.

Lemma find_extent_in_tiled (extents : list CookedExtent.t) (pos : Z) :
  forall offset,
    tiled offset extents -> offset <= pos ->
    match FileContentBuffer.find_extent_in extents pos with
    | Some extent =>
      In extent extents
      /\ CookedExtent.file_content_offset extent <= pos
         < CookedExtent.file_content_offset extent
           + CookedExtent.length extent
    | None => offset + covered extents <= pos
    end.
Proof.
  induction extents as [|e rest IH]; intros offset Ht Hpos.
  - cbn. lia.
  - cbn [FileContentBuffer.find_extent_in tiled covered] in *.
    destruct Ht as (He & Hel & Hep & Hrest).
    destruct (Z.gtb_spec (CookedExtent.file_content_offset e
                          + CookedExtent.length e) pos) as [Hin|Hout].
    + split; [now left|lia].
    + specialize (IH _ Hrest ltac:(lia)).
      destruct (FileContentBuffer.find_extent_in rest pos) as [x|].
      * destruct IH as [Hx Hr]. split; [now right|exact Hr].
      * lia.
Qed.

(** X9: on the extents built from short descriptors, [find_extent] returns
    the extent that holds the position, for every position from 0 up to
    the bytes covered; from there on it returns [None]. *)
Theorem find_extent_holds_position (self : FileContentBuffer.t) (pos : Z) :
  tiled 0 (FileContentBuffer.extents self) -> 0 <= pos ->
  (pos < covered (FileContentBuffer.extents self) ->
   exists extent,
     FileContentBuffer.find_extent self pos = Some extent
     /\ In extent (FileContentBuffer.extents self)
     /\ CookedExtent.file_content_offset extent <= pos
        < CookedExtent.file_content_offset extent
          + CookedExtent.length extent)
  /\ (covered (FileContentBuffer.extents self) <= pos ->
      FileContentBuffer.find_extent self pos = None).
Proof.
  intros Ht Hpos. unfold FileContentBuffer.find_extent.
  pose proof (find_extent_in_tiled _ pos 0 Ht Hpos) as H.
  destruct (FileContentBuffer.find_extent_in
              (FileContentBuffer.extents self) pos) as [extent|].
  - destruct H as [Hin Hr]. split; [eauto|]. intros Hout.
    destruct (tiled_offset_ge _ 0 extent Ht Hin) as (_ & Hend & _). lia.
  - split; [lia|reflexivity].
Qed.

Definition sample_buffer : FileContentBuffer.t :=
  FileContentBuffer.Make sample_partition sample_entry 2048 sample_extents.

Lemma sample_extents_tiled : tiled 0 sample_extents.
Proof. cbn. unfold MAX_INT. repeat split; lia. Qed.

Lemma find_extent_holds_position_witness :
  FileContentBuffer.find_extent sample_buffer 2468 = None
  /\ exists extent,
       FileContentBuffer.find_extent sample_buffer 420 = Some extent
       /\ CookedExtent.file_content_offset extent = 420.
Proof.
  destruct (find_extent_holds_position sample_buffer 2468
              sample_extents_tiled ltac:(lia)) as [_ Hout].
  destruct (find_extent_holds_position sample_buffer 420
              sample_extents_tiled ltac:(lia)) as [Hin _].
  split; [apply Hout; cbn; lia|].
  destruct (Hin ltac:(cbn; lia)) as (extent & Hfind & _).
  exists extent. split; [exact Hfind|].
  cbn in Hfind. now injection Hfind as <-.
Defined.

Lemma find_extent_in_unique (extents : list CookedExtent.t) (pos : Z) :
  forall offset extent,
    tiled offset extents -> In extent extents ->
    CookedExtent.file_content_offset extent <= pos
    < CookedExtent.file_content_offset extent + CookedExtent.length extent ->
    FileContentBuffer.find_extent_in extents pos = Some extent.
Proof.
  induction extents as [|e rest IH]; intros offset extent Ht Hin Hpos;
    [easy|].
  cbn [FileContentBuffer.find_extent_in tiled] in *.
  destruct Ht as (He & Hel & Hep & Hrest).
  destruct Hin as [->|Hin].
  - destruct (Z.gtb_spec (CookedExtent.file_content_offset extent
                          + CookedExtent.length extent) pos); [reflexivity|].
    lia.
  - destruct (tiled_offset_ge _ _ _ Hrest Hin) as (Hge & _).
    destruct (Z.gtb_spec (CookedExtent.file_content_offset e
                          + CookedExtent.length e) pos); [lia|].
    now apply (IH _ _ Hrest).
Qed.

(** One read of [n > 0] bytes that the file has, at position [p]. *)
Lemma read_available (data : bytes) (p n : Z) :
  0 <= p -> 0 < n -> p + n <= len data ->
  read (File data p) n = (slice data p (p + n), File data (p + n))
  /\ len (slice data p (p + n)) = n.
Proof.
  intros Hp Hn Hl. unfold read. cbn [f_data f_pos].
  destruct (Z.ltb_spec n 0); [lia|].
  rewrite <- slice_inside by lia.
  rewrite len_slice_inside by lia. split; reflexivity.
Qed.

(** A read that stays inside one extent of a buffer built from short
    descriptors. *)
Lemma read_in_extent (partition : LogicalPartition.t)
    (file_entry : FileEntry.t) (block_size : Z) (self : FileContentBuffer.t)
    (extent : CookedExtent.t) (data : bytes) (p0 pos offset n : Z) :
  FileContentBuffer.__init__ partition file_entry block_size
  = Some (inr self) ->
  In extent (FileContentBuffer.extents self) ->
  CookedExtent.file_content_offset extent <= pos -> 0 < n ->
  pos + n <= CookedExtent.file_content_offset extent
             + CookedExtent.length extent ->
  pos + n <= FileContentBuffer.capacity self ->
  let image_pos :=
    CookedExtent.start_pos extent
    + (pos - CookedExtent.file_content_offset extent)
    + PhysicalPartition._start
        (LogicalPartition.physical_partition partition) in
  0 <= image_pos -> image_pos + n <= len data ->
  FileContentBuffer.read self (File data p0) pos offset n
  = Some (inr (slice data image_pos (image_pos + n)), File data (image_pos + n)).
Proof.
  intros Hinit Hin Hlo Hn Hhi Hcap at_ Hat Hlen.
  unfold FileContentBuffer.__init__ in Hinit.
  destruct (FileContentBuffer.load_extents file_entry block_size)
    as [[e|extents]|] eqn:Hload; try discriminate.
  injection Hinit as <-.
  unfold FileContentBuffer.load_extents in Hload.
  destruct (Z.eqb_spec (ICBTag.allocation_type (FileEntry.icb_tag file_entry))
              AllocationType.short_descriptors) as [Hshort|Hother].
  2: { destruct (_ =? AllocationType.embedded); [discriminate|].
       destruct (_ =? AllocationType.long_descriptors); discriminate. }
  apply load_short_tiled in Hload; [|lia|exact I|reflexivity].
  cbn [FileContentBuffer.extents] in Hin.
  destruct (tiled_offset_ge _ _ _ Hload Hin) as (Hge & _ & _ & Hpart).
  unfold FileContentBuffer.read, FileContentBuffer.read_from_extents,
    FileContentBuffer.capacity in *.
  cbn [FileContentBuffer.file_entry] in *.
  rewrite Hshort. change (AllocationType.short_descriptors
                          =? AllocationType.embedded) with false. cbv iota.
  rewrite Z.min_r by lia.
  destruct (Z.to_nat n) as [|fuel] eqn:Hfuel; [lia|].
  cbn [FileContentBuffer.read_loop].
  destruct (Z.ltb_spec 0 n); [|lia].
  unfold FileContentBuffer.find_extent. cbn [FileContentBuffer.extents].
  rewrite Z.add_0_r.
  rewrite (find_extent_in_unique extents pos 0 extent Hload Hin) by lia.
  rewrite Hpart, Z.eqb_refl. cbn [negb]. cbn [FileContentBuffer.partition].
  fold at_. destruct (Z.ltb_spec at_ 0); [lia|].
  rewrite Z.sub_0_r, Z.min_l by lia. unfold seek. cbn [f_data].
  destruct (read_available data at_ n Hat Hn Hlen) as [-> Hgot].
  rewrite Hgot. destruct (Z.eqb_spec n 0); [lia|].
  rewrite Z.add_0_l, Z.ltb_irrefl. reflexivity.
Qed.

(** X10: on a buffer built from short descriptors, a read that stays
    inside one extent returns exactly the bytes of the image that the
    extent maps them to: those at the start of the partition, plus the
    start of the extent, plus the distance into the extent. *)
Theorem read_inside_one_extent (partition : LogicalPartition.t)
    (file_entry : FileEntry.t) (block_size : Z) (self : FileContentBuffer.t)
    (extent : CookedExtent.t) (data : bytes) (p0 pos offset n : Z) :
  FileContentBuffer.__init__ partition file_entry block_size
  = Some (inr self) ->
  In extent (FileContentBuffer.extents self) ->
  CookedExtent.file_content_offset extent <= pos -> 0 < n ->
  pos + n <= CookedExtent.file_content_offset extent
             + CookedExtent.length extent ->
  pos + n <= FileContentBuffer.capacity self ->
  let image_pos :=
    CookedExtent.start_pos extent
    + (pos - CookedExtent.file_content_offset extent)
    + PhysicalPartition._start
        (LogicalPartition.physical_partition partition) in
  0 <= image_pos -> image_pos + n <= len data ->
  FileContentBuffer.read self (File data p0) pos offset n
  = Some (inr (slice data image_pos (image_pos + n)), File data (image_pos + n)).
Proof. apply read_in_extent. Qed.

Lemma read_inside_one_extent_witness :
  FileContentBuffer.read
    (FileContentBuffer.Make sample_partition two_extent_entry 2048
       [CookedExtent.Make 0 MAX_INT 0 2048;
        CookedExtent.Make 2048 MAX_INT 2048 2048])
    (open_rb two_block_image) 2100 0 50
  = Some (inr (slice two_block_image 2100 2150), File two_block_image 2150).
Proof.
  apply (read_inside_one_extent sample_partition two_extent_entry 2048 _
           (CookedExtent.Make 2048 MAX_INT 2048 2048) two_block_image
           0 2100 0 50).
  - vm_compute. reflexivity.
  - right. left. reflexivity.
  - vm_compute. discriminate.
  - lia.
  - vm_compute. discriminate.
  - vm_compute. discriminate.
  - vm_compute. discriminate.
  - vm_compute. discriminate.
Defined.

(** *** Compressed unicode *)

Lemma chr_ord (c : byte) : chr (ord c) = c.
Proof. destruct c; reflexivity. Qed.

Lemma slice_self (buffer : bytes) (p : Z) : slice buffer p p = [].
Proof.
  unfold slice. rewrite Z.sub_diag. reflexivity.
Qed.

Lemma slice_head (buffer : bytes) (p q : Z) :
  0 <= p -> p < q -> q <= len buffer ->
  slice buffer p q = nth (Z.to_nat p) buffer x00 :: slice buffer (p + 1) q.
Proof.
  intros Hp Hq Hl.
  replace q with (p + ((q - p - 1) + 1)) at 1 by lia.
  rewrite slice_cons by lia. do 2 f_equal. lia.
Qed.

(** The 8-bit loop appends the code points of the bytes left. *)
Lemma dchars_loop_8bit (buffer : bytes) (offset count : Z) :
  0 <= offset -> offset + count <= len buffer ->
  forall fuel pos result,
    1 <= pos <= count -> (Z.to_nat (count - pos) < fuel)%nat ->
    dchars_loop fuel buffer offset count 8 pos result
    = Some (inr (result
                 ++ map ord (slice buffer (offset + pos) (offset + count)))).
Proof.
  intros Hoff Hlen. induction fuel as [|fuel IH]; intros pos result Hpos Hfuel;
    [lia|].
  cbn [dchars_loop]. destruct (Z.ltb_spec pos count) as [Hlt|Hge].
  - change (to_uint8 [x00] 0) with (@inr exn Z 0).
    change (8 =? 16) with false. cbv iota.
    destruct (Z.ltb_spec pos count); [|lia].
    rewrite to_uint8_byte_at by lia. cbn [bind]. rewrite Z.lor_0_l.
    rewrite IH by lia.
    rewrite (slice_head buffer (offset + pos)) by lia.
    cbn [map]. rewrite <- app_assoc. cbn [app].
    unfold byte_at. rewrite Z.add_assoc. reflexivity.
  - replace pos with count by lia. rewrite slice_self, app_nil_r.
    reflexivity.
Qed.

Lemma for_each_single (f : Z -> error + bytes) (cs : bytes) :
  Forall (fun c => f (ord c) = inr [c]) cs ->
  (let* result := for_each f (map ord cs) in inr (concat result))
  = inr cs.
Proof.
  intros H.
  assert (Hall : for_each f (map ord cs) = inr (map (fun c => [c]) cs)).
  { induction H as [|c cs Hc _ IH]; [reflexivity|].
    cbn [map for_each]. rewrite Hc, IH. reflexivity. }
  rewrite Hall. cbn [ebind]. f_equal.
  clear. induction cs as [|c cs IH]; [reflexivity|].
  cbn [map concat app]. now rewrite IH.
Qed.

(** What Python 3 makes of one byte of an 8-bit name: the UTF-8 encoding
    of the code point with the value of the byte. *)
Definition latin1_utf8 (c : byte) : bytes :=
  if ord c <? 128 then [c]
  else [chr (192 + ord c / 64); chr (128 + ord c mod 64)].

Lemma chr_utf8_byte (c : byte) : chr_utf8 (ord c) = inr (latin1_utf8 c).
Proof.
  unfold chr_utf8, latin1_utf8. pose proof (ord_range c).
  destruct (Z.ltb_spec (ord c) 0); [lia|].
  destruct (Z.ltb_spec 1114111 (ord c)); [lia|]. cbn [orb].
  destruct (Z.ltb_spec (ord c) 128); [now rewrite chr_ord|].
  destruct (Z.ltb_spec (ord c) 2048); [reflexivity|lia].
Qed.

Lemma for_each_map {A B C : Type} (f : B -> error + C) (g : A -> B)
    (h : A -> C) (l : list A) :
  (forall x, f (g x) = inr (h x)) ->
  for_each f (map g l) = inr (map h l).
Proof.
  intros H. induction l as [|x l IH]; [reflexivity|].
  cbn [map for_each]. rewrite H, IH. reflexivity.
Qed.

Lemma len_latin1_utf8 (cs : bytes) :
  len cs <= len (concat (map latin1_utf8 cs))
  /\ (len (concat (map latin1_utf8 cs)) = len cs ->
      Forall (fun c => ord c < 128) cs).
Proof.
  induction cs as [|c cs [IHle IHeq]]; [split; [reflexivity|constructor]|].
  cbn [map concat]. rewrite len_app. unfold len in *. cbn [length].
  unfold latin1_utf8 at 1 3. destruct (Z.ltb_spec (ord c) 128) as [Hlt|Hge];
    cbn [length]; split; try lia.
  intros Heq. constructor; [exact Hlt|]. apply IHeq. lia.
Qed.

(** X11: for a name stored with compression ID 8, Python 2 and Python 3
    give the same bytes exactly when every byte of the name is below 128;
    Python 2 gives the bytes as stored, Python 3 the UTF-8 encoding of
    each byte read as a code point. *)
Theorem to_dchars_8bit_versions (buffer : bytes) (offset count : Z) :
  0 <= offset -> 0 < count -> offset + count <= len buffer ->
  byte_at buffer offset = 8 ->
  let name := slice buffer (offset + 1) (offset + count) in
  to_dchars true buffer offset count = Some (inr name)
  /\ to_dchars false buffer offset count
     = Some (inr (concat (map latin1_utf8 name)))
  /\ (to_dchars true buffer offset count = to_dchars false buffer offset count
      <-> Forall (fun c => ord c < 128) name).
Proof.
  intros Hoff Hcount Hlen Hid name.
  assert (Hpy2 : to_dchars true buffer offset count = Some (inr name)).
  { unfold to_dchars. destruct (Z.eqb_spec count 0); [lia|].
    rewrite to_uint8_byte_at by lia. rewrite Hid.
    change (negb ((8 =? 8) || (8 =? 16))) with false. cbv iota.
    rewrite (dchars_loop_8bit buffer offset count Hoff Hlen) by lia.
    cbn [app]. f_equal. apply for_each_single.
    apply Forall_forall. intros c _. unfold chr_py2.
    pose proof (ord_range c).
    destruct (Z.leb_spec 0 (ord c)); [|lia].
    destruct (Z.ltb_spec (ord c) 256); [|lia].
    cbn [andb]. now rewrite chr_ord. }
  assert (Hpy3 : to_dchars false buffer offset count
                 = Some (inr (concat (map latin1_utf8 name)))).
  { unfold to_dchars. destruct (Z.eqb_spec count 0); [lia|].
    rewrite to_uint8_byte_at by lia. rewrite Hid.
    change (negb ((8 =? 8) || (8 =? 16))) with false. cbv iota.
    rewrite (dchars_loop_8bit buffer offset count Hoff Hlen) by lia.
    cbn [app]. fold name.
    rewrite (for_each_map chr_utf8 ord latin1_utf8 name chr_utf8_byte).
    reflexivity. }
  split; [exact Hpy2|]. split; [exact Hpy3|].
  rewrite Hpy2, Hpy3. split.
  - intros Heq. apply len_latin1_utf8. injection Heq as Heq.
    now rewrite <- Heq.
  - intros Hascii. do 2 f_equal. clear Hpy2 Hpy3.
    induction Hascii as [|c cs Hc _ IH]; [reflexivity|].
    cbn [map concat]. rewrite <- IH. unfold latin1_utf8.
    destruct (Z.ltb_spec (ord c) 128); [reflexivity|lia].
Qed.

Lemma to_dchars_8bit_versions_witness :
  to_dchars true [x08; xe9] 0 2 = Some (inr [xe9])
  /\ to_dchars false [x08; xe9] 0 2 = Some (inr [xc3; xa9]).
Proof.
  destruct (to_dchars_8bit_versions [x08; xe9] 0 2) as (H2 & H3 & _).
  - lia.
  - lia.
  - vm_compute. discriminate.
  - reflexivity.
  - split; [exact H2|exact H3].
Defined.

(** The code units of a 16-bit name: pairs of bytes, the first the high
    one; a last byte without a second is the high byte of a last unit. *)
Fixpoint code_units (cs : bytes) : list Z :=
  match cs with
  | hi :: lo :: rest => (256 * ord hi + ord lo) :: code_units rest
  | [hi] => [256 * ord hi]
  | [] => []
  end.

Lemma shifted_byte (hi lo : Z) :
  0 <= hi < 256 -> 0 <= lo < 256 ->
  Z.shiftl hi 8 = 256 * hi /\ Z.lor (Z.shiftl hi 8) lo = 256 * hi + lo.
Proof.
  intros Hhi Hlo. rewrite Z.shiftl_mul_pow2 by lia.
  change (2 ^ 8) with 256. split; [lia|].
  rewrite (lor_disjoint (hi * 256) lo 8); [lia|lia| |exact Hlo].
  change (2 ^ 8) with 256. now rewrite Z.mod_mul.
Qed.

Lemma dchars_loop_16bit (buffer : bytes) (offset count : Z) :
  0 <= offset -> offset + count <= len buffer ->
  forall fuel pos result,
    1 <= pos <= count -> (Z.to_nat (count - pos) < fuel)%nat ->
    dchars_loop fuel buffer offset count 16 pos result
    = Some (inr (result
                 ++ code_units (slice buffer (offset + pos)
                                      (offset + count)))).
Proof.
  intros Hoff Hlen. induction fuel as [|fuel IH]; intros pos result Hpos Hfuel;
    [lia|].
  cbn [dchars_loop]. destruct (Z.ltb_spec pos count) as [Hlt|Hge].
  - change (to_uint8 [x00] 0) with (@inr exn Z 0).
    change (16 =? 16) with true. cbv iota.
    rewrite to_uint8_byte_at by lia. cbn [bind].
    rewrite (slice_head buffer (offset + pos)) by lia.
    pose proof (byte_at_range buffer (offset + pos)) as Hhi.
    destruct (Z.ltb_spec (pos + 1) count) as [Hlt2|Hge2].
    + rewrite to_uint8_byte_at by lia. cbn [bind].
      rewrite (slice_head buffer (offset + pos + 1)) by lia.
      pose proof (byte_at_range buffer (offset + (pos + 1))) as Hlo.
      rewrite (proj2 (shifted_byte _ _ Hhi Hlo)).
      rewrite IH by lia. cbn [code_units]. rewrite <- app_assoc. cbn [app].
      unfold byte_at. rewrite !Z.add_assoc. reflexivity.
    + replace (offset + pos + 1) with (offset + count) by lia.
      rewrite slice_self. cbn [code_units].
      rewrite (proj1 (shifted_byte _ 0 Hhi ltac:(lia))).
      destruct fuel as [|fuel]; [lia|]. cbn [dchars_loop].
      destruct (Z.ltb_spec (pos + 1) count); [lia|]. reflexivity.
  - replace pos with count by lia. rewrite slice_self, app_nil_r.
    reflexivity.
Qed.

(** X12: a name stored with compression ID 16 is read as 16-bit code
    units with the high byte first; when the bytes after the ID are odd
    in number, the last one is the high byte of a last unit. Each unit is
    then turned into bytes as the Python version does it, and the first
    unit that cannot be ends the call. *)
Theorem to_dchars_16bit_units (IS_PY2 : bool) (buffer : bytes)
    (offset count : Z) :
  0 <= offset -> 0 < count -> offset + count <= len buffer ->
  byte_at buffer offset = 16 ->
  to_dchars IS_PY2 buffer offset count
  = Some (let* result :=
            for_each (if IS_PY2 then chr_py2 else chr_utf8)
                     (code_units (slice buffer (offset + 1)
                                        (offset + count))) in
          inr (concat result)).
Proof.
  intros Hoff Hcount Hlen Hid. unfold to_dchars.
  destruct (Z.eqb_spec count 0); [lia|].
  rewrite to_uint8_byte_at by lia. rewrite Hid.
  change (negb ((16 =? 8) || (16 =? 16))) with false. cbv iota.
  rewrite (dchars_loop_16bit buffer offset count Hoff Hlen) by lia.
  reflexivity.
Qed.

Lemma to_dchars_16bit_units_witness :
  to_dchars false [x10; x00; x41; x30; x42; x00] 0 6
  = Some (inr [x41; xe3; x81; x82; x00])
  /\ to_dchars true [x10; x00; x41; x30; x42; x00] 0 6
     = Some (inl (ValueError "chr() arg not in range(256)")).
Proof.
  split.
  - rewrite (to_dchars_16bit_units false [x10; x00; x41; x30; x42; x00] 0 6);
      [reflexivity|lia|lia|vm_compute; discriminate|reflexivity].
  - rewrite (to_dchars_16bit_units true [x10; x00; x41; x30; x42; x00] 0 6);
      [reflexivity|lia|lia|vm_compute; discriminate|reflexivity].
Defined.

(** [to_dchars] returns: every turn of its loop moves [pos] forward. *)
Lemma dchars_loop_returns (buffer : bytes) (offset count alg : Z) :
  forall fuel pos result,
    (Z.to_nat (count - pos) < fuel)%nat ->
    exists r, dchars_loop fuel buffer offset count alg pos result = Some r.
Proof.
  induction fuel as [|fuel IH]; intros pos result Hfuel; [lia|].
  cbn [dchars_loop]. destruct (Z.ltb_spec pos count) as [Hlt|Hge]; [|eauto].
  change (to_uint8 [x00] 0) with (@inr exn Z 0). cbv iota.
  destruct (alg =? 16).
  - destruct (to_uint8 buffer (offset + pos)) as [e|hi]; cbn [bind]; [eauto|].
    destruct (Z.ltb_spec (pos + 1) count).
    + destruct (to_uint8 buffer (offset + (pos + 1))) as [e|lo]; cbn [bind];
        [eauto|]. apply IH. lia.
    + apply IH. lia.
  - destruct (Z.ltb_spec pos count); [|lia].
    destruct (to_uint8 buffer (offset + pos)) as [e|lo]; cbn [bind]; [eauto|].
    apply IH. lia.
Qed.

Lemma to_dchars_returns (IS_PY2 : bool) (buffer : bytes) (offset count : Z) :
  exists r, to_dchars IS_PY2 buffer offset count = Some r.
Proof.
  unfold to_dchars. destruct (count =? 0); [eauto|].
  destruct (to_uint8 buffer offset) as [e|alg]; [eauto|].
  destruct (negb _); [eauto|].
  destruct (dchars_loop_returns buffer offset count alg
              (S (Z.to_nat count)) 1 []) as [r Hr]; [lia|].
  rewrite Hr. destruct r as [e|result]; eauto.
Qed.

(** *** What a successful read tells *)

Lemma to_uint8_success (buffer : bytes) (p v : Z) :
  0 <= p -> to_uint8 buffer p = inr v ->
  p + 1 <= len buffer /\ v = byte_at buffer p.
Proof.
  intros Hp H. destruct (Z_lt_le_dec p (len buffer)) as [Hin|Hout].
  - rewrite to_uint8_byte_at in H by lia. injection H as <-. split; [lia|easy].
  - rewrite to_uint8_absent in H by lia. discriminate.
Qed.

Lemma to_uint16_success (buffer : bytes) (p v : Z) :
  0 <= p -> to_uint16 buffer p = inr v ->
  p + 2 <= len buffer /\ v = le_at buffer p 2.
Proof.
  intros Hp H. destruct (Z_le_gt_dec (p + 2) (len buffer)) as [Hin|Hout].
  - rewrite to_uint16_le_at in H by lia. injection H as <-. split; [lia|easy].
  - unfold to_uint16 in H. rewrite to_uint8_absent in H by lia. discriminate.
Qed.

Lemma to_uint32_success (buffer : bytes) (p v : Z) :
  0 <= p -> to_uint32 buffer p = inr v ->
  p + 4 <= len buffer /\ v = le_at buffer p 4.
Proof.
  intros Hp H. destruct (Z_le_gt_dec (p + 4) (len buffer)) as [Hin|Hout].
  - rewrite to_uint32_le_at in H by lia. injection H as <-. split; [lia|easy].
  - unfold to_uint32 in H. rewrite to_uint8_absent in H by lia. discriminate.
Qed.

Lemma to_uint64_success (buffer : bytes) (p v : Z) :
  0 <= p -> to_uint64 buffer p = inr v ->
  p + 8 <= len buffer /\ v = le_at buffer p 8.
Proof.
  intros Hp H. destruct (Z_le_gt_dec (p + 8) (len buffer)) as [Hin|Hout].
  - rewrite to_uint64_le_at in H by lia. injection H as <-. split; [lia|easy].
  - unfold to_uint64 in H. rewrite to_uint8_absent in H by lia. discriminate.
Qed.

Lemma tagged_header_inv (size expected : Z) (buffer : bytes) (start : Z)
    (tag : DescriptorTag.t) :
  tagged_header size expected buffer start = inr tag ->
  DescriptorTag.__init__ buffer start = inr tag
  /\ DescriptorTag.tag_identifier tag = expected
  /\ (size <> 0 -> start + size <= len buffer).
Proof.
  intros H. unfold tagged_header in H.
  bind_inv H as Hsize. match type of Hsize with _ = inr ?u => destruct u end.
  bind_inv H as Htag. bind_inv H as Hid. injection H as ->.
  unfold BaseTag._assert_tag_identifier in Hid.
  destruct (Z.eqb_spec (DescriptorTag.tag_identifier tag) expected);
    [|discriminate].
  split; [reflexivity|]. split; [assumption|].
  intros Hnz. now apply assert_size_inv in Hsize.
Qed.

(** A loop of [to_dchars] that ends well has read the last byte of the
    name. *)
Lemma dchars_loop_inside (buffer : bytes) (offset count alg : Z) :
  forall fuel pos result r,
    0 <= offset + pos -> pos < count ->
    dchars_loop fuel buffer offset count alg pos result = Some (inr r) ->
    offset + count <= len buffer.
Proof.
  induction fuel as [|fuel IH]; intros pos result r Hpos Hlt H;
    [discriminate|].
  cbn [dchars_loop] in H. destruct (Z.ltb_spec pos count); [|lia].
  change (to_uint8 [x00] 0) with (@inr exn Z 0) in H. cbv iota in H.
  destruct (alg =? 16).
  - destruct (to_uint8 buffer (offset + pos)) as [e|hi] eqn:Ehi;
      cbn [bind] in H; [discriminate|].
    apply to_uint8_success in Ehi as [Hhi _]; [|lia].
    destruct (Z.ltb_spec (pos + 1) count) as [Hlt2|Hge2].
    + destruct (to_uint8 buffer (offset + (pos + 1))) as [e|lo] eqn:Elo;
        cbn [bind] in H; [discriminate|].
      apply to_uint8_success in Elo as [Hlo _]; [|lia].
      destruct (Z_lt_le_dec (pos + 1 + 1) count).
      * refine (IH _ _ _ _ _ H); lia.
      * lia.
    + lia.
  - destruct (Z.ltb_spec pos count); [|lia].
    destruct (to_uint8 buffer (offset + pos)) as [e|lo] eqn:Elo;
      cbn [bind] in H; [discriminate|].
    apply to_uint8_success in Elo as [Hlo _]; [|lia].
    destruct (Z_lt_le_dec (pos + 1) count).
    + refine (IH _ _ _ _ _ H); lia.
    + lia.
Qed.

Lemma to_dchars_inside (IS_PY2 : bool) (buffer : bytes) (offset count : Z)
    (name : bytes) :
  0 <= offset -> 0 < count ->
  to_dchars IS_PY2 buffer offset count = Some (inr name) ->
  offset + count <= len buffer.
Proof.
  intros Hoff Hcount H. unfold to_dchars in H.
  destruct (Z.eqb_spec count 0); [lia|].
  destruct (to_uint8 buffer offset) as [e|alg] eqn:Ealg; [discriminate|].
  apply to_uint8_success in Ealg as [Halg _]; [|lia].
  destruct (negb _); [discriminate|].
  destruct (dchars_loop _ buffer offset count alg 1 [])
    as [[e|result]|] eqn:Eloop; try discriminate.
  destruct (Z_lt_le_dec 1 count).
  - refine (dchars_loop_inside _ _ _ _ _ _ _ _ _ _ Eloop); lia.
  - lia.
Qed.

(** *** File identifier descriptors and directories *)

Lemma file_identifier_descriptor_inv (IS_PY2 : bool) (buffer : bytes)
    (start : Z) (id : FileIdentifierDescriptor.t) :
  0 <= start ->
  FileIdentifierDescriptor.__init__ IS_PY2 buffer start = Some (inr id) ->
  let l_iu := FileIdentifierDescriptor.length_of_implementation_use id in
  let l_fi := FileIdentifierDescriptor.length_of_file_identifier id in
  start + 38 <= len buffer
  /\ DescriptorTag.tag_identifier (FileIdentifierDescriptor.descriptor_tag id)
     = TagIdentifier.FileIdentifierDescriptor
  /\ FileIdentifierDescriptor.file_characteristics id
     = byte_at buffer (start + 18)
  /\ l_fi = byte_at buffer (start + 19)
  /\ l_iu = le_at buffer (start + 36) 2
  /\ FileIdentifierDescriptor.rounded_size id mod 4 = 0
  /\ 38 + l_iu + l_fi <= FileIdentifierDescriptor.rounded_size id
     < 38 + l_iu + l_fi + 4
  /\ (0 < l_fi -> start + 38 + l_iu + l_fi <= len buffer).
Proof.
  intros Hs H. unfold FileIdentifierDescriptor.__init__ in H.
  match type of H with
  | context [match ?m with inl _ => _ | inr _ => _ end] =>
    destruct m as [e|[[[[[tag fv] fc] l_fi] icb] l_iu]] eqn:Hhead
  end; [discriminate|].
  bind_inv Hhead as Htag. bind_inv Hhead as Hfv. bind_inv Hhead as Hfc.
  bind_inv Hhead as Hlfi. bind_inv Hhead as Hicb. bind_inv Hhead as Hliu.
  injection Hhead as -> -> -> -> -> ->.
  apply tagged_header_inv in Htag as (_ & Hid & _).
  apply to_uint8_success in Hfc as [_ Hfc]; [|lia].
  apply to_uint8_success in Hlfi as [_ Hlfi]; [|lia].
  apply to_uint16_success in Hliu as [Hin Hliu]; [|lia].
  destruct (to_dchars IS_PY2 buffer (start + 38 + l_iu) l_fi)
    as [[e|name]|] eqn:Hname; try discriminate.
  unfold round_up in H. change (4 =? 0) with false in H. cbv iota in H.
  cbn [ebind] in H. injection H as <-.
  cbn [FileIdentifierDescriptor.length_of_implementation_use
       FileIdentifierDescriptor.length_of_file_identifier
       FileIdentifierDescriptor.descriptor_tag
       FileIdentifierDescriptor.file_characteristics
       FileIdentifierDescriptor.rounded_size].
  pose proof (le_at_range buffer 2 (start + 36)) as Hr. rewrite <- Hliu in Hr.
  split; [lia|]. split; [exact Hid|]. split; [exact Hfc|].
  split; [exact Hlfi|]. split; [exact Hliu|].
  split; [apply Z.mod_mul; lia|]. split.
  - pose proof (Z.div_mod (38 + l_iu + l_fi + (4 - 1)) 4 ltac:(lia)).
    pose proof (Z.mod_pos_bound (38 + l_iu + l_fi + (4 - 1)) 4 ltac:(lia)).
    lia.
  - intros Hpos.
    apply to_dchars_inside in Hname; lia.
Qed.

(** X13: a [FileIdentifierDescriptor] that is built carries the tag 257;
    its [rounded_size] is the least multiple of 4 that holds the 38 fixed
    bytes, the implementation use and the name, so it is at least 40 and
    at most 65828; a name that is not empty lies inside the buffer. *)
Theorem file_identifier_descriptor_size (IS_PY2 : bool) (buffer : bytes)
    (start : Z) (id : FileIdentifierDescriptor.t) :
  0 <= start ->
  FileIdentifierDescriptor.__init__ IS_PY2 buffer start = Some (inr id) ->
  let l_iu := FileIdentifierDescriptor.length_of_implementation_use id in
  let l_fi := FileIdentifierDescriptor.length_of_file_identifier id in
  DescriptorTag.tag_identifier (FileIdentifierDescriptor.descriptor_tag id)
  = 257
  /\ FileIdentifierDescriptor.rounded_size id mod 4 = 0
  /\ 38 + l_iu + l_fi <= FileIdentifierDescriptor.rounded_size id
     < 38 + l_iu + l_fi + 4
  /\ 40 <= FileIdentifierDescriptor.rounded_size id <= 65828
  /\ start + 38 <= len buffer
  /\ (0 < l_fi -> start + 38 + l_iu + l_fi <= len buffer).
Proof.
  intros Hs H l_iu l_fi.
  destruct (file_identifier_descriptor_inv IS_PY2 buffer start id Hs H)
    as (Hin & Hid & _ & Hlfi & Hliu & Hmod & Hround & Hname).
  fold l_iu in Hliu, Hround, Hname. fold l_fi in Hlfi, Hround, Hname.
  pose proof (le_at_range buffer 2 (start + 36)) as Hr. rewrite <- Hliu in Hr.
  pose proof (byte_at_range buffer (start + 19)) as Hb. rewrite <- Hlfi in Hb.
  change (256 ^ Z.of_nat 2) with 65536 in Hr.
  split; [exact Hid|]. split; [exact Hmod|]. split; [exact Hround|].
  split; [|split; [exact Hin|exact Hname]].
  split.
  - apply Z.mod_divide in Hmod; [|lia]. destruct Hmod as [k Hk]. lia.
  - apply Z.mod_divide in Hmod; [|lia]. destruct Hmod as [k Hk]. lia.
Qed.

(** A file identifier descriptor for the name [SLUS_123.45;1]. *)
Definition sample_identifier : bytes :=
  [x01; x01; x02; x00; x04; x00; x00; x00;
   x00; x00; x00; x00; x00; x00; x00; x00;
   x01; x00; x00; x0e;
   x00; x08; x00; x00; x05; x00; x00; x00; x00; x00;
   x00; x00; x00; x00; x00; x00;
   x00; x00; x08] ++ b "SLUS_123.45;1".

Lemma file_identifier_descriptor_size_witness :
  exists id,
    FileIdentifierDescriptor.__init__ false sample_identifier 0
    = Some (inr id)
    /\ FileIdentifierDescriptor.file_identifier id = b "SLUS_123.45;1"
    /\ 40 <= FileIdentifierDescriptor.rounded_size id <= 65828.
Proof.
  destruct (FileIdentifierDescriptor.__init__ false sample_identifier 0)
    as [[e|id]|] eqn:E;
    [vm_compute in E; discriminate| |vm_compute in E; discriminate].
  exists id. split; [reflexivity|]. split.
  - vm_compute in E. injection E as <-. reflexivity.
  - apply (file_identifier_descriptor_size false sample_identifier 0 id
             ltac:(lia) E).
Defined.

Lemma file_identifier_descriptor_returns (IS_PY2 : bool) (buffer : bytes)
    (start : Z) :
  exists r, FileIdentifierDescriptor.__init__ IS_PY2 buffer start = Some r.
Proof.
  unfold FileIdentifierDescriptor.__init__.
  match goal with
  | |- context [match ?m with inl _ => _ | inr _ => _ end] =>
    destruct m as [e|[[[[[tag fv] fc] l_fi] icb] l_iu]]
  end; [eauto|].
  destruct (to_dchars_returns IS_PY2 buffer (start + 38 + l_iu) l_fi)
    as [[e|name] ->]; eauto.
Qed.

(** An entry that [all_entries] keeps: neither deleted nor the parent. *)
Definition listed (id : FileIdentifierDescriptor.t) : Prop :=
  Z.land (FileIdentifierDescriptor.file_characteristics id)
         FileCharacteristic.deleted = 0
  /\ Z.land (FileIdentifierDescriptor.file_characteristics id)
            FileCharacteristic.parent = 0.

Lemma listed_masked (id : FileIdentifierDescriptor.t) :
  Z.land (FileIdentifierDescriptor.file_characteristics id)
         (Z.lor FileCharacteristic.deleted FileCharacteristic.parent) = 0 ->
  listed id.
Proof.
  intros H. unfold listed. split.
  - change FileCharacteristic.deleted
      with (Z.land (Z.lor FileCharacteristic.deleted
                          FileCharacteristic.parent)
                   FileCharacteristic.deleted).
    rewrite Z.land_assoc, H. reflexivity.
  - change FileCharacteristic.parent
      with (Z.land (Z.lor FileCharacteristic.deleted
                          FileCharacteristic.parent)
                   FileCharacteristic.parent).
    rewrite Z.land_assoc, H. reflexivity.
Qed.

(** The loop of [Directory.__init__] returns, and what it adds to the
    entries is listed. *)
Lemma parse_entries_listed (IS_PY2 : bool) (content_bytes : bytes) :
  forall fuel pos entries,
    0 <= pos -> (Z.to_nat (len content_bytes - pos) < fuel)%nat ->
    exists r,
      Directory.parse_entries IS_PY2 fuel content_bytes pos entries = Some r
      /\ forall all,
           r = inr all ->
           exists added, all = entries ++ added /\ Forall listed added.
Proof.
  induction fuel as [|fuel IH]; intros pos entries Hpos Hfuel; [lia|].
  cbn [Directory.parse_entries].
  destruct (Z.ltb_spec pos (len content_bytes)) as [Hin|Hout].
  - destruct (file_identifier_descriptor_returns IS_PY2 content_bytes pos)
      as [[e|id] Hid]; rewrite Hid.
    + eexists. split; [reflexivity|]. discriminate.
    + destruct (file_identifier_descriptor_inv IS_PY2 content_bytes pos id
                  Hpos Hid) as (_ & _ & _ & Hlfi & Hliu & _ & Hround & _).
      pose proof (le_at_range content_bytes 2 (pos + 36)) as Hr.
      rewrite <- Hliu in Hr.
      pose proof (byte_at_range content_bytes (pos + 19)) as Hb.
      rewrite <- Hlfi in Hb.
      destruct (Z.eqb_spec
                  (Z.land (FileIdentifierDescriptor.file_characteristics id)
                          (Z.lor FileCharacteristic.deleted
                                 FileCharacteristic.parent)) 0)
        as [Hkeep|Hdrop].
      * destruct (IH (pos + FileIdentifierDescriptor.rounded_size id)
                     (entries ++ [id])) as (r & Hr' & Hall); [lia|lia|].
        exists r. split; [exact Hr'|]. intros all Heq.
        destruct (Hall all Heq) as (added & -> & Hadded).
        exists (id :: added). rewrite <- app_assoc. split; [reflexivity|].
        constructor; [now apply listed_masked|exact Hadded].
      * destruct (IH (pos + FileIdentifierDescriptor.rounded_size id)
                     entries) as (r & Hr' & Hall); [lia|lia|].
        exists r. split; [exact Hr'|exact Hall].
  - eexists. split; [reflexivity|]. intros all Heq. injection Heq as <-.
    exists []. rewrite app_nil_r. split; [reflexivity|constructor].
Qed.

(** X14: [Directory.__init__] returns for every file entry and image, and
    [all_entries] of a directory that is built holds no entry with the
    deleted bit and none with the parent bit. *)
Theorem directory_entries_listed (IS_PY2 : bool)
    (partition : LogicalPartition.t) (file_entry : FileEntry.t) (f : file) :
  exists r f',
    Directory.__init__ IS_PY2 partition file_entry f = Some (r, f')
    /\ forall all_entries, r = inr all_entries -> Forall listed all_entries.
Proof.
  unfold Directory.__init__.
  destruct (load_extents_returns file_entry
              (LogicalPartition.logical_block_size partition)) as [r Hr].
  unfold FileContentBuffer.__init__. rewrite Hr.
  destruct r as [e|extents].
  { eexists. eexists. split; [reflexivity|]. discriminate. }
  set (file_content := FileContentBuffer.Make _ _ _ _).
  destruct (FileContentBuffer.capacity file_content >? MAX_INT).
  { eexists. eexists. split; [reflexivity|]. discriminate. }
  destruct (read_returns file_content f 0 0
              (FileContentBuffer.capacity file_content))
    as [[[e|content_bytes] f'] Hread]; rewrite Hread.
  { eexists. eexists. split; [reflexivity|]. discriminate. }
  destruct (parse_entries_listed IS_PY2 content_bytes
              (S (length content_bytes)) 0 []) as (r & Hparse & Hall);
    [lia|unfold len; lia|].
  rewrite Hparse. exists r, f'. split; [reflexivity|].
  intros all_entries Heq. destruct (Hall all_entries Heq) as (added & -> & H).
  exact H.
Qed.

(** X15: for a directory whose file entry has one extent, not empty and
    no longer than [MAX_INT], with the whole of it in the image, the
    entries are those parsed from the bytes of the image at the start of
    the partition plus the start of the extent. *)
Theorem directory_of_one_extent (IS_PY2 : bool)
    (partition : LogicalPartition.t) (file_entry : FileEntry.t)
    (self : FileContentBuffer.t) (extent : CookedExtent.t)
    (data : bytes) (p0 : Z) :
  FileContentBuffer.__init__ partition file_entry
    (LogicalPartition.logical_block_size partition) = Some (inr self) ->
  FileContentBuffer.extents self = [extent] ->
  let n := FileEntry.information_length file_entry in
  let image_pos :=
    CookedExtent.start_pos extent
    + PhysicalPartition._start
        (LogicalPartition.physical_partition partition) in
  let content_bytes := slice data image_pos (image_pos + n) in
  0 < n <= CookedExtent.length extent -> n <= MAX_INT ->
  0 <= image_pos -> image_pos + n <= len data ->
  exists r,
    Directory.parse_entries IS_PY2 (S (length content_bytes)) content_bytes
                            0 [] = Some r
    /\ Directory.__init__ IS_PY2 partition file_entry (File data p0)
       = Some (r, File data (image_pos + n)).
Proof.
  intros Hinit Hext n image_pos content_bytes Hn Hmax Hpos Hlen.
  destruct (parse_entries_listed IS_PY2 content_bytes
              (S (length content_bytes)) 0 []) as (r & Hparse & _);
    [lia|unfold len; lia|].
  exists r. split; [exact Hparse|].
  assert (Hoff : CookedExtent.file_content_offset extent = 0).
  { pose proof Hinit as Hinit'. unfold FileContentBuffer.__init__ in Hinit'.
    destruct (FileContentBuffer.load_extents file_entry _)
      as [[e|extents]|] eqn:Hload; try discriminate.
    injection Hinit' as <-. cbn [FileContentBuffer.extents] in Hext.
    subst extents. unfold FileContentBuffer.load_extents in Hload.
    destruct (_ =? AllocationType.short_descriptors).
    - apply load_short_tiled in Hload; [|lia|exact I|reflexivity].
      cbn [tiled] in Hload. destruct Hload as [Hoff _]. exact Hoff.
    - destruct (_ =? AllocationType.embedded); [discriminate|].
      destruct (_ =? AllocationType.long_descriptors); discriminate. }
  assert (Hcap : FileContentBuffer.capacity self = n).
  { unfold FileContentBuffer.__init__ in Hinit.
    destruct (FileContentBuffer.load_extents file_entry _)
      as [[e|extents]|]; try discriminate.
    injection Hinit as <-. reflexivity. }
  pose proof (read_in_extent partition file_entry _ self extent data p0 0 0 n
                Hinit) as Hread.
  rewrite Hext, Hoff, Hcap in Hread. cbn zeta in Hread.
  rewrite Z.sub_0_r, Z.add_0_r in Hread.
  specialize (Hread ltac:(now left) ltac:(lia) ltac:(lia) ltac:(lia)
                ltac:(lia) Hpos Hlen).
  unfold Directory.__init__. rewrite Hinit, Hcap.
  destruct (Z.gtb_spec n MAX_INT); [lia|].
  fold n in Hread. rewrite Hread. fold image_pos content_bytes.
  rewrite Hparse. reflexivity.
Qed.

(** A directory of 52 bytes at block 1 of an image of 2100 bytes; it
    holds [sample_identifier]. *)
Definition directory_entry : FileEntry.t :=
  FileEntry.Make (ICBTag.Make 4 AllocationType.short_descriptors 0) 52
    [x34; x00; x00; x00; x01; x00; x00; x00].

Definition directory_image : bytes :=
  repeat x00 2048 ++ sample_identifier.

Lemma directory_of_one_extent_witness :
  exists all_entries f,
    Directory.__init__ false sample_partition directory_entry
                       (open_rb directory_image)
    = Some (inr all_entries, f)
    /\ map FileIdentifierDescriptor.file_identifier all_entries
       = [b "SLUS_123.45;1"].
Proof.
  destruct (directory_of_one_extent false sample_partition directory_entry
              (FileContentBuffer.Make sample_partition directory_entry 2048
                 [CookedExtent.Make 0 MAX_INT 2048 52])
              (CookedExtent.Make 0 MAX_INT 2048 52) directory_image 0)
    as (r & Hparse & Hdir).
  - vm_compute. reflexivity.
  - reflexivity.
  - vm_compute. split; [reflexivity|discriminate].
  - vm_compute. discriminate.
  - vm_compute. discriminate.
  - vm_compute. discriminate.
  - unfold open_rb. rewrite Hdir. vm_compute in Hparse.
    injection Hparse as <-. eexists. eexists. split; reflexivity.
Defined.

(** *** Partition maps *)

Lemma type1_partition_map_inv (buffer : bytes) (start : Z)
    (m : Type1PartitionMap.t) :
  0 <= start ->
  Type1PartitionMap.__init__ buffer start = inr m ->
  start + 6 <= len buffer
  /\ Type1PartitionMap.partition_map_type m = 1
  /\ Type1PartitionMap.partition_map_length m = 6
  /\ byte_at buffer start = 1 /\ byte_at buffer (start + 1) = 6
  /\ Type1PartitionMap.volume_sequence_number m = le_at buffer (start + 2) 2
  /\ Type1PartitionMap.partition_number m = le_at buffer (start + 4) 2.
Proof.
  intros Hs H. unfold Type1PartitionMap.__init__ in H.
  bind_inv H as Hsize. match type of Hsize with _ = inr ?u => destruct u end.
  apply assert_size_inv in Hsize; [|discriminate].
  unfold Type1PartitionMap.size in Hsize.
  bind_inv H as Htype. bind_inv H as Hlength. bind_inv H as Hvsn.
  bind_inv H as Hnumber.
  apply to_uint8_success in Htype as [_ Htype]; [|lia].
  apply to_uint8_success in Hlength as [_ Hlength]; [|lia].
  apply to_uint16_success in Hvsn as [_ Hvsn]; [|lia].
  apply to_uint16_success in Hnumber as [_ Hnumber]; [|lia].
  rewrite Z.add_0_r in Htype.
  match type of H with
  | (if negb (?x =? 1) then _ else _) = _ =>
    destruct (Z.eqb_spec x 1) as [Hone|]; cbn [negb] in H; [|discriminate]
  end.
  match type of H with
  | (if negb (?x =? ?y) then _ else _) = _ =>
    destruct (Z.eqb_spec x y) as [Hsix|]; cbn [negb] in H; [|discriminate]
  end.
  injection H as <-.
  cbn [Type1PartitionMap.partition_map_type
       Type1PartitionMap.partition_map_length
       Type1PartitionMap.volume_sequence_number
       Type1PartitionMap.partition_number].
  unfold Type1PartitionMap.size in Hsix.
  repeat split; congruence || lia.
Qed.

Lemma partition_maps_loop_inv (buffer : bytes) :
  forall turns part_start retval maps,
    0 <= part_start ->
    partition_maps_loop turns buffer part_start retval = inr maps ->
    exists added,
      maps = retval ++ added
      /\ length added = turns
      /\ part_start + 6 * Z.of_nat turns <= Z.max part_start (len buffer)
      /\ forall i m,
           nth_error added i = Some m ->
           Type1PartitionMap.partition_map_type m = 1
           /\ Type1PartitionMap.partition_map_length m = 6
           /\ Type1PartitionMap.volume_sequence_number m
              = le_at buffer (part_start + 6 * Z.of_nat i + 2) 2
           /\ Type1PartitionMap.partition_number m
              = le_at buffer (part_start + 6 * Z.of_nat i + 4) 2.
Proof.
  induction turns as [|turns IH]; intros part_start retval maps Hs H.
  - cbn in H. injection H as <-. exists []. rewrite app_nil_r.
    split; [reflexivity|]. split; [reflexivity|]. split; [lia|].
    intros [|i] m Hm; discriminate Hm.
  - cbn [partition_maps_loop] in H. bind_inv H as Htype.
    match type of H with
    | (if ?c then _ else _) = _ => destruct c; [|discriminate]
    end.
    bind_inv H as Hmap.
    match type of Hmap with _ = inr ?x => rename x into m0 end.
    apply type1_partition_map_inv in Hmap
      as (Hin & Ht & Hl & _ & _ & Hvsn & Hnum); [|exact Hs].
    apply IH in H as (added & -> & Hlen & Hroom & Hall);
      [|unfold Type1PartitionMap.size; lia].
    unfold Type1PartitionMap.size in Hroom, Hall.
    exists (m0 :: added). rewrite <- app_assoc.
    split; [reflexivity|]. split; [cbn [length]; lia|]. split; [lia|].
    intros [|i] m Hm.
    + injection Hm as <-. rewrite Z.mul_0_r, Z.add_0_r. now repeat split.
    + cbn [nth_error] in Hm. destruct (Hall i m Hm) as (H1 & H2 & H3 & H4).
      replace (part_start + 6 * Z.of_nat (S i))
        with (part_start + 6 + 6 * Z.of_nat i) by lia.
      now repeat split.
Qed.

(** X16: when [get_partition_maps] returns, it returns as many maps as the
    descriptor counts, each of type 1 and length 6, read from consecutive
    groups of six bytes that all lie inside the raw bytes of the maps. *)
Theorem partition_maps_type1 (_raw_partition_maps : bytes)
    (number_of_partition_maps : Z) (maps : list Type1PartitionMap.t) :
  0 <= number_of_partition_maps ->
  get_partition_maps _raw_partition_maps number_of_partition_maps
  = inr maps ->
  len maps = number_of_partition_maps
  /\ 6 * number_of_partition_maps <= len _raw_partition_maps
  /\ forall i m,
       nth_error maps i = Some m ->
       Type1PartitionMap.partition_map_type m = 1
       /\ Type1PartitionMap.partition_map_length m = 6
       /\ Type1PartitionMap.volume_sequence_number m
          = le_at _raw_partition_maps (6 * Z.of_nat i + 2) 2
       /\ Type1PartitionMap.partition_number m
          = le_at _raw_partition_maps (6 * Z.of_nat i + 4) 2.
Proof.
  intros Hn H. unfold get_partition_maps in H.
  apply partition_maps_loop_inv in H as (added & -> & Hlen & Hroom & Hall);
    [|lia].
  cbn [app]. pose proof (len_nonneg _raw_partition_maps).
  split; [unfold len; lia|]. split; [lia|]. exact Hall.
Qed.

Lemma partition_maps_type1_witness :
  exists maps,
    get_partition_maps ([x01; x06; x01; x00; x00; x00] ++ repeat x00 66) 1
    = inr maps
    /\ len maps = 1.
Proof.
  destruct (get_partition_maps
              ([x01; x06; x01; x00; x00; x00] ++ repeat x00 66) 1)
    as [e|maps] eqn:E; [vm_compute in E; discriminate|].
  exists maps. split; [reflexivity|].
  apply (partition_maps_type1 _ 1 maps ltac:(lia) E).
Defined.

(** *** ICB tags and file entries *)

Lemma slice_backwards (buffer : bytes) (lo hi : Z) :
  0 <= hi <= lo -> slice buffer lo hi = [].
Proof.
  intros Hhi. unfold slice, clamp_index.
  pose proof (len_nonneg buffer).
  destruct (Z.ltb_spec lo 0); [lia|].
  assert (Hle : (if hi <? 0 then Z.max 0 (hi + len buffer)
                 else Z.min hi (len buffer)) - Z.min lo (len buffer) <= 0).
  { destruct (Z.ltb_spec hi 0); lia. }
  destruct (Z.to_nat _) eqn:E; [reflexivity|lia].
Qed.

Lemma land_land_distr (a b c : Z) :
  Z.land (Z.land a b) (Z.land a c) = Z.land a (Z.land b c).
Proof.
  apply Z.bits_inj'. intros i _. rewrite !Z.land_spec.
  destruct (Z.testbit a i), (Z.testbit b i), (Z.testbit c i); reflexivity.
Qed.

(** The two fields cut from the 16-bit flags word of an ICB tag. *)
Lemma split_flags (raw : Z) :
  0 <= raw < 65536 ->
  Z.land raw 3 = raw mod 4 /\ Z.land raw 65532 = 4 * (raw / 4).
Proof.
  intros Hr.
  assert (Hlow : Z.land raw 3 = raw mod 4).
  { change 3 with (Z.ones 2). now rewrite Z.land_ones by lia. }
  split; [exact Hlow|].
  assert (Hall : Z.land raw 65535 = raw).
  { change 65535 with (Z.ones 16). rewrite Z.land_ones by lia.
    apply Z.mod_small. exact Hr. }
  change 65535 with (Z.lor 65532 3) in Hall.
  rewrite Z.land_lor_distr_r in Hall.
  pose proof (Z.add_lor_land (Z.land raw 65532) (Z.land raw 3)) as Hadd.
  rewrite land_land_distr in Hadd. change (Z.land 65532 3) with 0 in Hadd.
  rewrite Z.land_0_r, Z.add_0_r, Hall, Hlow in Hadd.
  pose proof (Z.div_mod raw 4 ltac:(lia)). lia.
Qed.

Lemma logical_block_address_inv (buffer : bytes) (start : Z)
    (lba : LogicalBlockAddress.t) :
  0 <= start ->
  LogicalBlockAddress.__init__ buffer start = inr lba ->
  start + 6 <= len buffer
  /\ LogicalBlockAddress.logical_block_number lba = le_at buffer start 4
  /\ LogicalBlockAddress.partition_reference_number lba
     = le_at buffer (start + 4) 2.
Proof.
  intros Hs H. unfold LogicalBlockAddress.__init__ in H.
  bind_inv H as Hsize. match type of Hsize with _ = inr ?u => destruct u end.
  apply assert_size_inv in Hsize; [|discriminate].
  bind_inv H as Hnumber. bind_inv H as Href. injection H as <-.
  apply to_uint32_success in Hnumber as [_ Hnumber]; [|lia].
  apply to_uint16_success in Href as [_ Href]; [|lia].
  rewrite Z.add_0_r in Hnumber. now repeat split.
Qed.

Lemma icb_tag_inv (buffer : bytes) (start : Z) (tag : ICBTagDescriptor.t) :
  0 <= start ->
  ICBTagDescriptor.__init__ buffer start = inr tag ->
  let raw := le_at buffer (start + 18) 2 in
  start + 20 <= len buffer
  /\ ICBTagDescriptor.strategy_parameter tag = []
  /\ ICBTagDescriptor.file_type tag = byte_at buffer (start + 11)
  /\ ICBTagDescriptor.allocation_type tag = raw mod 4
  /\ ICBTagDescriptor.flags tag = 4 * (raw / 4)
  /\ byte_at buffer (start + 10) = 0.
Proof.
  intros Hs H raw. unfold ICBTagDescriptor.__init__ in H.
  bind_inv H as Hsize. match type of Hsize with _ = inr ?u => destruct u end.
  apply assert_size_inv in Hsize; [|discriminate].
  bind_inv H as Hprior. bind_inv H as Hstrategy. bind_inv H as Hmax.
  bind_inv H as Htype. bind_inv H as Hparent. bind_inv H as Hflags.
  bind_inv H as Hreserve.
  match type of Hreserve with _ = inr ?u => destruct u end.
  injection H as <-.
  cbn [ICBTagDescriptor.strategy_parameter ICBTagDescriptor.file_type
       ICBTagDescriptor.allocation_type ICBTagDescriptor.flags].
  apply to_uint8_success in Htype as [_ Htype]; [|lia].
  apply to_uint16_success in Hflags as [_ Hflags]; [|lia].
  pose proof (le_at_range buffer 2 (start + 18)) as Hr.
  change (256 ^ Z.of_nat 2) with 65536 in Hr. fold raw in Hr, Hflags.
  subst. destruct (split_flags raw Hr) as [Hlow Hhigh].
  rewrite assert_reserve_one in Hreserve by lia.
  destruct (Z.eqb_spec (byte_at buffer (start + 10)) 0) as [Hzero|];
    [|discriminate].
  split; [lia|]. split; [apply slice_backwards; lia|].
  split; [reflexivity|]. split; [exact Hlow|]. split; [exact Hhigh|].
  exact Hzero.
Qed.

(** X17: an [ICBTag] that is built has an empty [strategy_parameter],
    whatever the buffer holds at bytes 6 and 7; its [allocation_type] and
    its [flags] are the low two bits and the rest of the 16-bit word at
    byte 18, so that they add up to that word; the reserved byte 10 is
    zero. *)
Theorem icb_tag_fields (buffer : bytes) (start : Z)
    (tag : ICBTagDescriptor.t) :
  0 <= start ->
  ICBTagDescriptor.__init__ buffer start = inr tag ->
  start + 20 <= len buffer
  /\ ICBTagDescriptor.strategy_parameter tag = []
  /\ 0 <= ICBTagDescriptor.allocation_type tag < 4
  /\ ICBTagDescriptor.flags tag mod 4 = 0
  /\ ICBTagDescriptor.allocation_type tag + ICBTagDescriptor.flags tag
     = le_at buffer (start + 18) 2
  /\ ICBTagDescriptor.file_type tag = byte_at buffer (start + 11)
  /\ byte_at buffer (start + 10) = 0.
Proof.
  intros Hs H.
  destruct (icb_tag_inv buffer start tag Hs H)
    as (Hin & Hparam & Htype & Halloc & Hflags & Hzero).
  rewrite Halloc, Hflags.
  pose proof (Z.div_mod (le_at buffer (start + 18) 2) 4 ltac:(lia)).
  pose proof (Z.mod_pos_bound (le_at buffer (start + 18) 2) 4 ltac:(lia)).
  split; [exact Hin|]. split; [exact Hparam|]. split; [lia|].
  split; [rewrite Z.mul_comm; apply Z.mod_mul; lia|].
  split; [lia|]. split; [exact Htype|exact Hzero].
Qed.

Lemma icb_tag_fields_witness :
  exists tag,
    ICBTagDescriptor.__init__
      [x00; x00; x00; x00; x04; x00; xaa; xbb; x01; x00;
       x00; x04; x00; x00; x00; x00; x00; x00; x33; x02] 0
    = inr tag
    /\ ICBTagDescriptor.strategy_parameter tag = []
    /\ ICBTagDescriptor.allocation_type tag = 3
    /\ ICBTagDescriptor.flags tag = 560.
Proof.
  destruct (ICBTagDescriptor.__init__
              [x00; x00; x00; x00; x04; x00; xaa; xbb; x01; x00;
               x00; x04; x00; x00; x00; x00; x00; x00; x33; x02] 0)
    as [e|tag] eqn:E; [vm_compute in E; discriminate|].
  exists tag. split; [reflexivity|].
  destruct (icb_tag_fields _ 0 tag ltac:(lia) E)
    as (_ & Hparam & _ & _ & _ & _ & _).
  split; [exact Hparam|].
  vm_compute in E. injection E as <-. split; reflexivity.
Defined.

Lemma file_entry_inv (buffer : bytes) (start : Z)
    (fe : FileEntryDescriptor.t) :
  0 <= start ->
  FileEntryDescriptor.__init__ buffer start = inr fe ->
  let l_ea := le_at buffer (start + 168) 4 in
  let l_ad := le_at buffer (start + 173) 4 in
  start + 300 <= len buffer
  /\ DescriptorTag.tag_identifier (FileEntryDescriptor.descriptor_tag fe)
     = TagIdentifier.FileEntry
  /\ ICBTagDescriptor.__init__ buffer (start + 16)
     = inr (FileEntryDescriptor.icb_tag fe)
  /\ FileEntryDescriptor.information_length fe = le_at buffer (start + 56) 8
  /\ FileEntryDescriptor.length_of_extended_attributes fe = l_ea
  /\ FileEntryDescriptor.length_of_allocation_descriptors fe = l_ad
  /\ FileEntryDescriptor.allocation_descriptors fe
     = slice buffer (start + 176 + l_ea) (start + 176 + l_ea + l_ad).
Proof.
  intros Hs H l_ea l_ad. unfold FileEntryDescriptor.__init__ in H.
  bind_inv H as Htag.
  apply tagged_header_inv in Htag as (_ & Hid & Hsize).
  specialize (Hsize ltac:(discriminate)).
  bind_inv H as Hicb. do 7 bind_inv H. bind_inv H as Hinfo.
  do 5 bind_inv H. bind_inv H as Hea. bind_inv H as Had.
  injection H as <-.
  cbn [FileEntryDescriptor.descriptor_tag FileEntryDescriptor.icb_tag
       FileEntryDescriptor.information_length
       FileEntryDescriptor.length_of_extended_attributes
       FileEntryDescriptor.length_of_allocation_descriptors
       FileEntryDescriptor.allocation_descriptors].
  apply to_uint64_success in Hinfo as [_ ->]; [|lia].
  apply to_uint32_success in Hea as [_ ->]; [|lia].
  apply to_uint32_success in Had as [_ ->]; [|lia].
  now repeat split.
Qed.

(** The four bytes from 173 on, against the four bytes from 172 on. *)
Lemma le_at_shifted (buffer : bytes) (p : Z) :
  le_at buffer (p + 1) 4
  = le_at buffer p 4 / 256 + 2 ^ 24 * byte_at buffer (p + 4).
Proof.
  cbn [le_at].
  replace (p + 1 + 1 + 1 + 1) with (p + 4) by lia.
  set (b0 := byte_at buffer p). set (b1 := byte_at buffer (p + 1)).
  set (b2 := byte_at buffer (p + 1 + 1)).
  set (b3 := byte_at buffer (p + 1 + 1 + 1)).
  set (b4 := byte_at buffer (p + 4)).
  pose proof (byte_at_range buffer p) as H0. fold b0 in H0.
  replace (b0 + 256 * (b1 + 256 * (b2 + 256 * (b3 + 256 * 0))))
    with (b0 + (b1 + 256 * b2 + 65536 * b3) * 256) by lia.
  rewrite Z.div_add by lia. rewrite (Z.div_small b0 256) by lia.
  change (2 ^ 24) with 16777216. lia.
Qed.

(** X18: a [FileEntry] that is built has 300 bytes and the tag 261; its
    [length_of_allocation_descriptors] is the number in the four bytes
    from byte 173 on, which is the number in the four bytes from byte 172
    on divided by 256, plus 2^24 times byte 176; its
    [allocation_descriptors] are cut from the buffer with that length,
    and are empty when it is 0. *)
Theorem file_entry_allocation_length (buffer : bytes) (start : Z)
    (fe : FileEntryDescriptor.t) :
  0 <= start ->
  FileEntryDescriptor.__init__ buffer start = inr fe ->
  let l_ea := FileEntryDescriptor.length_of_extended_attributes fe in
  let l_ad := FileEntryDescriptor.length_of_allocation_descriptors fe in
  start + 300 <= len buffer
  /\ DescriptorTag.tag_identifier (FileEntryDescriptor.descriptor_tag fe)
     = 261
  /\ l_ea = le_at buffer (start + 168) 4
  /\ l_ad = le_at buffer (start + 173) 4
  /\ l_ad = le_at buffer (start + 172) 4 / 256
            + 2 ^ 24 * byte_at buffer (start + 176)
  /\ FileEntryDescriptor.allocation_descriptors fe
     = slice buffer (start + 176 + l_ea) (start + 176 + l_ea + l_ad)
  /\ (l_ad = 0 -> FileEntryDescriptor.allocation_descriptors fe = []).
Proof.
  intros Hs H l_ea l_ad.
  destruct (file_entry_inv buffer start fe Hs H)
    as (Hin & Hid & _ & _ & Hea & Had & Hslice).
  fold l_ea in Hea. fold l_ad in Had. rewrite <- Hea, <- Had in Hslice.
  split; [exact Hin|]. split; [exact Hid|]. split; [exact Hea|].
  split; [exact Had|]. split.
  - rewrite Had. replace (start + 173) with (start + 172 + 1) by lia.
    rewrite le_at_shifted. do 3 f_equal. lia.
  - split; [exact Hslice|]. intros Hzero. rewrite Hslice, Hzero, Z.add_0_r.
    apply slice_self.
Qed.

(** A file entry of a directory of 2048 bytes in one extent at block 5:
    the length of the allocation descriptors, 8, is stored at byte 172,
    the descriptor at byte 176. *)
Definition sample_file_entry : bytes :=
  [x05; x01; x02; x00; x08; x00; x00; x00;
   x00; x00; x00; x00; x00; x00; x00; x00]
  ++ [x00; x00; x00; x00; x04; x00; x00; x00; x01; x00;
      x00; x04; x00; x00; x00; x00; x00; x00; x00; x00]
  ++ repeat x00 20
  ++ [x00; x08; x00; x00; x00; x00; x00; x00]
  ++ repeat x00 108
  ++ [x08; x00; x00; x00]
  ++ [x00; x08; x00; x00; x05; x00; x00; x00]
  ++ repeat x00 116.

Lemma file_entry_allocation_length_witness :
  exists fe,
    FileEntryDescriptor.__init__ sample_file_entry 0 = inr fe
    /\ le_at sample_file_entry 172 4 = 8
    /\ FileEntryDescriptor.length_of_allocation_descriptors fe = 0
    /\ FileEntryDescriptor.allocation_descriptors fe = [].
Proof.
  destruct (FileEntryDescriptor.__init__ sample_file_entry 0) as [e|fe] eqn:E;
    [vm_compute in E; discriminate|].
  exists fe. split; [reflexivity|]. split; [reflexivity|].
  destruct (file_entry_allocation_length sample_file_entry 0 fe ltac:(lia) E)
    as (_ & _ & _ & Had & _ & _ & Hempty).
  assert (Hzero : FileEntryDescriptor.length_of_allocation_descriptors fe = 0).
  { rewrite Had. reflexivity. }
  split; [exact Hzero|exact (Hempty Hzero)].
Defined.

(** A directory with content but no allocation descriptors. *)
Lemma directory_no_extents (IS_PY2 : bool) (partition : LogicalPartition.t)
    (file_entry : FileEntry.t) (f : file) :
  ICBTag.allocation_type (FileEntry.icb_tag file_entry)
  = AllocationType.short_descriptors ->
  FileEntry.allocation_descriptors file_entry = [] ->
  0 < FileEntry.information_length file_entry <= MAX_INT ->
  Directory.__init__ IS_PY2 partition file_entry f
  = Some (inl (Raised (AttributeError
       "'NoneType' object has no attribute 'file_content_offset'")), f).
Proof.
  intros Hshort Hnone Hlen.
  assert (Hinit : FileContentBuffer.__init__ partition file_entry
                    (LogicalPartition.logical_block_size partition)
                  = Some (inr (FileContentBuffer.Make partition file_entry
                                 (LogicalPartition.logical_block_size
                                    partition) []))).
  { unfold FileContentBuffer.__init__, FileContentBuffer.load_extents.
    rewrite Hshort, Hnone. reflexivity. }
  unfold Directory.__init__. rewrite Hinit.
  unfold FileContentBuffer.capacity. cbn [FileContentBuffer.file_entry].
  destruct (Z.gtb_spec (FileEntry.information_length file_entry) MAX_INT);
    [lia|].
  unfold FileContentBuffer.read, FileContentBuffer.read_from_extents,
    FileContentBuffer.capacity.
  cbn [FileContentBuffer.file_entry]. rewrite Hshort.
  change (AllocationType.short_descriptors =? AllocationType.embedded)
    with false. cbv iota.
  rewrite Z.sub_0_r, Z.min_id.
  cbn [FileContentBuffer.read_loop].
  destruct (Z.ltb_spec 0 (FileEntry.information_length file_entry)); [|lia].
  reflexivity.
Qed.

(** X19: a directory whose file entry has short allocation descriptors,
    the four bytes from byte 173 on all zero, and an information length
    that is positive and at most [MAX_INT], is not built: reading its
    content finds no extent and raises [AttributeError]. *)
Theorem directory_length_misread_raises (IS_PY2 : bool)
    (partition : LogicalPartition.t) (buffer : bytes) (start : Z)
    (fe : FileEntryDescriptor.t) (f : file) :
  0 <= start ->
  FileEntryDescriptor.__init__ buffer start = inr fe ->
  ICBTagDescriptor.allocation_type (FileEntryDescriptor.icb_tag fe)
  = AllocationType.short_descriptors ->
  le_at buffer (start + 173) 4 = 0 ->
  0 < FileEntryDescriptor.information_length fe <= MAX_INT ->
  Directory.__init__ IS_PY2 partition (FileEntryDescriptor.file_entry fe) f
  = Some (inl (Raised (AttributeError
       "'NoneType' object has no attribute 'file_content_offset'")), f).
Proof.
  intros Hs H Hshort Hzero Hlen.
  destruct (file_entry_inv buffer start fe Hs H)
    as (_ & _ & _ & _ & _ & _ & Hslice).
  apply directory_no_extents; [exact Hshort| |exact Hlen].
  cbn [FileEntryDescriptor.file_entry FileEntry.allocation_descriptors].
  rewrite Hslice, Hzero, Z.add_0_r. apply slice_self.
Qed.

Lemma directory_length_misread_raises_witness :
  exists fe,
    FileEntryDescriptor.__init__ sample_file_entry 0 = inr fe
    /\ FileEntryDescriptor.information_length fe = 2048
    /\ Directory.__init__ false sample_partition
         (FileEntryDescriptor.file_entry fe) (open_rb sample_file_entry)
       = Some (inl (Raised (AttributeError
            "'NoneType' object has no attribute 'file_content_offset'")),
               open_rb sample_file_entry).
Proof.
  destruct (FileEntryDescriptor.__init__ sample_file_entry 0) as [e|fe] eqn:E;
    [vm_compute in E; discriminate|].
  exists fe. split; [reflexivity|].
  assert (Hinfo : FileEntryDescriptor.information_length fe = 2048).
  { vm_compute in E. injection E as <-. reflexivity. }
  split; [exact Hinfo|].
  apply (directory_length_misread_raises false sample_partition
           sample_file_entry 0 fe (open_rb sample_file_entry) ltac:(lia) E).
  - vm_compute in E. injection E as <-. reflexivity.
  - reflexivity.
  - rewrite Hinfo. unfold MAX_INT. lia.
Defined.

(** *** is_valid_udf needs three sectors *)

Lemma recognition_sequence_size (data : bytes) :
  recognition_sequence data ->
  HEADER_SIZE + 3 * SECTOR_SIZE <= len data.
Proof.
  intros (n & Hall & (i & Hi & Hbea) & (j & Hj & Hnsr) & (k & Hk & Htea)).
  cbv zeta in Hbea, Hnsr, Htea.
  assert (Hij : i <> j).
  { intros ->. rewrite Hbea in Hnsr. destruct Hnsr; discriminate. }
  assert (Hik : i <> k).
  { intros ->. rewrite Hbea in Htea. discriminate. }
  assert (Hjk : j <> k).
  { intros ->. rewrite Htea in Hnsr. destruct Hnsr; discriminate. }
  assert (Hlast : exists m, (m < n)%nat /\ (2 <= m)%nat).
  { destruct (le_lt_dec 2 i); [eauto|].
    destruct (le_lt_dec 2 j); [eauto|].
    destruct (le_lt_dec 2 k); [eauto|]. lia. }
  destruct Hlast as (m & Hm & Htwo).
  destruct (Hall m Hm) as [Hwhole _].
  apply sector_at_whole in Hwhole; [|unfold HEADER_SIZE, SECTOR_SIZE; lia].
  unfold len, HEADER_SIZE, SECTOR_SIZE in *. lia.
Qed.

Lemma valid_udf_recognition (f f' : file) (file_size : Z) :
  is_valid_udf f file_size = Some (inr true, f') ->
  HEADER_SIZE + SECTOR_SIZE <= file_size /\ recognition_sequence (f_data f).
Proof.
  rewrite is_valid_udf_unfold.
  destruct (Z.ltb_spec file_size (HEADER_SIZE + SECTOR_SIZE)) as [Hsmall|Hbig];
    [discriminate|].
  destruct (scan_recognition_spec (f_data f) (S (length (f_data f)))
              HEADER_SIZE false false false)
    as (n & a & v & t & f1 & Hrun & Hall & Hstop & Ha & Hv & Ht).
  { unfold HEADER_SIZE. lia. }
  { generalize (Z.to_nat HEADER_SIZE). intros m. lia. }
  rewrite Hrun. intros H. split; [exact Hbig|].
  assert (Hflags : a && v && t = true) by congruence.
  now apply (flags_iff (f_data f) n a v t Hall Hstop Ha Hv Ht) in Hflags.
Qed.

(** X25: [is_valid_udf] answers [True] only for a file that holds three
    whole sectors after the first 32 KiB, that is 38912 bytes, though the
    size it is given is only checked against 32 KiB plus one sector. *)
Theorem valid_udf_three_sectors (f f' : file) (file_size : Z) :
  is_valid_udf f file_size = Some (inr true, f') ->
  HEADER_SIZE + SECTOR_SIZE <= file_size
  /\ 38912 <= len (f_data f).
Proof.
  intros H. apply valid_udf_recognition in H as [Hbig Hseq].
  split; [exact Hbig|].
  apply recognition_sequence_size in Hseq.
  unfold HEADER_SIZE, SECTOR_SIZE in Hseq. lia.
Qed.

(** A file of 32 KiB of zero bytes and the three sectors [BEA01], [NSR02],
    [TEA01]. *)
Definition recognition_image : bytes :=
  repeat x00 (Z.to_nat HEADER_SIZE)
  ++ (x00 :: b "BEA01" ++ repeat x00 2042)
  ++ (x00 :: b "NSR02" ++ repeat x00 2042)
  ++ (x00 :: b "TEA01" ++ repeat x00 2042).

Lemma valid_udf_three_sectors_witness :
  HEADER_SIZE + SECTOR_SIZE <= 38912 /\ 38912 <= len recognition_image.
Proof.
  assert (Hanswer : option_map fst
                      (is_valid_udf (open_rb recognition_image) 38912)
                    = Some (inr true)) by (vm_compute; reflexivity).
  destruct (is_valid_udf (open_rb recognition_image) 38912)
    as [[answer f']|] eqn:E; [|discriminate Hanswer].
  injection Hanswer as ->.
  apply (valid_udf_three_sectors (open_rb recognition_image) f' 38912 E).
Defined.

(** *** File.from_descriptor *)

Lemma directory_inv (IS_PY2 : bool) (partition : LogicalPartition.t)
    (file_entry : FileEntry.t) (f f' : file)
    (all_entries : list FileIdentifierDescriptor.t) :
  Directory.__init__ IS_PY2 partition file_entry f
  = Some (inr all_entries, f') ->
  ICBTag.allocation_type (FileEntry.icb_tag file_entry)
  = AllocationType.short_descriptors
  /\ FileEntry.information_length file_entry <= MAX_INT
  /\ Forall listed all_entries.
Proof.
  intros H. unfold Directory.__init__ in H.
  destruct (FileContentBuffer.__init__ partition file_entry _)
    as [[e|file_content]|] eqn:Hinit; try discriminate.
  assert (Hshort : ICBTag.allocation_type (FileEntry.icb_tag file_entry)
                   = AllocationType.short_descriptors
                   /\ FileContentBuffer.file_entry file_content = file_entry).
  { unfold FileContentBuffer.__init__, FileContentBuffer.load_extents in Hinit.
    destruct (Z.eqb_spec (ICBTag.allocation_type
                            (FileEntry.icb_tag file_entry))
                AllocationType.short_descriptors) as [Hshort|].
    - split; [exact Hshort|].
      destruct (FileContentBuffer.load_short _ _ _ _ _ _) as [[e|extents]|];
        try discriminate.
      injection Hinit as <-. reflexivity.
    - destruct (_ =? AllocationType.embedded); [discriminate|].
      destruct (_ =? AllocationType.long_descriptors); discriminate. }
  destruct Hshort as [Hshort Hentry]. split; [exact Hshort|].
  unfold FileContentBuffer.capacity in H. rewrite Hentry in H.
  destruct (Z.gtb_spec (FileEntry.information_length file_entry) MAX_INT);
    [discriminate|].
  split; [lia|].
  destruct (FileContentBuffer.read file_content f 0 0 _)
    as [[[e|content_bytes] f1]|]; try discriminate.
  destruct (parse_entries_listed IS_PY2 content_bytes
              (S (length content_bytes)) 0 []) as (r & Hparse & Hall);
    [lia|unfold len; lia|].
  rewrite Hparse in H. injection H as -> _.
  destruct (Hall all_entries eq_refl) as (added & -> & Hlisted).
  exact Hlisted.
Qed.

Lemma from_descriptor_inv (IS_PY2 : bool)
    (logical_partitions : list LogicalPartition.t) (f f' : file)
    (icb : LongAllocationDescriptor.t)
    (all_entries : list FileIdentifierDescriptor.t) :
  from_descriptor IS_PY2 logical_partitions f icb
  = Some (inr all_entries, f') ->
  exists partition root_data_dir f1 fe,
    nth_error logical_partitions
      (Z.to_nat (LogicalBlockAddress.partition_reference_number
                   (LongAllocationDescriptor.extent_location icb)))
    = Some partition
    /\ read_extent logical_partitions f icb = (inr root_data_dir, f1)
    /\ FileEntryDescriptor.__init__ root_data_dir 0 = inr fe
    /\ DescriptorTag.tag_identifier (FileEntryDescriptor.descriptor_tag fe)
       = 261
    /\ ICBTagDescriptor.file_type (FileEntryDescriptor.icb_tag fe) = 4
    /\ ICBTagDescriptor.allocation_type (FileEntryDescriptor.icb_tag fe) = 0
    /\ FileEntryDescriptor.information_length fe <= MAX_INT
    /\ Forall listed all_entries.
Proof.
  intros H. unfold from_descriptor in H.
  destruct (index logical_partitions _) as [e|partition] eqn:Hindex;
    [discriminate|].
  unfold index in Hindex.
  destruct (nth_error logical_partitions _) as [partition'|] eqn:Hnth;
    [|discriminate].
  injection Hindex as ->.
  destruct (read_extent logical_partitions f icb)
    as [[e|root_data_dir] f1] eqn:Hread; [discriminate|].
  destruct (DescriptorTag.__init__ root_data_dir 0) as [e|dt]; [discriminate|].
  destruct (DescriptorTag.tag_identifier dt =? TagIdentifier.FileEntry);
    [|discriminate].
  destruct (FileEntryDescriptor.__init__ root_data_dir 0) as [e|fe] eqn:Hfe;
    [discriminate|].
  destruct (Z.eqb_spec (ICBTagDescriptor.file_type
                          (FileEntryDescriptor.icb_tag fe))
              FileType.directory) as [Htype|]; [|discriminate].
  apply directory_inv in H as (Hshort & Hmax & Hlisted).
  destruct (file_entry_inv root_data_dir 0 fe ltac:(lia) Hfe)
    as (_ & Hid & _).
  exists partition, root_data_dir, f1, fe.
  repeat split; assumption.
Qed.

(** X20: [File.from_descriptor] returns a directory only when the
    partition reference of the descriptor names an existing logical
    partition, the extent read there parses as a file entry (tag 261) of
    file type 4 with short allocation descriptors and an information
    length of at most [MAX_INT]; the entries it then returns are all
    listed ones. *)
Theorem from_descriptor_directory (IS_PY2 : bool)
    (logical_partitions : list LogicalPartition.t) (f f' : file)
    (icb : LongAllocationDescriptor.t)
    (all_entries : list FileIdentifierDescriptor.t) :
  from_descriptor IS_PY2 logical_partitions f icb
  = Some (inr all_entries, f') ->
  exists partition root_data_dir f1 fe,
    nth_error logical_partitions
      (Z.to_nat (LogicalBlockAddress.partition_reference_number
                   (LongAllocationDescriptor.extent_location icb)))
    = Some partition
    /\ read_extent logical_partitions f icb = (inr root_data_dir, f1)
    /\ FileEntryDescriptor.__init__ root_data_dir 0 = inr fe
    /\ DescriptorTag.tag_identifier (FileEntryDescriptor.descriptor_tag fe)
       = 261
    /\ ICBTagDescriptor.file_type (FileEntryDescriptor.icb_tag fe) = 4
    /\ ICBTagDescriptor.allocation_type (FileEntryDescriptor.icb_tag fe) = 0
    /\ FileEntryDescriptor.information_length fe <= MAX_INT
    /\ Forall listed all_entries.
Proof. apply from_descriptor_inv. Qed.

(** An image of two blocks: the file entry of a directory of 52 bytes in
    block 0, and the directory, which holds [sample_identifier], in
    block 1. *)
Definition root_image : bytes :=
  ([x05; x01; x02; x00; x08; x00; x00; x00;
    x00; x00; x00; x00; x00; x00; x00; x00]
   ++ [x00; x00; x00; x00; x04; x00; x00; x00; x01; x00;
       x00; x04; x00; x00; x00; x00; x00; x00; x00; x00]
   ++ repeat x00 20
   ++ [x34; x00; x00; x00; x00; x00; x00; x00]
   ++ repeat x00 108
   ++ [x08; x00; x00; x00]
   ++ [x34; x00; x00; x00; x01; x00; x00; x00]
   ++ repeat x00 1864)
  ++ sample_identifier.

Definition root_icb : LongAllocationDescriptor.t :=
  LongAllocationDescriptor.Make 2048 (LogicalBlockAddress.Make 0 0) [].

Lemma from_descriptor_directory_witness :
  exists all_entries f',
    from_descriptor false [sample_partition] (open_rb root_image) root_icb
    = Some (inr all_entries, f')
    /\ map FileIdentifierDescriptor.file_identifier all_entries
       = [b "SLUS_123.45;1"]
    /\ Forall listed all_entries.
Proof.
  destruct (from_descriptor false [sample_partition] (open_rb root_image)
              root_icb) as [[[e|all_entries] f']|] eqn:E;
    [vm_compute in E; discriminate| |vm_compute in E; discriminate].
  exists all_entries, f'. split; [reflexivity|]. split.
  - vm_compute in E. injection E as <- _. reflexivity.
  - destruct (from_descriptor_directory false [sample_partition]
                (open_rb root_image) f' root_icb all_entries E)
      as (_ & _ & _ & _ & _ & _ & _ & _ & _ & _ & _ & H).
    exact H.
Defined.

(** *** The Logical Volume Descriptor and its partition maps *)

Lemma ok_inv {A : Type} (m : exn + A) (a : A) :
  ok m = Some (inr a) -> m = inr a.
Proof. unfold ok, lift. destruct m; now intros [= <-]. Qed.

Tactic Notation "rbind_inv" hyp(H) "as" ident(E) :=
  match type of H with
  | rbind ?m _ = Some (inr _) =>
    destruct m as [[?|?]|] eqn:E;
      [discriminate H| |discriminate H]; cbn [rbind] in H
  end.

Lemma logical_volume_inv (IS_PY2 : bool) (buffer : bytes) (start : Z)
    (lvd : LogicalVolumeDescriptor.t) :
  0 <= start ->
  LogicalVolumeDescriptor.__init__ IS_PY2 buffer start = Some (inr lvd) ->
  start + 512 <= len buffer
  /\ DescriptorTag.tag_identifier (LogicalVolumeDescriptor.descriptor_tag lvd)
     = TagIdentifier.LogicalVolumeDescriptor
  /\ contains (b "*OSTA UDF Compliant")
              (slice buffer (start + 217) (start + 240)) = true
  /\ LogicalVolumeDescriptor.logical_block_size lvd
     = le_at buffer (start + 212) 4
  /\ LogicalVolumeDescriptor.number_of_partition_maps lvd
     = le_at buffer (start + 268) 4
  /\ LogicalVolumeDescriptor.logical_volume_contents_use lvd
     = slice buffer (start + 248) (start + 264)
  /\ LogicalVolumeDescriptor._raw_partition_maps lvd
     = slice buffer (start + 440) (start + 512).
Proof.
  intros Hs H. unfold LogicalVolumeDescriptor.__init__ in H.
  rbind_inv H as Htag. apply ok_inv, tagged_header_inv in Htag
    as (_ & Hid & Hsize). specialize (Hsize ltac:(discriminate)).
  rbind_inv H as Hvdsn. rbind_inv H as Hname. rbind_inv H as Hblock.
  rbind_inv H as Hdomain. rbind_inv H as Hlength. rbind_inv H as Hnumber.
  rbind_inv H as Himpl. rbind_inv H as Hintegrity.
  apply ok_inv, to_uint32_success in Hblock as [_ Hblock]; [|lia].
  apply ok_inv, to_uint32_success in Hnumber as [_ Hnumber]; [|lia].
  apply ok_inv in Hdomain. unfold EntityID.__init__ in Hdomain.
  bind_inv Hdomain as Hroom. bind_inv Hdomain as Hflags.
  injection Hdomain as <-. cbn [EntityID.identifier] in H.
  match type of H with
  | (if negb ?c then _ else _) = _ =>
    destruct c eqn:Hosta; cbn [negb] in H; [|discriminate H]
  end.
  injection H as <-.
  cbn [LogicalVolumeDescriptor.descriptor_tag
       LogicalVolumeDescriptor.logical_block_size
       LogicalVolumeDescriptor.number_of_partition_maps
       LogicalVolumeDescriptor.logical_volume_contents_use
       LogicalVolumeDescriptor._raw_partition_maps].
  replace (start + 217) with (start + 216 + 1) by lia.
  replace (start + 240) with (start + 216 + 24) by lia.
  now repeat split.
Qed.

(** X30: a [LogicalVolumeDescriptor] that is built has 512 bytes, the
    text [*OSTA UDF Compliant] in the identifier of its domain, and its
    block size and its number of partition maps in the 32-bit words at
    bytes 212 and 268. Its partition maps are read from the 72 bytes from
    byte 440 on: when [partition_maps] returns, it returns as many maps
    as the descriptor counts, and these are at most 12; with a count
    above 12 it raises. *)
Theorem logical_volume_partition_maps (IS_PY2 : bool) (buffer : bytes)
    (start : Z) (lvd : LogicalVolumeDescriptor.t) :
  0 <= start ->
  LogicalVolumeDescriptor.__init__ IS_PY2 buffer start = Some (inr lvd) ->
  start + 512 <= len buffer
  /\ contains (b "*OSTA UDF Compliant")
              (slice buffer (start + 217) (start + 240)) = true
  /\ LogicalVolumeDescriptor.logical_block_size lvd
     = le_at buffer (start + 212) 4
  /\ LogicalVolumeDescriptor.number_of_partition_maps lvd
     = le_at buffer (start + 268) 4
  /\ (forall maps,
        LogicalVolumeDescriptor.partition_maps lvd = inr maps ->
        len maps = LogicalVolumeDescriptor.number_of_partition_maps lvd
        /\ LogicalVolumeDescriptor.number_of_partition_maps lvd <= 12)
  /\ (12 < LogicalVolumeDescriptor.number_of_partition_maps lvd ->
      exists e, LogicalVolumeDescriptor.partition_maps lvd = inl e).
Proof.
  intros Hs H.
  destruct (logical_volume_inv IS_PY2 buffer start lvd Hs H)
    as (Hin & _ & Hosta & Hblock & Hnumber & _ & Hraw).
  assert (Hmaps : forall maps,
            LogicalVolumeDescriptor.partition_maps lvd = inr maps ->
            len maps = LogicalVolumeDescriptor.number_of_partition_maps lvd
            /\ LogicalVolumeDescriptor.number_of_partition_maps lvd <= 12).
  { intros maps Hmaps. unfold LogicalVolumeDescriptor.partition_maps,
      get_partition_maps in Hmaps.
    pose proof (le_at_range buffer 4 (start + 268)) as Hrange.
    rewrite <- Hnumber in Hrange.
    apply partition_maps_loop_inv in Hmaps
      as (added & -> & Hlen & Hroom & _); [|lia].
    rewrite Hraw in Hroom.
    replace (start + 512) with (start + 440 + 72) in Hroom by lia.
    rewrite len_slice_inside in Hroom by lia.
    cbn [app]. unfold len. split; lia. }
  split; [exact Hin|]. split; [exact Hosta|]. split; [exact Hblock|].
  split; [exact Hnumber|]. split; [exact Hmaps|].
  intros Hmany.
  destruct (LogicalVolumeDescriptor.partition_maps lvd) as [e|maps] eqn:E;
    [eauto|]. destruct (Hmaps maps eq_refl). lia.
Qed.

(** *** read_udf_file *)

Lemma scan_recognition_data (fuel : nat) :
  forall f a v t r f',
    scan_recognition fuel f a v t = Some (r, f') -> f_data f' = f_data f.
Proof.
  induction fuel as [|fuel IH]; intros f a v t r f' H; [discriminate|].
  cbn [scan_recognition] in H.
  destruct (read f SECTOR_SIZE) as [buffer f1] eqn:Hread.
  assert (Hdata : f_data f1 = f_data f).
  { rewrite <- (read_data f SECTOR_SIZE), Hread. reflexivity. }
  destruct (len buffer <? SECTOR_SIZE); [now injection H as _ <-|].
  destruct (to_uint8 buffer 0); [now injection H as _ <-|].
  destruct (to_uint8 buffer 6); [now injection H as _ <-|].
  repeat match type of H with
  | (if ?c then _ else _) = _ =>
    destruct c; [apply IH in H; congruence|]
  end.
  now injection H as _ <-.
Qed.

Lemma is_valid_udf_data (f f' : file) (file_size : Z) (r : exn + bool) :
  is_valid_udf f file_size = Some (r, f') -> f_data f' = f_data f.
Proof.
  rewrite is_valid_udf_unfold.
  destruct (file_size <? HEADER_SIZE + SECTOR_SIZE);
    [now intros [= _ <-]|].
  destruct (scan_recognition _ _ false false false) as [[r1 f1]|] eqn:Hscan;
    [|discriminate].
  apply scan_recognition_data in Hscan. cbn [f_data] in Hscan.
  destruct r1 as [e|[[a v] t]]; now intros [= _ <-].
Qed.

Lemma get_sector_size_qualifies (f f' : file) (file_size size : Z) :
  get_sector_size f file_size = (inr size, f') ->
  qualifies (f_data f) file_size size = true /\ f_data f' = f_data f.
Proof.
  intros H. unfold get_sector_size in H.
  destruct (probe_sizes_find file_size [4096; 2048; 1024; 512] f)
    as [Hfind Hdata].
  rewrite H in Hfind, Hdata. cbn [fst snd] in Hfind, Hdata.
  split; [|exact Hdata].
  destruct (find (qualifies (f_data f) file_size) [4096; 2048; 1024; 512])
    as [found|] eqn:Hfound; [|discriminate].
  injection Hfind as ->.
  destruct (List.find_some _ _ Hfound) as [_ Hq]. exact Hq.
Qed.

Lemma get_sector_size_among (f f' : file) (file_size size : Z) :
  get_sector_size f file_size = (inr size, f') ->
  In size [4096; 2048; 1024; 512].
Proof.
  intros H. unfold get_sector_size in H.
  destruct (probe_sizes_find file_size [4096; 2048; 1024; 512] f)
    as [Hfind _].
  rewrite H in Hfind. cbn [fst] in Hfind.
  destruct (find (qualifies (f_data f) file_size) [4096; 2048; 1024; 512])
    as [found|] eqn:Hfound; [|discriminate].
  injection Hfind as ->.
  destruct (List.find_some _ _ Hfound) as [Hin _]. exact Hin.
Qed.

Lemma slice_first (buffer : bytes) (n : nat) :
  slice buffer 0 (Z.of_nat n) = firstn n buffer.
Proof.
  unfold slice, clamp_index. pose proof (len_nonneg buffer).
  destruct (Z.ltb_spec 0 0); [lia|].
  destruct (Z.ltb_spec (Z.of_nat n) 0); [lia|].
  rewrite (Z.min_l 0 (len buffer)) by lia. rewrite Z.sub_0_r.
  change (Z.to_nat 0) with 0%nat. rewrite skipn_O.
  destruct (Z.min_spec (Z.of_nat n) (len buffer)) as [[Hlt ->]|[Hge ->]].
  - now rewrite Nat2Z.id.
  - unfold len. rewrite Nat2Z.id, firstn_all.
    symmetry. apply firstn_all2. unfold len in Hge. lia.
Qed.

(** The checks between [get_sector_size] and the anchor can be left
    out. *)
Lemma read_udf_file_unfold (IS_PY2 : bool) (data : bytes) :
  read_udf_file IS_PY2 (Some data) =
  match is_valid_udf (open_rb data) (len data) with
  | None => None
  | Some (inl e, _) => Some (inl (Raised e))
  | Some (inr false, _) =>
    Some (inl (Raised (Exception "Is not a valid UDF file '{0}'")))
  | Some (inr true, f1) =>
    match get_sector_size f1 (len data) with
    | (inl e, _) => Some (inl (Raised e))
    | (inr sector_size, _) =>
      let (buffer, f2) := read (File data (256 * sector_size)) 512 in
      match AnchorVolumeDescriptorPointer.__init__ buffer 0 with
      | inl e => Some (inl (Raised e))
      | inr avdp => option_map fst (read_volume IS_PY2 sector_size avdp f2)
      end
    end
  end.
Proof.
  unfold read_udf_file, getsize. unfold Session.bind at 1.
  destruct (is_valid_udf (open_rb data) (len data)) as [[r f1]|] eqn:Hvalid;
    [|reflexivity].
  apply is_valid_udf_data in Hvalid. cbn [open_rb f_data] in Hvalid.
  destruct r as [e|[|]]; cbn [lift negb]; [reflexivity| |reflexivity].
  unfold Session.bind at 1.
  destruct (get_sector_size f1 (len data)) as [[e|sector_size] f2] eqn:Hsize;
    cbn [lift]; [reflexivity|].
  apply get_sector_size_qualifies in Hsize as [Hq Hdata].
  rewrite Hvalid in Hq, Hdata. unfold qualifies in Hq.
  apply andb_true_iff in Hq as [Hroom Htag].
  apply Z.leb_le in Hroom.
  destruct (Z.ltb_spec (len data) (257 * sector_size)); [lia|].
  destruct (DescriptorTag.__init__ (tag_bytes_at data sector_size) 0)
    as [e|tag] eqn:Hparse; [discriminate|].
  apply andb_true_iff in Htag as [_ Hid].
  unfold Session.bind, Session.seek, Session.read, Session.of_exn, seek.
  rewrite Hdata.
  destruct (read (File data (256 * sector_size)) 512) as [buffer f3] eqn:Hread.
  assert (Hhead : slice buffer 0 16 = tag_bytes_at data sector_size).
  { unfold read in Hread. cbn [f_data f_pos] in Hread.
    change (512 <? 0) with false in Hread. cbv iota in Hread.
    injection Hread as <- _.
    rewrite (slice_first _ 16). unfold tag_bytes_at.
    rewrite firstn_firstn. f_equal. }
  rewrite Hhead, Hparse. cbn [lift]. rewrite Hid. cbn [negb].
  destruct (AnchorVolumeDescriptorPointer.__init__ buffer 0); reflexivity.
Qed.

(** X26: in [read_udf_file], two checks never raise: once
    [get_sector_size] has returned a sector size, the file is not too
    small to hold all sectors, and the 16 bytes at sector 256 parse as a
    tag with the identifier of the anchor. The call is what is left when
    the two are taken out: the validity check, the sector size, the
    anchor read from 512 bytes at sector 256, and the rest. *)
Theorem read_udf_file_dead_checks (IS_PY2 : bool) (data : bytes) :
  read_udf_file IS_PY2 (Some data) =
  match is_valid_udf (open_rb data) (len data) with
  | None => None
  | Some (inl e, _) => Some (inl (Raised e))
  | Some (inr false, _) =>
    Some (inl (Raised (Exception "Is not a valid UDF file '{0}'")))
  | Some (inr true, f1) =>
    match get_sector_size f1 (len data) with
    | (inl e, _) => Some (inl (Raised e))
    | (inr sector_size, _) =>
      let (buffer, f2) := read (File data (256 * sector_size)) 512 in
      match AnchorVolumeDescriptorPointer.__init__ buffer 0 with
      | inl e => Some (inl (Raised e))
      | inr avdp => option_map fst (read_volume IS_PY2 sector_size avdp f2)
      end
    end
  end.
Proof. apply read_udf_file_unfold. Qed.


Lemma session_bind_inv {A B : Type} (m : Session.t A) (k : A -> Session.t B)
    (f f' : file) (r : B) :
  Session.bind m k f = Some (inr r, f') ->
  exists a f1, m f = Some (inr a, f1) /\ k a f1 = Some (inr r, f').
Proof.
  unfold Session.bind. intros H.
  destruct (m f) as [[[e|a] f1]|]; try discriminate. eauto.
Qed.




(** A successful [read_volume] ends in a successful
    [File.from_descriptor]. *)
Lemma read_volume_listed (IS_PY2 : bool) (sector_size : Z)
    (avdp : AnchorVolumeDescriptorPointer.t) (f f' : file)
    (all_entries : list FileIdentifierDescriptor.t) :
  read_volume IS_PY2 sector_size avdp f = Some (inr all_entries, f') ->
  Forall listed all_entries.
Proof.
  intros H. unfold read_volume in H. cbv zeta in H.
  apply session_bind_inv in H as (st & f1 & _ & H).
  destruct (logical_volume_descriptor st) as [lvd|]; [|discriminate].
  cbn [object_truth negb] in H.
  destruct (partition_descriptor st) as [pd|]; [|discriminate].
  destruct (terminating_descriptor st) as [td|]; [|discriminate].
  apply session_bind_inv in H as (maps & f2 & _ & H).
  apply session_bind_inv in H as (partitions & f3 & _ & H).
  apply session_bind_inv in H as (location & f4 & _ & H).
  apply session_bind_inv in H as (fsd_buffer & f5 & _ & H).
  destruct (DescriptorTag.__init__ fsd_buffer 0) as [e|tag]; [discriminate|].
  apply session_bind_inv in H as (fsd & f6 & _ & H).
  apply from_descriptor_inv in H
    as (_ & _ & _ & _ & _ & _ & _ & _ & _ & _ & _ & Hlisted).
  exact Hlisted.
Qed.

(** X28: when [read_udf_file] returns the root directory, the file
    exists, holds a volume recognition sequence with [BEA01], [NSR02] or
    [NSR03], and [TEA01], and has an anchor at sector 256 for one of the
    sector sizes 4096, 2048, 1024, 512, so it is at least 131584 bytes
    long; the entries returned carry neither the deleted nor the parent
    bit. *)
Theorem read_udf_file_returns_root (IS_PY2 : bool) (found : option bytes)
    (all_entries : list FileIdentifierDescriptor.t) :
  read_udf_file IS_PY2 found = Some (inr all_entries) ->
  exists data sector_size,
    found = Some data
    /\ recognition_sequence data
    /\ In sector_size [4096; 2048; 1024; 512]
    /\ qualifies data (len data) sector_size = true
    /\ 131584 <= len data
    /\ Forall listed all_entries.
Proof.
  intros H. destruct found as [data|]; [|discriminate].
  rewrite read_udf_file_unfold in H.
  destruct (is_valid_udf (open_rb data) (len data))
    as [[[e|[|]] f1]|] eqn:Hvalid; try discriminate.
  pose proof (is_valid_udf_data _ _ _ _ Hvalid) as Hdata.
  apply valid_udf_recognition in Hvalid as [_ Hseq].
  cbn [open_rb f_data] in Hseq, Hdata.
  destruct (get_sector_size f1 (len data)) as [[e|sector_size] f2] eqn:Hsize;
    [discriminate|].
  pose proof (get_sector_size_among _ _ _ _ Hsize) as Hamong.
  apply get_sector_size_qualifies in Hsize as [Hq _]. rewrite Hdata in Hq.
  destruct (read (File data (256 * sector_size)) 512) as [buffer f3].
  destruct (AnchorVolumeDescriptorPointer.__init__ buffer 0) as [e|avdp];
    [discriminate|].
  destruct (read_volume IS_PY2 sector_size avdp f3)
    as [[[e|entries] f4]|] eqn:Hvolume; try discriminate.
  injection H as ->.
  exists data, sector_size. split; [reflexivity|]. split; [exact Hseq|].
  split; [exact Hamong|]. split; [exact Hq|]. split.
  - unfold qualifies in Hq. apply andb_true_iff in Hq as [Hroom _].
    apply Z.leb_le in Hroom.
    destruct Hamong as [<-|[<-|[<-|[<-|[]]]]]; lia.
  - exact (read_volume_listed _ _ _ _ _ _ Hvolume).
Qed.

(** *** A small image *)

(** [width] bytes for the number [n], low byte first. *)
Fixpoint le_bytes (width : nat) (n : Z) : bytes :=
  match width with
  | O => []
  | S width' => chr (n mod 256) :: le_bytes width' (n / 256)
  end.

(** The 16 bytes of a descriptor tag of version 2, with its checksum. *)
Definition make_tag (tag_identifier tag_location : Z) : bytes :=
  let head := le_bytes 2 tag_identifier ++ le_bytes 2 2 in
  let rest := le_bytes 2 0 ++ le_bytes 2 0 ++ le_bytes 2 0
              ++ le_bytes 4 tag_location in
  let sum := fold_right Z.add 0 (map ord (head ++ rest)) in
  head ++ [chr (sum mod 256); x00] ++ rest.

(** Fields written at their offsets, with zero bytes between them and up
    to [size]. *)
Fixpoint layout_from (acc : bytes) (fields : list (Z * bytes)) : bytes :=
  match fields with
  | [] => acc
  | (offset, field) :: rest =>
    layout_from (acc ++ repeat x00 (Z.to_nat (offset - len acc)) ++ field)
                rest
  end.

Definition layout (size : Z) (fields : list (Z * bytes)) : bytes :=
  let l := layout_from [] fields in
  l ++ repeat x00 (Z.to_nat (size - len l)).

Definition recognition_sector (identifier : string) : bytes :=
  layout 2048 [(1, b identifier)].

(** A Logical Volume Descriptor with blocks of 512 bytes, the file set
    descriptor in block 0 of partition 0, and one partition map, for
    partition 0. *)
Definition logical_volume_block : bytes :=
  layout 512 [(0, make_tag 6 0); (212, le_bytes 4 512);
              (217, b "*OSTA UDF Compliant");
              (248, le_bytes 4 512 ++ le_bytes 4 0 ++ le_bytes 2 0);
              (264, le_bytes 4 6); (268, le_bytes 4 1);
              (440, [x01; x06] ++ le_bytes 2 1 ++ le_bytes 2 0)].

(** An image of 257 sectors of 512 bytes: the recognition sequence at
    32 KiB; a Partition Descriptor, a Logical Volume Descriptor and a
    Terminating Descriptor at sectors 80 to 82; the partition from sector
    100 on with the File Set Descriptor in block 0, the file entry of the
    root directory in block 1 and the directory, with the one name
    [SLUS_201.01], in block 2; the anchor at sector 256. *)
Definition udf_image : bytes :=
  layout (257 * 512)
    [ (32768, recognition_sector "BEA01");
      (34816, recognition_sector "NSR02");
      (36864, recognition_sector "TEA01");
      (80 * 512,
       layout 512 [(0, make_tag 5 0); (22, le_bytes 2 0);
                   (188, le_bytes 4 100); (192, le_bytes 4 100)]);
      (81 * 512, logical_volume_block);
      (82 * 512, layout 512 [(0, make_tag 8 0)]);
      (100 * 512,
       layout 512 [(0, make_tag 256 0);
                   (400, le_bytes 4 512 ++ le_bytes 4 1 ++ le_bytes 2 0)]);
      (101 * 512,
       layout 512 [(0, make_tag 261 0); (27, [x04]); (56, le_bytes 8 52);
                   (168, le_bytes 4 0); (172, le_bytes 4 8);
                   (176, le_bytes 4 52 ++ le_bytes 4 2)]);
      (102 * 512,
       layout 52 [(0, make_tag 257 0); (16, le_bytes 2 1); (18, [x00]);
                  (19, [x0c]);
                  (20, le_bytes 4 512 ++ le_bytes 4 1 ++ le_bytes 2 0);
                  (36, le_bytes 2 0); (38, x08 :: b "SLUS_201.01")]);
      (256 * 512,
       layout 512 [(0, make_tag 2 256);
                   (16, le_bytes 4 1536 ++ le_bytes 4 80)]) ].

Lemma logical_volume_partition_maps_witness :
  exists lvd maps,
    LogicalVolumeDescriptor.__init__ false logical_volume_block 0
    = Some (inr lvd)
    /\ LogicalVolumeDescriptor.partition_maps lvd = inr maps
    /\ len maps = LogicalVolumeDescriptor.number_of_partition_maps lvd
    /\ LogicalVolumeDescriptor.number_of_partition_maps lvd <= 12.
Proof.
  destruct (LogicalVolumeDescriptor.__init__ false logical_volume_block 0)
    as [[e|lvd]|] eqn:E;
    [vm_compute in E; discriminate| |vm_compute in E; discriminate].
  destruct (LogicalVolumeDescriptor.partition_maps lvd) as [e|maps] eqn:Emaps.
  { vm_compute in E. injection E as <-. vm_compute in Emaps.
    discriminate Emaps. }
  exists lvd, maps. split; [reflexivity|]. split; [exact Emaps|].
  destruct (logical_volume_partition_maps false logical_volume_block 0 lvd
              ltac:(lia) E) as (_ & _ & _ & _ & Hmaps & _).
  exact (Hmaps maps Emaps).
Defined.


Lemma read_udf_file_returns_root_witness :
  exists all_entries,
    read_udf_file false (Some udf_image) = Some (inr all_entries)
    /\ map FileIdentifierDescriptor.file_identifier all_entries
       = [b "SLUS_201.01"]
    /\ 131584 <= len udf_image
    /\ Forall listed all_entries.
Proof.
  assert (Hrun : match read_udf_file false (Some udf_image) with
                 | Some (inr all_entries) =>
                   bool_decide
                     (map FileIdentifierDescriptor.file_identifier all_entries
                      = [b "SLUS_201.01"])
                 | _ => false
                 end = true) by (vm_compute; reflexivity).
  destruct (read_udf_file false (Some udf_image)) as [[e|all_entries]|] eqn:E;
    try discriminate Hrun.
  exists all_entries. split; [reflexivity|].
  split; [now apply bool_decide_eq_true in Hrun|].
  destruct (read_udf_file_returns_root false (Some udf_image) all_entries E)
    as (data & sector_size & Hfound & _ & _ & _ & Hsize & Hlisted).
  injection Hfound as <-. split; [exact Hsize|exact Hlisted].
Defined.

End ReadUdfExtFacts.

(** ** More properties of identify_playstation2_games.py *)

Module IdentifyExtFacts.
Import Identify PyFacts IdentifyFacts.

(** *** What the scanner returns *)

(** The text of a match: the prefix, one separator byte, the body, [';']. *)
Definition pattern_text (prefix : bytes) (sep : byte) (body : bytes) : bytes :=
  prefix ++ sep :: body ++ [";"%byte].

(** Line 166 on the text of a match. *)
Definition cleaned (group : bytes) : bytes :=
  replace ";"%byte [] (replace "_"%byte (b "-") (replace "."%byte [] group)).

(** A byte that the three replacements leave alone. *)
Definition plain (c : byte) : Prop :=
  c <> "."%byte /\ c <> "_"%byte /\ c <> ";"%byte.

Lemma startswith_app (p s : bytes) :
  startswith p s = true -> s = p ++ skipn (length p) s.
Proof.
  revert s. induction p as [|c p IH]; intros [|d s] H; cbn in *;
    try discriminate; try reflexivity.
  apply andb_true_iff in H as [Hc Hp].
  apply bool_decide_eq_true in Hc as ->. f_equal. now apply IH.
Qed.

Lemma match_tail_shape (s m : bytes) :
  match_tail s = Some m ->
  exists body post,
    m = body ++ [";"%byte] /\ s = m ++ post /\ forallb is_body body = true.
Proof.
  revert m. induction s as [|c t IH]; intros m H; cbn in H; [discriminate|].
  destruct (is_body c) eqn:Hc.
  - destruct (match_tail t) as [m'|] eqn:Ht; [|discriminate].
    injection H as <-.
    destruct (IH m' eq_refl) as (body & post & Hm & Hs & Hb).
    exists (c :: body), post. cbn [forallb app]. rewrite Hc, Hb, Hm.
    split; [reflexivity|]. split; [|reflexivity].
    rewrite Hs, Hm. reflexivity.
  - destruct (bool_decide (c = ";"%byte)) eqn:Hs; [|discriminate].
    apply bool_decide_eq_true in Hs as ->. injection H as <-.
    exists [], t. repeat split.
Qed.

Lemma match_here_shape (prefix s m : bytes) :
  match_here prefix s = Some m ->
  exists sep body post,
    m = pattern_text prefix sep body /\ s = m ++ post
    /\ is_separator sep = true /\ body <> []
    /\ forallb is_body body = true.
Proof.
  intros H. unfold match_here in H.
  destruct (startswith prefix s) eqn:Hp; [|discriminate].
  apply startswith_app in Hp.
  destruct (skipn (length prefix) s) as [|c [|d rest]]; try discriminate.
  destruct (is_separator c) eqn:Hc; [|discriminate].
  destruct (is_body d) eqn:Hd; [|discriminate]. cbn [andb] in H.
  destruct (match_tail rest) as [m'|] eqn:Ht; [|discriminate].
  injection H as <-.
  apply match_tail_shape in Ht as (body & post & -> & Hrest & Hb).
  exists c, (d :: body), post. unfold pattern_text.
  split; [reflexivity|]. split.
  - rewrite Hp at 1. rewrite Hrest.
    now rewrite <- !app_assoc, <- !app_comm_cons, <- ?app_assoc.
  - split; [exact Hc|]. split; [discriminate|].
    cbn [forallb]. now rewrite Hd, Hb.
Qed.

Lemma re_search_shape (prefix s m : bytes) :
  re_search prefix s = Some m ->
  exists sep body pre post,
    m = pattern_text prefix sep body /\ s = pre ++ m ++ post
    /\ is_separator sep = true /\ body <> []
    /\ forallb is_body body = true.
Proof.
  induction s as [|c t IH]; cbn [re_search]; intros H.
  - destruct (match_here prefix []) as [m'|] eqn:Hm; [|discriminate].
    injection H as ->.
    apply match_here_shape in Hm as (sep & body & post & H1 & H2 & H3).
    exists sep, body, [], post. now repeat split.
  - destruct (match_here prefix (c :: t)) as [m'|] eqn:Hm.
    + injection H as ->.
      apply match_here_shape in Hm as (sep & body & post & H1 & H2 & H3).
      exists sep, body, [], post. now repeat split.
    + destruct (IH H) as (sep & body & pre & post & H1 & H2 & H3).
      exists sep, body, (c :: pre), post. split; [exact H1|].
      split; [now rewrite H2|exact H3].
Qed.

Lemma search_prefixes_shape (prefixes : list bytes) (s serial : bytes) :
  search_prefixes prefixes s = Some serial ->
  exists prefix sep body pre post,
    In prefix prefixes
    /\ s = pre ++ pattern_text prefix sep body ++ post
    /\ is_separator sep = true /\ body <> []
    /\ forallb is_body body = true
    /\ contains (b "999.99") (pattern_text prefix sep body) = false
    /\ serial = cleaned (pattern_text prefix sep body).
Proof.
  induction prefixes as [|prefix rest IH]; cbn [search_prefixes]; intros H;
    [discriminate|].
  assert (Hrest : search_prefixes rest s = Some serial ->
                  exists prefix0 sep body pre post,
                    In prefix0 (prefix :: rest)
                    /\ s = pre ++ pattern_text prefix0 sep body ++ post
                    /\ is_separator sep = true /\ body <> []
                    /\ forallb is_body body = true
                    /\ contains (b "999.99") (pattern_text prefix0 sep body)
                       = false
                    /\ serial = cleaned (pattern_text prefix0 sep body)).
  { intros H'. destruct (IH H') as (p & sep & body & pre & post & Hin & Hr).
    exists p, sep, body, pre, post. split; [now right|exact Hr]. }
  destruct (re_search prefix s) as [group|] eqn:Hgroup; [|now apply Hrest].
  destruct (negb (bool_decide (group = []))); cbn [andb] in H;
    [|now apply Hrest].
  destruct (contains (b "999.99") group) eqn:Hplace; cbn [negb] in H;
    [now apply Hrest|].
  injection H as <-.
  apply re_search_shape in Hgroup
    as (sep & body & pre & post & -> & Hs & Hsep & Hbody & Hall).
  exists prefix, sep, body, pre, post. split; [now left|].
  now repeat split.
Qed.

(** Every read of the scanner is a piece of the file. *)
Lemma chunk_at_piece (buffer_size : Z) (data : bytes) (pos : Z) :
  exists pre post, data = pre ++ chunk_at buffer_size data pos ++ post.
Proof.
  unfold chunk_at.
  exists (firstn (Z.to_nat pos) data),
         (skipn (Z.to_nat buffer_size) (skipn (Z.to_nat pos) data)).
  now rewrite !firstn_skipn.
Qed.

Lemma scan_sound (buffer_size : Z) (data : bytes) (file_size : Z) :
  0 <= buffer_size ->
  forall fuel pos serial,
    scan buffer_size fuel (File data pos) file_size = Some (Some serial) ->
    exists pos',
      search_prefixes PREFIXES (chunk_at buffer_size data pos')
      = Some serial.
Proof.
  intros Hb. induction fuel as [|fuel IH]; intros pos serial H;
    [discriminate|].
  rewrite scan_turn in H by exact Hb. cbv zeta in H.
  destruct (bool_decide (chunk_at buffer_size data pos = []));
    [discriminate|].
  destruct (search_prefixes PREFIXES (chunk_at buffer_size data pos))
    as [found|] eqn:Hfound.
  - injection H as <-. now exists pos.
  - now apply IH in H.
Qed.

Lemma replace_plain (old : byte) (new s : bytes) :
  Forall (fun c => c <> old) s -> replace old new s = s.
Proof.
  induction 1 as [|c s Hc _ IH]; cbn [replace]; [reflexivity|].
  rewrite bool_decide_eq_false_2 by exact Hc. now rewrite IH.
Qed.

Lemma replace_dots (s : bytes) : replace "."%byte [] s = drop_dots s.
Proof.
  induction s as [|c s IH]; cbn [replace drop_dots List.filter];
    [reflexivity|].
  fold (drop_dots s). destruct (bool_decide (c = "."%byte)); cbn [negb app];
    now rewrite IH.
Qed.

Lemma is_body_cases (c : byte) :
  is_body c = true -> c <> "_"%byte /\ c <> ";"%byte.
Proof. destruct c; vm_compute; intros H; (discriminate H || now split). Qed.

Lemma is_separator_cases (c : byte) :
  is_separator c = true -> c = "_"%byte \/ c = "|"%byte \/ c = "-"%byte.
Proof. destruct c; vm_compute; intros H; (discriminate H || tauto). Qed.

Lemma drop_dots_body (body : bytes) :
  forallb is_body body = true ->
  Forall (fun c => c <> "_"%byte) (drop_dots body)
  /\ Forall (fun c => c <> ";"%byte) (drop_dots body).
Proof.
  induction body as [|c body IH]; cbn [forallb drop_dots List.filter];
    intros H; [split; constructor|].
  apply andb_true_iff in H as [Hc Hb]. fold (drop_dots body).
  destruct (IH Hb) as [H1 H2]. destruct (is_body_cases c Hc) as [Hu Hs].
  destruct (negb _); split; try constructor; assumption.
Qed.

Lemma cleaned_pattern_text (prefix : bytes) (sep : byte) (body : bytes) :
  Forall plain prefix -> is_separator sep = true ->
  forallb is_body body = true ->
  cleaned (pattern_text prefix sep body)
  = prefix ++ (if bool_decide (sep = "_"%byte) then "-"%byte else sep)
           :: drop_dots body.
Proof.
  intros Hp Hsep Hb. unfold cleaned, pattern_text.
  change (sep :: body ++ [";"%byte]) with ([sep] ++ body ++ [";"%byte]).
  rewrite !replace_app.
  rewrite (replace_plain "."%byte _ prefix)
    by (eapply List.Forall_impl; [|exact Hp]; now intros c (H & _)).
  rewrite (replace_plain "_"%byte _ prefix)
    by (eapply List.Forall_impl; [|exact Hp]; now intros c (_ & H & _)).
  rewrite (replace_plain ";"%byte _ prefix)
    by (eapply List.Forall_impl; [|exact Hp]; now intros c (_ & _ & H)).
  rewrite (replace_dots body).
  destruct (drop_dots_body body Hb) as [Hu Hs].
  rewrite (replace_plain "_"%byte _ (drop_dots body)) by exact Hu.
  rewrite (replace_plain ";"%byte _ (drop_dots body)) by exact Hs.
  f_equal.
  destruct (is_separator_cases sep Hsep) as [-> | [-> | ->]];
    change (replace "."%byte [] [";"%byte]) with [";"%byte];
    change (replace "_"%byte (b "-") [";"%byte]) with [";"%byte];
    change (replace ";"%byte [] [";"%byte]) with (@nil byte);
    rewrite app_nil_r; reflexivity.
Qed.

Definition plainb (c : byte) : bool :=
  negb (bool_decide (c = "."%byte)) && negb (bool_decide (c = "_"%byte))
  && negb (bool_decide (c = ";"%byte)).

Lemma plainb_plain (c : byte) : plainb c = true -> plain c.
Proof.
  unfold plainb, plain. intros H.
  apply andb_true_iff in H as [H H3]. apply andb_true_iff in H as [H1 H2].
  apply negb_true_iff, bool_decide_eq_false in H1, H2, H3. now repeat split.
Qed.

Lemma prefixes_plain : Forall (Forall plain) PREFIXES.
Proof.
  assert (H : forallb (forallb plainb) PREFIXES = true)
    by (vm_compute; reflexivity).
  apply List.Forall_forall. intros prefix Hin.
  apply List.Forall_forall. intros c Hc. apply plainb_plain.
  rewrite forallb_forall in H. specialize (H prefix Hin).
  rewrite forallb_forall in H. now apply H.
Qed.

Lemma find_in_binary_with_sound (buffer_size : Z) (data serial : bytes) :
  0 <= buffer_size ->
  find_in_binary_with buffer_size data = Some (Some serial) ->
  exists prefix sep body pre post,
    In prefix PREFIXES
    /\ is_separator sep = true /\ body <> []
    /\ forallb is_body body = true
    /\ data = pre ++ pattern_text prefix sep body ++ post
    /\ contains (b "999.99") (pattern_text prefix sep body) = false
    /\ serial
       = prefix ++ (if bool_decide (sep = "_"%byte) then "-"%byte else sep)
                :: drop_dots body.
Proof.
  intros Hsize H. unfold find_in_binary_with, open_rb in H.
  apply scan_sound in H as [pos H]; [|exact Hsize].
  apply search_prefixes_shape in H
    as (prefix & sep & body & pre & post & Hin & Hchunk & Hsep & Hbody
        & Hall & Hplace & ->).
  destruct (chunk_at_piece buffer_size data pos) as (pre0 & post0 & Hdata).
  exists prefix, sep, body, (pre0 ++ pre), (post ++ post0).
  split; [exact Hin|]. split; [exact Hsep|]. split; [exact Hbody|].
  split; [exact Hall|]. split.
  - rewrite Hchunk in Hdata. rewrite <- !app_assoc in *. exact Hdata.
  - split; [exact Hplace|].
    apply cleaned_pattern_text; [|exact Hsep|exact Hall].
    pose proof prefixes_plain as Hplain.
    rewrite List.Forall_forall in Hplain. now apply Hplain.
Qed.

Lemma find_in_binary_shape (data serial : bytes) :
  _find_in_binary data = Some (Some serial) ->
  exists prefix sep body pre post,
    In prefix PREFIXES
    /\ is_separator sep = true /\ body <> []
    /\ forallb is_body body = true
    /\ data = pre ++ pattern_text prefix sep body ++ post
    /\ contains (b "999.99") (pattern_text prefix sep body) = false
    /\ serial
       = prefix ++ (if bool_decide (sep = "_"%byte) then "-"%byte else sep)
                :: drop_dots body.
Proof.
  apply find_in_binary_with_sound. unfold BUFFER_SIZE. lia.
Qed.

(** X21: a serial that [_find_in_binary] returns is never made up: the
    file holds, free of [999.99], a prefix of the table followed by one of
    ['_'], ['|'], ['-'], then one or more digits, ['|'] or ['.'], then
    [';']; the serial is that text with the separator ['_'] turned into
    ['-'], the dots dropped and the [';'] dropped. *)
Theorem find_in_binary_sound (data serial : bytes) :
  _find_in_binary data = Some (Some serial) ->
  exists prefix sep body pre post,
    In prefix PREFIXES
    /\ is_separator sep = true /\ body <> []
    /\ forallb is_body body = true
    /\ data = pre ++ pattern_text prefix sep body ++ post
    /\ contains (b "999.99") (pattern_text prefix sep body) = false
    /\ serial
       = prefix ++ (if bool_decide (sep = "_"%byte) then "-"%byte else sep)
                :: drop_dots body.
Proof. apply find_in_binary_shape. Qed.

Lemma find_in_binary_sound_witness :
  exists prefix sep body pre post,
    In prefix PREFIXES
    /\ is_separator sep = true /\ body <> []
    /\ forallb is_body body = true
    /\ b "BOOT2 = cdrom0:\SLUS_201.01;1" 
       = pre ++ pattern_text prefix sep body ++ post
    /\ contains (b "999.99") (pattern_text prefix sep body) = false
    /\ b "SLUS-20101"
       = prefix ++ (if bool_decide (sep = "_"%byte) then "-"%byte else sep)
                :: drop_dots body.
Proof.
  apply (find_in_binary_sound (b "BOOT2 = cdrom0:\SLUS_201.01;1")
           (b "SLUS-20101")).
  unfold _find_in_binary. rewrite find_in_binary_one_buffer.
  - vm_compute. reflexivity.
  - unfold BUFFER_SIZE. lia.
  - vm_compute. discriminate.
Defined.

(** X22: a file of at most 10 MiB is searched in one piece: the result of
    [_find_in_binary] is that of the search for the prefixes, in the order
    of the table, over all the bytes of the file. *)
Theorem find_in_binary_small_file (data : bytes) :
  len data <= BUFFER_SIZE ->
  _find_in_binary data = Some (search_prefixes PREFIXES data).
Proof.
  intros H. unfold _find_in_binary.
  apply find_in_binary_one_buffer; [unfold BUFFER_SIZE; lia|exact H].
Qed.

Lemma find_in_binary_small_file_witness :
  _find_in_binary (b "BOOT2 = cdrom0:\SLUS_201.01;1")
  = Some (search_prefixes PREFIXES (b "BOOT2 = cdrom0:\SLUS_201.01;1")).
Proof.
  apply (find_in_binary_small_file (b "BOOT2 = cdrom0:\SLUS_201.01;1")).
  vm_compute. discriminate.
Defined.

(** *** What the orchestrator returns *)

Section OrchestratorExtFacts.

Variables db_as db_au db_eu db_jp db_ko db_us : gmap bytes string.

Abbreviation identify := (identify db_as db_au db_eu db_jp db_ko db_us).
Abbreviation look_up := (look_up db_as db_au db_eu db_jp db_ko db_us).
Abbreviation resolve := (resolve db_as db_au db_eu db_jp db_ko db_us).
Abbreviation get_playstation2_game_info :=
  (get_playstation2_game_info db_as db_au db_eu db_jp db_ko db_us).

(** The title and the region come from the first table, in the order
    Asia, Australia, Europe, Japan, Korea, USA, that has the serial as a
    key. *)
Definition from_first_table (serial : bytes) (title region : string) : Prop :=
  (db_as !! serial = Some title /\ region = "Asia"%string)
  \/ (db_as !! serial = None /\ db_au !! serial = Some title
      /\ region = "Australia"%string)
  \/ (db_as !! serial = None /\ db_au !! serial = None
      /\ db_eu !! serial = Some title /\ region = "Europe"%string)
  \/ (db_as !! serial = None /\ db_au !! serial = None
      /\ db_eu !! serial = None /\ db_jp !! serial = Some title
      /\ region = "Japan"%string)
  \/ (db_as !! serial = None /\ db_au !! serial = None
      /\ db_eu !! serial = None /\ db_jp !! serial = None
      /\ db_ko !! serial = Some title /\ region = "Korea"%string)
  \/ (db_as !! serial = None /\ db_au !! serial = None
      /\ db_eu !! serial = None /\ db_jp !! serial = None
      /\ db_ko !! serial = None /\ db_us !! serial = Some title
      /\ region = "USA"%string).

Lemma look_up_first_table (serial : bytes) (title region : string) :
  look_up serial = (Some title, Some region) ->
  from_first_table serial title region.
Proof.
  unfold Identify.look_up, from_first_table. intros H.
  destruct (db_as !! serial) as [t|]; [injection H as -> <-; tauto|].
  destruct (db_au !! serial) as [t|]; [injection H as -> <-; tauto|].
  destruct (db_eu !! serial) as [t|]; [injection H as -> <-; tauto|].
  destruct (db_jp !! serial) as [t|]; [injection H as -> <-; tauto|].
  destruct (db_ko !! serial) as [t|]; [injection H as -> <-; tauto|].
  destruct (db_us !! serial) as [t|]; [injection H as -> <-|discriminate].
  do 5 right. tauto.
Qed.

Lemma resolve_inv (disc_type : string) (sub_entry : bytes) (info : game_info) :
  resolve disc_type sub_entry = Some info ->
  serial_number info = sanitize sub_entry
  /\ disc_type = Identify.disc_type info
  /\ bytes_in (split_head "-"%byte (serial_number info)) PREFIXES = true
  /\ title info <> EmptyString
  /\ from_first_table (serial_number info) (title info) (region info).
Proof.
  unfold IdentifyFacts.resolve. intros H.
  destruct (bytes_in _ PREFIXES) eqn:Hprefix; [|discriminate].
  destruct (look_up (sanitize sub_entry)) as [[t|] [r|]] eqn:Hlook;
    try discriminate.
  destruct (bool_decide (t = EmptyString)) eqn:Hempty; [discriminate|].
  injection H as <-. cbn [serial_number title region Identify.disc_type].
  apply bool_decide_eq_false in Hempty.
  apply look_up_first_table in Hlook. now repeat split.
Qed.

Lemma identify_inv (disc_type : string) (entries : list (option bytes))
    (info : game_info) :
  identify disc_type entries = inr info ->
  exists before sub_entry after,
    entries = map Some before ++ Some sub_entry :: after
    /\ Forall (fun e => resolve disc_type e = None) before
    /\ resolve disc_type sub_entry = Some info.
Proof.
  induction entries as [|[sub_entry|] rest IH]; intros H;
    [discriminate| |discriminate].
  rewrite identify_cons in H.
  destruct (resolve disc_type sub_entry) as [found|] eqn:Hfound.
  - injection H as ->. exists [], sub_entry, rest.
    split; [reflexivity|]. split; [constructor|exact Hfound].
  - destruct (IH H) as (before & e & after & -> & Hbefore & He).
    exists (sub_entry :: before), e, after.
    split; [reflexivity|]. split; [now constructor|exact He].
Qed.


Lemma orchestrator_cd (image : disc_image) (e1 : exn) (paths : list bytes) :
  bytes_in (lower (extension image)) [b ".iso"; b ".bin"] = true ->
  udf_identifiers image = inl e1 ->
  iso_tree image = inr paths ->
  get_playstation2_game_info image
  = Some (identify "CD" (map Some (map (lstrip "/"%byte) paths))).
Proof.
  intros Hext Hudf Hiso. unfold Identify.get_playstation2_game_info.
  rewrite Hext, Hudf, Hiso. cbn [negb]. now rewrite map_map.
Qed.




(** *** The serial of a record found by the scanner *)

(** A byte of a serial that the scanner returns, after the prefix and the
    separator. *)
Definition is_digit_or_bar (c : byte) : Prop :=
  is_digit c \/ c = "|"%byte.

Definition upper_letterb (c : byte) : bool :=
  (65 <=? ord c) && (ord c <=? 90).

Lemma upper_letterb_spec (c : byte) :
  upper_letterb c = true -> is_upper_letter c.
Proof.
  unfold upper_letterb, is_upper_letter. intros H.
  apply andb_true_iff in H as [H1 H2].
  apply Z.leb_le in H1, H2. lia.
Qed.

Lemma prefixes_upper (prefix : bytes) :
  In prefix PREFIXES ->
  prefix = b "Sierra" \/ Forall is_upper_letter prefix.
Proof.
  intros Hin.
  assert (H : forallb (fun p => bool_decide (p = b "Sierra")
                                || forallb upper_letterb p) PREFIXES = true)
    by (vm_compute; reflexivity).
  rewrite forallb_forall in H. specialize (H prefix Hin).
  apply orb_true_iff in H as [H|H].
  - left. now apply bool_decide_eq_true in H.
  - right. apply List.Forall_forall. intros c Hc.
    rewrite forallb_forall in H. now apply upper_letterb_spec, H.
Qed.

Lemma prefixes_letters (x : bytes) :
  In x PREFIXES ->
  Forall (fun c => c <> "|"%byte /\ c <> "-"%byte) x.
Proof.
  intros Hin.
  assert (H : forallb (forallb (fun c => negb (bool_decide (c = "|"%byte))
                                         && negb (bool_decide (c = "-"%byte))))
                      PREFIXES = true) by (vm_compute; reflexivity).
  rewrite forallb_forall in H. specialize (H x Hin).
  rewrite forallb_forall in H. apply List.Forall_forall. intros c Hc.
  specialize (H c Hc). apply andb_true_iff in H as [H1 H2].
  apply negb_true_iff, bool_decide_eq_false in H1, H2. now split.
Qed.

Lemma split_head_whole (sep : byte) (s : bytes) :
  Forall (fun c => c <> sep) s -> split_head sep s = s.
Proof.
  induction 1 as [|c s Hc _ IH]; cbn [split_head]; [reflexivity|].
  rewrite bool_decide_eq_false_2 by exact Hc. now rewrite IH.
Qed.

Lemma is_body_digit (c : byte) :
  is_body c = true -> c <> "."%byte -> is_digit_or_bar c.
Proof.
  unfold is_body, is_digit_or_bar, is_digit. intros H Hdot.
  apply orb_true_iff in H as [H|H].
  - apply orb_true_iff in H as [H|H].
    + apply andb_true_iff in H as [H1 H2]. apply Z.leb_le in H1, H2.
      left. lia.
    + right. now apply bool_decide_eq_true in H.
  - now apply bool_decide_eq_true in H.
Qed.

Lemma drop_dots_digits (body : bytes) :
  forallb is_body body = true -> Forall is_digit_or_bar (drop_dots body).
Proof.
  induction body as [|c body IH]; cbn [forallb drop_dots List.filter];
    intros H; [constructor|].
  apply andb_true_iff in H as [Hc Hb]. fold (drop_dots body).
  destruct (bool_decide (c = "."%byte)) eqn:Hdot; cbn [negb]; [now apply IH|].
  apply bool_decide_eq_false in Hdot.
  constructor; [now apply is_body_digit|now apply IH].
Qed.

Lemma digit_or_bar_clean (c : byte) :
  is_digit_or_bar c -> clean c /\ c <> "-"%byte.
Proof.
  intros [H| ->].
  - split; [now apply digit_clean|]. intros ->. vm_compute in H.
    intuition congruence.
  - split; [|discriminate]. repeat split; discriminate.
Qed.

Lemma bar_not_prefix (x y : bytes) :
  bytes_in (x ++ "|"%byte :: y) PREFIXES = false.
Proof.
  destruct (bytes_in (x ++ "|"%byte :: y) PREFIXES) eqn:H; [|reflexivity].
  apply bytes_in_true, prefixes_letters in H.
  rewrite List.Forall_forall in H.
  destruct (H "|"%byte) as [Hbar _]; [|now destruct Hbar].
  apply in_or_app. right. now left.
Qed.

(** The serial [prefix ++ sep :: digits] of the scanner passes the check
    of the prefix only with a dash and an upper-case prefix, and is then
    left as it is by the orchestrator. *)
Lemma scanned_serial_resolves (prefix : bytes) (sep : byte) (digits : bytes) :
  In prefix PREFIXES ->
  sep = "-"%byte \/ sep = "|"%byte ->
  Forall is_digit_or_bar digits ->
  bytes_in (split_head "-"%byte (sanitize (prefix ++ sep :: digits)))
           PREFIXES = true ->
  prefix <> b "Sierra" /\ sep = "-"%byte
  /\ sanitize (prefix ++ sep :: digits) = prefix ++ sep :: digits.
Proof.
  intros Hin Hsep Hdigits Hcheck.
  assert (Htail : Forall clean (sep :: digits)).
  { constructor.
    - destruct Hsep as [-> | ->]; repeat split; discriminate.
    - eapply List.Forall_impl; [|exact Hdigits].
      intros c Hc. now apply digit_or_bar_clean. }
  assert (Hnodash : Forall (fun c => c <> "-"%byte) digits).
  { eapply List.Forall_impl; [|exact Hdigits].
    intros c Hc. now apply digit_or_bar_clean. }
  rewrite sanitize_app, (sanitize_fixes_clean _ Htail) in Hcheck.
  destruct (prefixes_upper prefix Hin) as [-> | Hupper].
  - exfalso. change (sanitize (b "Sierra")) with (b "SIERRA") in Hcheck.
    destruct Hsep as [-> | ->].
    + rewrite split_head_app in Hcheck
        by (repeat constructor; discriminate).
      vm_compute in Hcheck. discriminate.
    + rewrite split_head_whole in Hcheck.
      * now rewrite bar_not_prefix in Hcheck.
      * apply Forall_app. split; [repeat constructor; discriminate|].
        constructor; [discriminate|exact Hnodash].
  - assert (Hclean : Forall clean prefix).
    { eapply List.Forall_impl; [|exact Hupper].
      intros c Hc. now apply upper_letter_clean. }
    rewrite (sanitize_fixes_clean _ Hclean) in Hcheck.
    assert (Hsame : sanitize (prefix ++ sep :: digits)
                    = prefix ++ sep :: digits).
    { apply sanitize_fixes_clean. apply Forall_app. now split. }
    destruct Hsep as [-> | ->].
    + split; [|split; [reflexivity|exact Hsame]].
      intros ->. inversion Hupper as [|c l Hc _]. vm_compute in Hc.
      destruct Hc as [_ Hc]. now apply Hc.
    + exfalso. rewrite split_head_whole in Hcheck.
      * now rewrite bar_not_prefix in Hcheck.
      * apply Forall_app. split.
        -- eapply List.Forall_impl; [|exact Hupper].
           intros c Hc. now apply upper_letter_not_dash.
        -- constructor; [discriminate|exact Hnodash].
Qed.

(** X29: a record with disc type [Binary] carries the serial exactly as
    [_find_in_binary] returned it: a prefix of the table other than
    [Sierra], a dash, and then digits and bars only. In the file the
    prefix was followed by ['_'] or ['-']; a match with ['|'] as its
    separator never gives a record. *)
Theorem binary_serial_format (image : disc_image) (info : game_info) :
  get_playstation2_game_info image = Some (inr info) ->
  disc_type info = "Binary"%string ->
  _find_in_binary (content image) = Some (Some (serial_number info))
  /\ exists prefix digits,
       In prefix PREFIXES /\ prefix <> b "Sierra"
       /\ Forall is_digit_or_bar digits
       /\ serial_number info = prefix ++ "-"%byte :: digits.
Proof.
  intros H Hbinary.
  destruct (bytes_in (lower (extension image)) [b ".iso"; b ".bin"])
    eqn:Hext.
  2: { unfold Identify.get_playstation2_game_info in H.
       rewrite Hext in H. discriminate H. }
  destruct (udf_identifiers image) as [e1|identifiers] eqn:Hudf.
  - destruct (iso_tree image) as [e2|paths] eqn:Hiso.
    + destruct (find_in_binary_returns (content image)) as [hit Hhit].
      rewrite (orchestrator_binary _ _ _ _ _ _ image e1 e2 hit
                 Hext Hudf Hiso Hhit) in H.
      assert (H' : identify "Binary" [hit] = inr info) by congruence.
      clear H. destruct hit as [serial|]; [|discriminate H'].
      rewrite identify_cons in H'.
      destruct (resolve "Binary" serial) as [found|] eqn:He;
        [|discriminate H'].
      injection H' as ->.
      apply resolve_inv in He as (Hserial & _ & Hprefix & _).
      pose proof Hhit as Hshape.
      apply find_in_binary_shape in Hshape
        as (prefix & sep & body & pre & post & Hin & Hsep & _ & Hbody & _
            & _ & Hform).
      rewrite Hserial, Hform in Hprefix.
      apply scanned_serial_resolves in Hprefix
        as (Hsierra & Hdash & Hsame);
        [|exact Hin| |now apply drop_dots_digits].
      * rewrite Hserial, Hform, Hsame, <- Hform. split; [exact Hhit|].
        exists prefix, (drop_dots body). split; [exact Hin|].
        split; [exact Hsierra|]. split; [now apply drop_dots_digits|].
        rewrite Hform, Hdash. reflexivity.
      * destruct (is_separator_cases sep Hsep) as [-> | [-> | ->]];
          [left|right|left]; reflexivity.
    + rewrite (orchestrator_cd image e1 paths Hext Hudf Hiso) in H.
      assert (H' : identify "CD" (map Some (map (lstrip "/"%byte) paths))
                   = inr info) by congruence.
      apply identify_inv in H' as (before & e & after & _ & _ & He).
      apply resolve_inv in He as (_ & Htype & _).
      rewrite <- Htype in Hbinary. discriminate Hbinary.
  - rewrite (orchestrator_dvd _ _ _ _ _ _ image identifiers Hext Hudf) in H.
    assert (H' : identify "DVD" (map Some identifiers) = inr info)
      by congruence.
    apply identify_inv in H' as (before & e & after & _ & _ & He).
    apply resolve_inv in He as (_ & Htype & _).
    rewrite <- Htype in Hbinary. discriminate Hbinary.
Qed.

End OrchestratorExtFacts.

(** A file that is no disc image and holds the line of [SYSTEM.CNF] that
    names the executable. *)
Definition boot_image : disc_image :=
  DiscImage (b ".BIN") (inl udf_failure) (inl iso_failure)
            (b "BOOT2 = cdrom0:\SLUS_201.01;1").

Lemma binary_serial_format_witness :
  _find_in_binary (content boot_image) = Some (Some (b "SLUS-20101"))
  /\ exists prefix digits,
       In prefix PREFIXES /\ prefix <> b "Sierra"
       /\ Forall is_digit_or_bar digits
       /\ b "SLUS-20101" = prefix ++ "-"%byte :: digits.
Proof.
  assert (H : get_playstation2_game_info ∅ ∅ ∅ ∅ ∅ us_table boot_image
              = Some (inr (GameInfo (b "SLUS-20101") "USA" "Game" "Binary"))).
  { assert (Hhit : _find_in_binary (content boot_image)
                   = Some (Some (b "SLUS-20101"))).
    { unfold _find_in_binary. rewrite find_in_binary_one_buffer.
      - vm_compute. reflexivity.
      - unfold BUFFER_SIZE. lia.
      - vm_compute. discriminate. }
    rewrite (orchestrator_binary ∅ ∅ ∅ ∅ ∅ us_table boot_image
               udf_failure iso_failure (Some (b "SLUS-20101")));
      [vm_compute; reflexivity|reflexivity..|exact Hhit]. }
  apply (binary_serial_format ∅ ∅ ∅ ∅ ∅ us_table boot_image _ H).
  reflexivity.
Defined.


End IdentifyExtFacts.
